(** * transforms/transform.py: a shallow embedding and its properties

    The geometric and photometric transforms of [transforms/transform.py]
    are embedded as Rocq functions.  Integer parameters are [Z].  A floating
    point value is the real number it denotes, and every floating point
    operation rounds its real result with an explicit rounding operator, so
    that statements hold for whatever the rounding is and error bounds can be
    derived from the standard model of floating point arithmetic.  numpy
    coordinate arrays live in a store of mutable objects, so that in-place
    updates and copies are told apart.  8-bit images are nested lists of
    [Z]. *)

From Stdlib Require Import Reals Lra Lia ZArith List.
From stdpp Require Import gmap strings.

Local Open Scope Z_scope.

(** * Part I: the embedding *)

(** ** Python results *)

(** The exceptions the embedded code can raise. [UnboundReference] has no
    Python counterpart: it is the answer of the model when a reference is not
    in the store, which no running program observes. *)
Inductive exn : Type :=
| NotImplementedError
| ZeroDivisionError
| IndexError
| ValueError
| AssertionError
| AttributeError
| cv2_error
| UnboundReference.

Inductive result (A : Type) : Type :=
| Ok (a : A)
| Raise (e : exn).
Arguments Ok {A} a.
Arguments Raise {A} e.

(** ** Floating point *)

(** The element types of the floating point arrays the code works with.
    A Python [float] is a [float64]. *)
Inductive dtype : Type := float32 | float64.

#[global] Instance dtype_eq_dec : EqDecision dtype.
Proof. solve_decision. Defined.

(** [rnd d x] is the value of format [d] that the real result [x] of an
    operation is rounded to. *)
Class Rounding : Type := { rnd : dtype -> R -> R }.

(** The standard model of floating point arithmetic, in the symmetric form
    that round-to-nearest satisfies when no overflow or underflow occurs:
    rounding multiplies by a factor between [1/(1+u)] and [1+u], where [u]
    is the unit roundoff of the coarsest format in use. *)
Class StandardModel `{Rounding} (u : R) : Prop := {
  u_nonneg : (0 <= u)%R;
  rnd_factor : forall d x,
    exists f, rnd d x = (x * f)%R /\ (/ (1 + u) <= f <= 1 + u)%R
}.

(** Arithmetic without rounding errors. *)
Definition exact : Rounding := {| rnd := fun _ x => x |}.

#[global] Instance R_eq_dec : EqDecision R := Req_dec_T.

(** A Python number as an operand: a [float] or an [int]. *)
Inductive pyscalar : Type :=
| PyFloat (x : R)
| PyInt (n : Z).

Section FloatOps.
Context `{Rounding}.

(** Conversion of a value between formats: widening and same-format
    conversions are exact, narrowing rounds. *)
Definition cast (from to : dtype) (x : R) : R :=
  match from, to with
  | float64, float32 => rnd float32 x
  | _, _ => x
  end.

(** Python [float(n)], as it happens implicitly in mixed arithmetic. *)
Definition of_int (n : Z) : R := rnd float64 (IZR n).

(** Arithmetic on Python floats. *)
Definition py_add (x y : R) : R := rnd float64 (x + y).
Definition py_sub (x y : R) : R := rnd float64 (x - y).
Definition py_mul (x y : R) : R := rnd float64 (x * y).

(** [x / y] on Python floats. *)
Definition py_div (x y : R) : result R :=
  if Req_dec_T y 0 then Raise ZeroDivisionError
  else Ok (rnd float64 (x / y)).

(** [x / n] with [x] a float and [n] an int. *)
Definition py_div_int (x : R) (n : Z) : result R :=
  if Z.eqb n 0 then Raise ZeroDivisionError
  else Ok (rnd float64 (x / of_int n)).

(** [n / m] on Python ints, with [m] a non-zero literal: true division. *)
Definition py_truediv (n m : Z) : R := rnd float64 (IZR n / IZR m).

(** C [fmod]: the remainder of the division truncated towards zero; it is
    computed without rounding error. *)
Definition Ztrunc (x : R) : Z :=
  if Rlt_dec x 0 then Zceil x else Zfloor x.

Definition fmod (x y : R) : R := (x - y * IZR (Ztrunc (x / y)))%R.

(** [x % y] on Python floats for [y] a non-zero literal, as CPython's
    [float_rem] computes it: [fmod], moved to the sign of [y]. *)
Definition py_mod (x y : R) : R :=
  let m := fmod x y in
  if Req_dec_T m 0 then 0%R
  else if Rlt_dec y 0 then
    (if Rlt_dec m 0 then m else rnd float64 (m + y))
  else
    (if Rlt_dec m 0 then rnd float64 (m + y) else m).

(** Element-wise arithmetic in an array of format [d]. *)
Definition fadd (d : dtype) (x y : R) : R := rnd d (x + y).
Definition fsub (d : dtype) (x y : R) : R := rnd d (x - y).
Definition fmul (d : dtype) (x y : R) : R := rnd d (x * y).
Definition fdiv (d : dtype) (x y : R) : R := rnd d (x / y).

(** A Python number that is an operand of an array operation takes the
    array's format first. *)
Definition scalar (d : dtype) (s : pyscalar) : R :=
  match s with
  | PyFloat x => cast float64 d x
  | PyInt n => rnd d (IZR n)
  end.

(** numpy's constants and element-wise functions. *)
Definition np_pi : R := rnd float64 PI.
Definition np_cos (d : dtype) (x : R) : R := rnd d (cos x).
Definition np_sin (d : dtype) (x : R) : R := rnd d (sin x).
Definition np_sqrt (d : dtype) (x : R) : R := rnd d (sqrt x).
Definition np_square (d : dtype) (x : R) : R := rnd d (x * x).
Definition np_deg2rad (x : R) : R := rnd float64 (x * rnd float64 (PI / 180)).

(** The angle of the point [(x, y)], in [(-PI, PI]]. *)
Definition arctan2 (y x : R) : R :=
  if Rlt_dec 0 x then atan (y / x)
  else if Rlt_dec x 0 then
    (if Rle_dec 0 y then atan (y / x) + PI else atan (y / x) - PI)%R
  else if Rlt_dec 0 y then (PI / 2)%R
  else if Rlt_dec y 0 then (- PI / 2)%R
  else 0%R.

Definition np_arctan2 (d : dtype) (y x : R) : R := rnd d (arctan2 y x).

(** [np.rint(x).astype(int)]: the nearest integer, ties to even. *)
Definition np_rint (x : R) : Z :=
  let n := Zfloor x in
  let r := (x - IZR n)%R in
  if Rlt_dec r (1 / 2) then n
  else if Rlt_dec (1 / 2) r then n + 1
  else if Z.even n then n else n + 1.

End FloatOps.

(** ** numpy arrays of rank 2 *)

(** An array of shape [(length rows, ncols)]; [ncols] is kept apart
    because an array without rows still has a second dimension. *)
Record ndarray : Type := mk_ndarray {
  dtype_of : dtype;
  ncols : nat;
  rows : list (list R)
}.

Definition nrows (a : ndarray) : nat := length (rows a).

(** Every row has [ncols] entries. *)
Definition rectangular (a : ndarray) : Prop :=
  Forall (fun r => length r = ncols a) (rows a).

(** [has_shape a n k]: [a] is an [n]×[k] array. *)
Definition has_shape (a : ndarray) (n k : nat) : Prop :=
  nrows a = n /\ ncols a = k /\ rectangular a.

(** [a[i, j]] *)
Definition entry (a : ndarray) (i j : nat) : option R :=
  r ← rows a !! i; r !! j.

(** [a[:, j]]: the column as a list; [IndexError] when the array has no
    such column. *)
Definition getcol (a : ndarray) (j : nat) : result (list R) :=
  if decide (j < ncols a)%nat
  then Ok (map (fun r => nth j r 0%R) (rows a))
  else Raise IndexError.

(** [a[:, j] = vs]: [IndexError] when the array has no such column,
    [ValueError] when [vs] has not one value per row. *)
Definition setcol (a : ndarray) (j : nat) (vs : list R) : result ndarray :=
  if decide (j < ncols a)%nat then
    if decide (length vs = nrows a)
    then Ok (mk_ndarray (dtype_of a) (ncols a)
               (zip_with (fun r v => <[j := v]> r) (rows a) vs))
    else Raise ValueError
  else Raise IndexError.

(** [a.astype(d)]: a new array value with every entry converted. *)
Definition astype `{Rounding} (a : ndarray) (d : dtype) : ndarray :=
  mk_ndarray d (ncols a) (map (map (cast (dtype_of a) d)) (rows a)).

(** ** The store of mutable arrays *)

Definition loc : Type := positive.

Abbreviation store := (gmap loc ndarray).

(** Computations that read and write the store and may raise. The store
    survives an exception, as the heap of a Python program does. *)
Definition Py (A : Type) : Type := store -> result A * store.

Definition ret {A} (a : A) : Py A := fun s => (Ok a, s).

Definition bind {A B} (m : Py A) (k : A -> Py B) : Py B :=
  fun s => match m s with
           | (Ok a, s') => k a s'
           | (Raise e, s') => (Raise e, s')
           end.

Definition lift {A} (r : result A) : Py A := fun s => (r, s).

Notation "x <- m ;; k" := (bind m (fun x => k))
  (at level 100, m at next level, right associativity, only parsing).
Notation "m ;;; k" := (bind m (fun _ => k))
  (at level 100, right associativity, only parsing).

(** The array a reference denotes. *)
Definition load (l : loc) : Py ndarray :=
  fun s => match s !! l with
           | Some a => (Ok a, s)
           | None => (Raise UnboundReference, s)
           end.

(** Overwrite the array a reference denotes. *)
Definition save (l : loc) (a : ndarray) : Py unit :=
  fun s => (Ok tt, <[l := a]> s).

(** A new object, at a reference no live object has. *)
Definition alloc (a : ndarray) : Py loc :=
  fun s => let l := fresh (dom s) in (Ok l, <[l := a]> s).

(** ** Array statements *)

Section ArrayStatements.
Context `{Rounding}.

(** [a[:, j] = vs] *)
Definition write_col (l : loc) (j : nat) (vs : list R) : Py unit :=
  a <- load l ;;
  a' <- lift (setcol a j vs) ;;
  save l a'.

(** [a[:, j] = f(a[:, j])] for an element-wise [f] that works in the
    array's format. *)
Definition assign_col (f : dtype -> R -> R) (l : loc) (j : nat) : Py unit :=
  a <- load l ;;
  c <- lift (getcol a j) ;;
  write_col l j (map (f (dtype_of a)) c).

(** [a[:, j] op= s] for a Python number [s]: the column is combined with
    the scalar in the array's format and written back into the same
    array. *)
Definition update_col (op : dtype -> R -> R -> R) (l : loc) (j : nat)
    (s : pyscalar) : Py unit :=
  assign_col (fun d x => op d x (scalar d s)) l j.

(** [a[:, j] op= vs] for an array [vs] of the same format. *)
Definition update_col_with (op : dtype -> R -> R -> R) (l : loc) (j : nat)
    (vs : list R) : Py unit :=
  a <- load l ;;
  c <- lift (getcol a j) ;;
  write_col l j (zip_with (op (dtype_of a)) c vs).

(** [b = a.astype(d)]: always a copy, in a new object. *)
Definition astype_new (l : loc) (d : dtype) : Py loc :=
  a <- load l ;; alloc (astype a d).

(** [b = np.asarray(a, dtype=d)]: the array itself when it has the format
    already, a converted copy otherwise. *)
Definition asarray (l : loc) (d : dtype) : Py loc :=
  a <- load l ;;
  if decide (dtype_of a = d) then ret l else alloc (astype a d).

End ArrayStatements.

(** ** Images and the OpenCV operations on them *)

(** An image of shape [(H, W, C)]: rows of pixels of channel values. *)
Definition image : Type := list (list (list Z)).

(** [img.shape[:2]] *)
Definition img_H (img : image) : nat := length img.
Definition img_W (img : image) : nat :=
  match img with
  | row :: _ => length row
  | [] => 0%nat
  end.

(** [img[i, j, k]] *)
Definition pixel (img : image) (i j : nat) : option (list Z) :=
  row ← img !! i; row !! j.

Definition channel (img : image) (i j k : nat) : option Z :=
  px ← pixel img i j; px !! k.

(** A 2×3 affine matrix and a 3×3 matrix, by rows. *)
Definition mat23 : Type := (R * R * R) * (R * R * R).
Definition mat33 : Type := (R * R * R) * (R * R * R) * (R * R * R).

Definition mat33_rows (m : mat33) : list (list R) :=
  let '((a, b, c), (d, e, f), (g, h, i)) := m in
  [[a; b; c]; [d; e; f]; [g; h; i]].

(** PIL resampling filters and OpenCV flags are integers. *)
Module Image.
Definition NEAREST : Z := 0.
Definition LINEAR : Z := 2.
Definition BILINEAR : Z := 2.
Definition BICUBIC : Z := 3.
End Image.

Module cv2.
Definition INTER_NEAREST : Z := 0.
Definition INTER_LINEAR : Z := 1.
Definition COLOR_BGR2HSV : Z := 40.
Definition COLOR_HSV2BGR : Z := 54.

(** The image operations of OpenCV that the transforms call. They are
    parameters of the development: nothing is assumed about them. *)
Class ImageOps : Type := {
  warpAffine : image -> mat23 -> Z * Z -> Z -> image;
  cvtColor : image -> Z -> image
}.

Section Affine.
Context `{Rounding}.

(** [cv2.getRotationMatrix2D(center, angle, scale)], after the formula of
    the OpenCV documentation, with [angle] in degrees. *)
Definition getRotationMatrix2D (center : R * R) (angle scale : R) : mat23 :=
  let alpha := rnd float64 (scale * cos (angle * PI / 180)) in
  let beta := rnd float64 (scale * sin (angle * PI / 180)) in
  let '(cx, cy) := center in
  ((alpha, beta, rnd float64 ((1 - alpha) * cx - beta * cy)),
   (- beta, alpha, rnd float64 (beta * cx + (1 - alpha) * cy)))%R.

(** [cv2.transform] on one point: the affine map of the matrix. *)
Definition transform_point (m : mat23) (p : R * R) : R * R :=
  let '((m00, m01, m02), (m10, m11, m12)) := m in
  let '(x, y) := p in
  (rnd float64 (m00 * x + m01 * y + m02),
   rnd float64 (m10 * x + m11 * y + m12))%R.

(** [cv2.transform(src[:, np.newaxis, :], m)[:, 0, :]] on an N×2 array. *)
Definition transform (src : ndarray) (m : mat23) : result ndarray :=
  if decide (ncols src = 2%nat) then
    Ok (mk_ndarray (dtype_of src) 2
          (map (fun r =>
                  let '(x, y) := transform_point m (nth 0 r 0%R, nth 1 r 0%R)
                  in [x; y]) (rows src)))
  else Raise cv2_error.
End Affine.
End cv2.

(** ** Transform parameters

    One record per class, with the attributes that [_set_attributes]
    stores. [HFlipTransform], [CropTransform], [NoOpTransform] and
    [TransformList] are fvcore's classes; of the first two only the
    attributes are needed here. *)

Module HFlipTransform.
Record t : Type := { width : Z }.
End HFlipTransform.

Module CropTransform.
Record t : Type := { x0 : Z; y0 : Z; w : Z; h : Z }.
End CropTransform.

Module ExtentTransform.
Record t : Type := {
  src_rect : R * R * R * R;
  output_size : Z * Z;
  interp : Z;
  fill : Z
}.
End ExtentTransform.

Module ResizeTransform.
Record t : Type := { h : Z; w : Z; new_h : Z; new_w : Z; interp : Z }.
End ResizeTransform.

Module RotationTransform.
Record t : Type := {
  h : Z;
  w : Z;
  angle : R;
  expand : bool;
  center : R * R;
  interp : Z;
  image_center : R * R;
  abs_cos : R;
  abs_sin : R;
  bound_w : Z;
  bound_h : Z;
  rm_coords : mat23;
  rm_image : mat23
}.
End RotationTransform.

Module ColorDistortTransform.
Record t : Type := {
  alpha : option R;
  beta : option R;
  h_delta : option Z;
  s_alpha : option R
}.
End ColorDistortTransform.

Module LetterboxTransform.
Record t : Type := {
  target_size : Z * Z;
  scale : R;
  dx : Z;
  dy : Z
}.
End LetterboxTransform.

Module PerspectiveTransform.
Record t : Type := {
  M : mat33;
  perspective : bool;
  border : Z * Z
}.
End PerspectiveTransform.

Module CutoutTransform.
Record t : Type := { region : Z * Z * Z * Z }.
End CutoutTransform.

(** The transforms as one type, for the methods that return a transform of
    another class. *)
#[warnings="-register-all"]
Inductive Transform : Type :=
| NoOp
| HFlip (t : HFlipTransform.t)
| Crop (t : CropTransform.t)
| Extent (t : ExtentTransform.t)
| Resize (t : ResizeTransform.t)
| Rotation (t : RotationTransform.t)
| Color (op : image -> image)
| ColorDistort (t : ColorDistortTransform.t)
| Letterbox (t : LetterboxTransform.t)
| Perspective (t : PerspectiveTransform.t)
| Cutout (t : CutoutTransform.t)
| TransformList (transforms : list Transform).


(** [TransformList(transforms)]: fvcore's constructor puts the elements of
    a [TransformList] among [transforms] in its place. *)
Definition TransformList_init (transforms : list Transform) : Transform :=
  TransformList
    (flat_map (fun t => match t with
                        | TransformList ts => ts
                        | _ => [t]
                        end) transforms).

(** ** ExtentTransform *)

Section ExtentTransform.
Context `{Rounding}.
Import ExtentTransform.

Definition ExtentTransform_apply_coords (self : ExtentTransform.t)
    (coords : loc) : Py loc :=
  let '(h, w) := output_size self in
  let '(x0, y0, x1, y1) := src_rect self in
  new_coords <- astype_new coords float32 ;;
  update_col fsub new_coords 0 (PyFloat (py_mul (1 / 2) (py_add x0 x1))) ;;;
  update_col fsub new_coords 1 (PyFloat (py_mul (1 / 2) (py_add y0 y1))) ;;;
  sx <- lift (py_div (of_int w) (py_sub x1 x0)) ;;
  update_col fmul new_coords 0 (PyFloat sx) ;;;
  sy <- lift (py_div (of_int h) (py_sub y1 y0)) ;;
  update_col fmul new_coords 1 (PyFloat sy) ;;;
  update_col fadd new_coords 0 (PyFloat (py_mul (1 / 2) (of_int w))) ;;;
  update_col fadd new_coords 1 (PyFloat (py_mul (1 / 2) (of_int h))) ;;;
  ret new_coords.

End ExtentTransform.

(** ** ResizeTransform *)

Section ResizeTransform.
Context `{Rounding}.
Import ResizeTransform.

(** [__init__]: [interp] defaults to bilinear. *)
Definition ResizeTransform_init (h w new_h new_w : Z) (interp : option Z)
  : ResizeTransform.t :=
  {| h := h; w := w; new_h := new_h; new_w := new_w;
     interp := match interp with
               | None => Image.BILINEAR
               | Some i => i
               end |}.

(** [new * 1.0 / old] *)
Definition scale_factor (new old : Z) : result R :=
  py_div_int (py_mul (of_int new) 1) old.

(** [coords[:, j] = coords[:, j] * (new * 1.0 / old)] *)
Definition scale_col (coords : loc) (j : nat) (new old : Z) : Py unit :=
  a <- load coords ;;
  c <- lift (getcol a j) ;;
  s <- lift (scale_factor new old) ;;
  write_col coords j
    (map (fun x => fmul (dtype_of a) x (scalar (dtype_of a) (PyFloat s))) c).

Definition ResizeTransform_apply_coords (self : ResizeTransform.t)
    (coords : loc) : Py loc :=
  scale_col coords 0 (new_w self) (w self) ;;;
  scale_col coords 1 (new_h self) (h self) ;;;
  ret coords.

Definition ResizeTransform_inverse (self : ResizeTransform.t)
  : result Transform :=
  Ok (Resize (ResizeTransform_init (new_h self) (new_w self) (h self)
                (w self) (Some (interp self)))).

End ResizeTransform.

(** ** RotationTransform *)

Section RotationTransform.
Context `{Rounding} `{cv2.ImageOps}.
Import RotationTransform.

(** [create_rotation_matrix], on the attributes it reads. *)
Definition create_rotation_matrix (center image_center : R * R) (angle : R)
    (expand : bool) (bound_w bound_h : Z) (offset : R) : mat23 :=
  let center := (py_add center.1 offset, py_add center.2 offset) in
  let rm := cv2.getRotationMatrix2D center angle 1 in
  if expand then
    let rot_im_center :=
      cv2.transform_point rm
        (py_add image_center.1 offset, py_add image_center.2 offset) in
    let new_center :=
      (py_sub (py_add (py_truediv bound_w 2) offset) rot_im_center.1,
       py_sub (py_add (py_truediv bound_h 2) offset) rot_im_center.2) in
    let '((m00, m01, m02), (m10, m11, m12)) := rm in
    ((m00, m01, py_add m02 new_center.1),
     (m10, m11, py_add m12 new_center.2))
  else rm.

(** [__init__] *)
Definition RotationTransform_init (h w : Z) (angle : R) (expand : bool)
    (center : option (R * R)) (interp : option Z) : RotationTransform.t :=
  let image_center := (py_truediv w 2, py_truediv h 2) in
  let center := match center with
                | None => image_center
                | Some c => c
                end in
  let interp := match interp with
                | None => cv2.INTER_LINEAR
                | Some i => i
                end in
  let abs_cos := Rabs (np_cos float64 (np_deg2rad angle)) in
  let abs_sin := Rabs (np_sin float64 (np_deg2rad angle)) in
  let '(bound_w, bound_h) :=
    if expand then
      (np_rint (py_add (py_mul (of_int h) abs_sin) (py_mul (of_int w) abs_cos)),
       np_rint (py_add (py_mul (of_int h) abs_cos) (py_mul (of_int w) abs_sin)))
    else (w, h) in
  {| h := h; w := w; angle := angle; expand := expand; center := center;
     interp := interp; image_center := image_center;
     abs_cos := abs_cos; abs_sin := abs_sin;
     bound_w := bound_w; bound_h := bound_h;
     rm_coords :=
       create_rotation_matrix center image_center angle expand
         bound_w bound_h 0;
     rm_image :=
       create_rotation_matrix center image_center angle expand
         bound_w bound_h (- (1 / 2)) |}.

(** [self.angle % 360 == 0] *)
Definition angle_is_turn (self : RotationTransform.t) : bool :=
  bool_decide (py_mod (angle self) 360 = 0%R).

Definition RotationTransform_apply_image (self : RotationTransform.t)
    (img : image) (interp : option Z) : result image :=
  if (length img =? 0)%nat || angle_is_turn self then Ok img
  else if (Z.of_nat (img_H img) =? h self) && (Z.of_nat (img_W img) =? w self)
  then
    let interp := match interp with
                  | Some i => i
                  | None => RotationTransform.interp self
                  end in
    Ok (cv2.warpAffine img (rm_image self) (bound_w self, bound_h self) interp)
  else Raise AssertionError.

Definition RotationTransform_apply_coords (self : RotationTransform.t)
    (coords : loc) : Py loc :=
  coords <- asarray coords float64 ;;
  a <- load coords ;;
  if (nrows a =? 0)%nat || angle_is_turn self then ret coords
  else
    b <- lift (cv2.transform a (rm_coords self)) ;;
    alloc b.

Definition RotationTransform_inverse (self : RotationTransform.t)
  : result Transform :=
  if negb (expand self) then Raise NotImplementedError
  else
    let rotation :=
      RotationTransform_init (bound_h self) (bound_w self) (- angle self)
        true None (Some (interp self)) in
    let crop :=
      {| CropTransform.x0 := (bound_w rotation - w self) / 2;
         CropTransform.y0 := (bound_h rotation - h self) / 2;
         CropTransform.w := w self;
         CropTransform.h := h self |} in
    Ok (TransformList_init [Rotation rotation; Crop crop]).

End RotationTransform.

(** ** ColorDistortTransform *)

Section ColorDistortTransform.
Context `{Rounding} `{cv2.ImageOps}.
Import ColorDistortTransform.

(** The conversion of a float in [[0, 255]] to an 8-bit value drops the
    fraction. *)
Definition float_to_uint8 (x : R) : Z := Zfloor x.

(** The conversion of an integer to an 8-bit value wraps around. *)
Definition int_to_uint8 (n : Z) : Z := n mod 256.

(** [_convert] on one value: [v * alpha + beta] in float64, clipped to
    [[0, 255]] and stored back as an 8-bit value. *)
Definition convert_value (alpha beta : pyscalar) (v : Z) : Z :=
  let tmp := fadd float64 (fmul float64 (IZR v) (scalar float64 alpha))
               (scalar float64 beta) in
  let tmp := if Rlt_dec tmp 0 then 0%R else tmp in
  let tmp := if Rlt_dec 255 tmp then 255%R else tmp in
  float_to_uint8 tmp.

(** [_convert(img, alpha, beta)]: every value of every channel. *)
Definition _convert (img : image) (alpha beta : pyscalar) : image :=
  map (map (map (convert_value alpha beta))) img.

(** [img[:, :, k] = f(img[:, :, k])]: one channel of every pixel. *)
Definition map_channel (k : nat) (f : Z -> Z) (img : image) : image :=
  map (map (alter f k)) img.

(** [tmp = img[:, :, 0].astype(int) + h_delta; tmp %= 180;
    img[:, :, 0] = tmp] on one value *)
Definition shift_hue (h_delta : Z) (v : Z) : Z :=
  int_to_uint8 ((v + h_delta) mod 180).

(** The part of [apply_image] before the conversion to hue, saturation and
    value. *)
Definition distort_bgr (self : ColorDistortTransform.t) (img : image)
  : image :=
  let img := match beta self with
             | Some b => _convert img (PyInt 1) (PyFloat b)
             | None => img
             end in
  match alpha self with
  | Some a => _convert img (PyFloat a) (PyInt 0)
  | None => img
  end.

(** The part of [apply_image] on the hue, saturation and value image. *)
Definition distort_hsv (self : ColorDistortTransform.t) (img : image)
  : image :=
  let img := match h_delta self with
             | Some d => map_channel 0 (shift_hue d) img
             | None => img
             end in
  match s_alpha self with
  | Some a => map_channel 1 (convert_value (PyFloat a) (PyInt 0)) img
  | None => img
  end.

Definition ColorDistortTransform_apply_image (self : ColorDistortTransform.t)
    (img : image) : image :=
  let img := distort_bgr self img in
  let img := cv2.cvtColor img cv2.COLOR_BGR2HSV in
  let img := distort_hsv self img in
  cv2.cvtColor img cv2.COLOR_HSV2BGR.

End ColorDistortTransform.

(** ** LetterboxTransform *)

Section LetterboxTransform.
Context `{Rounding}.
Import LetterboxTransform.

Definition LetterboxTransform_apply_coords (self : LetterboxTransform.t)
    (coords : loc) : Py loc :=
  new_coords <- astype_new coords float32 ;;
  update_col fmul new_coords 0 (PyFloat (scale self)) ;;;
  update_col fmul new_coords 1 (PyFloat (scale self)) ;;;
  update_col fadd new_coords 0 (PyInt (dx self)) ;;;
  update_col fadd new_coords 1 (PyInt (dy self)) ;;;
  ret new_coords.


End LetterboxTransform.

(** ** PerspectiveTransform *)

Section PerspectiveTransform.
Context `{Rounding}.
Import PerspectiveTransform.

(** [np.ones((n, k))] *)
Definition ones (n k : nat) : ndarray :=
  mk_ndarray float64 k (replicate n (replicate k 1%R)).

(** [xy[:, :2] = coords] for [xy] with as many rows as [coords]: the
    two columns of [coords], or its one column twice, converted to the
    format of [xy]; no other width fits. *)
Definition set_cols01 (xy coords : ndarray) : result ndarray :=
  let conv := cast (dtype_of coords) (dtype_of xy) in
  if decide (ncols coords = 2%nat) then
    Ok (mk_ndarray (dtype_of xy) (ncols xy)
          (zip_with (fun r c => map conv (take 2 c) ++ drop 2 r)
             (rows xy) (rows coords)))
  else if decide (ncols coords = 1%nat) then
    Ok (mk_ndarray (dtype_of xy) (ncols xy)
          (zip_with (fun r c => let v := conv (nth 0 c 0%R) in
                                [v; v] ++ drop 2 r)
             (rows xy) (rows coords)))
  else Raise ValueError.

(** The sum of the products of two rows, accumulated from the left in
    float64. *)
Fixpoint dot_from (acc : R) (r c : list R) : R :=
  match r, c with
  | x :: r', y :: c' => dot_from (fadd float64 acc (fmul float64 x y)) r' c'
  | _, _ => acc
  end.

Definition dot (r c : list R) : R :=
  match r, c with
  | x :: r', y :: c' => dot_from (fmul float64 x y) r' c'
  | _, _ => 0%R
  end.

(** [m.T] *)
Definition transpose (m : ndarray) : ndarray :=
  mk_ndarray (dtype_of m) (nrows m)
    (map (fun j => map (fun r => nth j r 0%R) (rows m)) (seq 0 (ncols m))).

(** [a @ b]: entry [(i, j)] is the product of row [i] of [a] with column
    [j] of [b]; [ValueError] when the inner dimensions differ. *)
Definition matmul (a b : ndarray) : result ndarray :=
  if decide (ncols a = nrows b) then
    Ok (mk_ndarray float64 (ncols b)
          (map (fun r =>
                  map (fun j => dot r (map (fun rb => nth j rb 0%R) (rows b)))
                    (seq 0 (ncols b)))
             (rows a)))
  else Raise ValueError.

(** The 3×3 matrix [M] as an array. *)
Definition mat33_array (m : mat33) : ndarray :=
  mk_ndarray float64 3 (mat33_rows m).

(** [xy[:, lo:hi]] *)
Definition cols (lo hi : nat) (xy : ndarray) : ndarray :=
  mk_ndarray (dtype_of xy) (Nat.min hi (ncols xy) - lo)
    (map (fun r => take (hi - lo) (drop lo r)) (rows xy)).

(** [a / b] for [b] with one column, which is divided into every column
    of [a]. *)
Definition div_col (a b : ndarray) : ndarray :=
  mk_ndarray (dtype_of a) (ncols a)
    (zip_with (fun ra rb => map (fun x => fdiv (dtype_of a) x (nth 0 rb 0%R)) ra)
       (rows a) (rows b)).

(** [a.reshape(n, -1)] for [a] with [n] rows: numpy cannot tell the second
    dimension of an array without elements. *)
Definition reshape_rows (n : nat) (a : ndarray) : result ndarray :=
  if (n =? 0)%nat then Raise ValueError else Ok a.

Definition PerspectiveTransform_apply_coords (self : PerspectiveTransform.t)
    (coords : loc) : Py loc :=
  a <- load coords ;;
  let n := nrows a in
  xy <- lift (set_cols01 (ones n 3) a) ;;
  xy <- lift (matmul xy (transpose (mat33_array (M self)))) ;;
  xy <- lift (if perspective self
              then reshape_rows n (div_col (cols 0 2 xy) (cols 2 3 xy))
              else reshape_rows n (cols 0 2 xy)) ;;
  alloc xy.


End PerspectiveTransform.

(** ** CutoutTransform *)

Section CutoutTransform.
Import CutoutTransform.

(** The position a slice bound [i] denotes in a sequence of [len]
    elements: negative bounds count from the end, and every bound is
    brought into [[0, len]]. *)
Definition slice_bound (len i : Z) : Z :=
  if i <? 0 then Z.max (i + len) 0 else Z.min i len.

(** Whether position [k] is in [start:stop] of a sequence of [len]
    elements. *)
Definition in_slice (len start stop : Z) (k : nat) : bool :=
  (slice_bound len start <=? Z.of_nat k)
  && (Z.of_nat k <? slice_bound len stop).

Definition CutoutTransform_apply_image (self : CutoutTransform.t)
    (img : image) : image :=
  let H := Z.of_nat (img_H img) in
  let W := Z.of_nat (img_W img) in
  let '(x, y, w, h) := region self in
  let x2 := Z.min (W - 1) (x + w) in
  let y2 := Z.min (H - 1) (y + h) in
  imap (fun i row =>
          if in_slice H y y2 i
          then imap (fun j px =>
                       if in_slice W x x2 j then map (fun _ => 0) px else px)
                 row
          else row) img.

Definition CutoutTransform_apply_coords (self : CutoutTransform.t)
    (coords : loc) : Py loc :=
  ret coords.

End CutoutTransform.

(** ** Rotated boxes *)

Section RotatedBoxes.
Context `{Rounding}.

Definition HFlip_rotated_box (transform : HFlipTransform.t)
    (rotated_boxes : loc) : Py loc :=
  assign_col
    (fun d x => fsub d (scalar d (PyInt (HFlipTransform.width transform))) x)
    rotated_boxes 0 ;;;
  assign_col (fun _ x => (- x)%R) rotated_boxes 4 ;;;
  ret rotated_boxes.

Definition Resize_rotated_box (transform : ResizeTransform.t)
    (rotated_boxes : loc) : Py loc :=
  scale_factor_x <- lift (scale_factor (ResizeTransform.new_w transform)
                            (ResizeTransform.w transform)) ;;
  scale_factor_y <- lift (scale_factor (ResizeTransform.new_h transform)
                            (ResizeTransform.h transform)) ;;
  update_col fmul rotated_boxes 0 (PyFloat scale_factor_x) ;;;
  update_col fmul rotated_boxes 1 (PyFloat scale_factor_y) ;;;
  a <- load rotated_boxes ;;
  let d := dtype_of a in
  let sx := scalar d (PyFloat scale_factor_x) in
  let sy := scalar d (PyFloat scale_factor_y) in
  angles <- lift (getcol a 4) ;;
  let theta :=
    map (fun x => fdiv d (fmul d x (scalar d (PyFloat np_pi)))
                    (scalar d (PyFloat 180))) angles in
  let c := map (np_cos d) theta in
  let s := map (np_sin d) theta in
  update_col_with fmul rotated_boxes 2
    (zip_with (fun c s => np_sqrt d (fadd d (np_square d (fmul d sx c))
                                       (np_square d (fmul d sy s)))) c s) ;;;
  update_col_with fmul rotated_boxes 3
    (zip_with (fun c s => np_sqrt d (fadd d (np_square d (fmul d sx s))
                                       (np_square d (fmul d sy c)))) c s) ;;;
  write_col rotated_boxes 4
    (zip_with (fun c s =>
                 fdiv d (fmul d (np_arctan2 d (fmul d sx s) (fmul d sy c))
                           (scalar d (PyInt 180)))
                   (scalar d (PyFloat np_pi))) c s) ;;;
  ret rotated_boxes.

End RotatedBoxes.

(** ** Registration of handlers for further kinds of data *)

Section Registry.
Context `{Rounding}.

(** A handler gets the transform and the data. *)
Definition handler (T : Type) : Type := T -> loc -> Py loc.

(** [register_type] files a handler under the name of the kind of data in
    the class it is called on; the classes that the module registers
    handlers for are these three. *)
Record registry : Type := {
  HFlip_handlers : gmap string (handler HFlipTransform.t);
  Resize_handlers : gmap string (handler ResizeTransform.t);
  NoOp_handlers : gmap string (handler unit)
}.

Definition no_handlers : registry :=
  {| HFlip_handlers := ∅; Resize_handlers := ∅; NoOp_handlers := ∅ |}.

Definition HFlipTransform_register_type (data_type : string)
    (func : handler HFlipTransform.t) (r : registry) : registry :=
  {| HFlip_handlers := <[data_type := func]> (HFlip_handlers r);
     Resize_handlers := Resize_handlers r;
     NoOp_handlers := NoOp_handlers r |}.

Definition ResizeTransform_register_type (data_type : string)
    (func : handler ResizeTransform.t) (r : registry) : registry :=
  {| HFlip_handlers := HFlip_handlers r;
     Resize_handlers := <[data_type := func]> (Resize_handlers r);
     NoOp_handlers := NoOp_handlers r |}.

Definition NoOpTransform_register_type (data_type : string)
    (func : handler unit) (r : registry) : registry :=
  {| HFlip_handlers := HFlip_handlers r;
     Resize_handlers := Resize_handlers r;
     NoOp_handlers := <[data_type := func]> (NoOp_handlers r) |}.

(** The three registrations at the end of the module. *)
Definition registered : registry :=
  NoOpTransform_register_type "rotated_box" (fun t x => ret x)
    (ResizeTransform_register_type "rotated_box" Resize_rotated_box
       (HFlipTransform_register_type "rotated_box" HFlip_rotated_box
          no_handlers)).

(** [transform.apply_<data_type>(x)]: the handler registered under the
    name, [AttributeError] when there is none. *)
Definition apply_registered {T} (handlers : gmap string (handler T))
    (data_type : string) (transform : T) (x : loc) : Py loc :=
  match handlers !! data_type with
  | Some func => func transform x
  | None => lift (Raise AttributeError)
  end.

End Registry.

(** ** Notions for the statements *)

(** The array whose rows are the rows of [a] under [g]: what a sequence of
    column statements makes of [a]. *)
Definition rowwise (g : list R -> list R) (a : ndarray) : ndarray :=
  mk_ndarray (dtype_of a) (ncols a) (map g (rows a)).

(** [near u n x y]: [y] is [x] up to [n] roundings of unit roundoff [u]. *)
Definition near (u : R) (n : nat) (x y : R) : Prop :=
  exists f, y = (x * f)%R /\ (/ (1 + u) ^ n <= f <= (1 + u) ^ n)%R.

(** A rounding that leaves the integers up to [2^24] as they are, as the
    two formats do. *)
Class SmallIntegersExact `{Rounding} : Prop :=
  rnd_small_integer : forall (d : dtype) (z : Z),
    Z.abs z <= 2 ^ 24 -> rnd d (IZR z) = IZR z.

(** ** Sample inputs *)

(** Image operations that return the image they are given. *)
Definition identity_image_ops : cv2.ImageOps :=
  {| cv2.warpAffine := fun img _ _ _ => img;
     cv2.cvtColor := fun img _ => img |}.

(** Arrays of one point, of no point and of one rotated box, and the
    stores that hold one of them at the reference 1. *)
Definition one_point : ndarray := mk_ndarray float64 2 [[20; 10]%R].
Definition no_points : ndarray := mk_ndarray float64 2 [].
Definition one_box : ndarray :=
  mk_ndarray float64 5 [[30; 50; 20; 10; 0]%R].

Definition store_of (a : ndarray) : store := {[1%positive := a]}.

(** The resize of a 100×50 image to 50×25. *)
Definition halving : ResizeTransform.t :=
  {| ResizeTransform.h := 50; ResizeTransform.w := 100;
     ResizeTransform.new_h := 25; ResizeTransform.new_w := 50;
     ResizeTransform.interp := Image.BILINEAR |}.

(** The flip of an image that is 100 wide. *)
Definition flip_100 : HFlipTransform.t := {| HFlipTransform.width := 100 |}.

(** Rotations of a 6×4 image in exact arithmetic: by 90 degrees without
    and with expansion, and by two turns. *)
Definition quarter_turn_cropped : RotationTransform.t :=
  @RotationTransform_init exact 4 6 90 false None None.
Definition quarter_turn_expanded : RotationTransform.t :=
  @RotationTransform_init exact 4 6 90 true None None.
Definition two_turns : RotationTransform.t :=
  @RotationTransform_init exact 4 6 (360 * 2) true None None.

(** The shift of the hue by 200. *)
Definition hue_plus_200 : ColorDistortTransform.t :=
  {| ColorDistortTransform.alpha := None;
     ColorDistortTransform.beta := None;
     ColorDistortTransform.h_delta := Some 200;
     ColorDistortTransform.s_alpha := None |}.

(** The letterbox of scale 2 into 640×640 at the offset [(3, 4)]. *)
Definition letterbox_twice : LetterboxTransform.t :=
  {| LetterboxTransform.target_size := (640, 640);
     LetterboxTransform.scale := 2;
     LetterboxTransform.dx := 3;
     LetterboxTransform.dy := 4 |}.

(** The perspective and the affine transform of the identity matrix. *)
Definition identity_matrix : mat33 := ((1, 0, 0), (0, 1, 0), (0, 0, 1))%R.

Definition perspective_identity : PerspectiveTransform.t :=
  {| PerspectiveTransform.M := identity_matrix;
     PerspectiveTransform.perspective := true;
     PerspectiveTransform.border := (0, 0) |}.

Definition affine_identity : PerspectiveTransform.t :=
  {| PerspectiveTransform.M := identity_matrix;
     PerspectiveTransform.perspective := false;
     PerspectiveTransform.border := (0, 0) |}.

(** The cutout of the region [(1, 1, 5, 5)] and a 3×3 image of one
    channel. *)
Definition cutout_1155 : CutoutTransform.t :=
  {| CutoutTransform.region := (1, 1, 5, 5) |}.

Definition sevens : image :=
  [[[7]; [7]; [7]];
   [[7]; [7]; [7]];
   [[7]; [7]; [7]]].

(** ** Further array and image operations *)

(** Further image operations of OpenCV, parameters as well:
    [cv2.flip(img, code)] and [cv2.resize(img, (w, h), interpolation)]. *)
Class MoreImageOps : Type := {
  cv2_flip : image -> Z -> image;
  cv2_resize : image -> Z * Z -> Z -> image
}.

Section MoreArrayStatements.
Context `{Rounding}.

(** [b = a.copy()]: the same array in a new object. *)
Definition copy (l : loc) : Py loc :=
  a <- load l ;; alloc a.

(** The columns that [start::step] selects among [k] columns. *)
Definition stride_cols (start step k : nat) : list nat :=
  filter (fun j => (start <=? j)%nat && ((j - start) mod step =? 0)%nat)
    (seq 0 k).

(** [a[..., idxs]]: the selected columns, row by row. *)
Definition getcols (a : ndarray) (idxs : list nat) : list (list R) :=
  map (fun r => map (fun j => nth j r 0%R) idxs) (rows a).

(** The row [r] with the values [v] at the positions [idxs]. *)
Definition assign_at (idxs : list nat) (v : list R) (r : list R) : list R :=
  foldr (fun jx acc => <[jx.1 := jx.2]> acc) r (zip idxs v).

(** [a[..., idxs] = vals] for [vals] with [c] columns and one row per row
    of [a]: the widths have to agree, unless [vals] has one column, which
    then goes to every selected column; [ValueError] otherwise. *)
Definition setcols (a : ndarray) (idxs : list nat) (c : nat)
    (vals : list (list R)) : result ndarray :=
  if decide (c = length idxs) then
    Ok (mk_ndarray (dtype_of a) (ncols a)
          (zip_with (fun r v => assign_at idxs v r) (rows a) vals))
  else if decide (c = 1%nat) then
    Ok (mk_ndarray (dtype_of a) (ncols a)
          (zip_with (fun r v =>
                       assign_at idxs
                         (replicate (length idxs) (nth 0 v 0%R)) r)
             (rows a) vals))
  else Raise ValueError.

(** [target[..., to] = f(source[..., from])] for an element-wise [f] that
    works in the format of [source]. *)
Definition assign_cols (f : dtype -> R -> R) (target : loc) (to : nat * nat)
    (source : loc) (from : nat * nat) : Py unit :=
  b <- load source ;;
  let src := stride_cols from.1 from.2 (ncols b) in
  let vals := map (map (f (dtype_of b))) (getcols b src) in
  a <- load target ;;
  a' <- lift (setcols a (stride_cols to.1 to.2 (ncols a)) (length src) vals) ;;
  save target a'.

(** [[f(x) for x in xs]] *)
Fixpoint mapM {A B} (f : A -> Py B) (xs : list A) : Py (list B) :=
  match xs with
  | [] => ret []
  | x :: xs' => y <- f x ;; ys <- mapM f xs' ;; ret (y :: ys)
  end.

End MoreArrayStatements.

(** An attribute that is set by a method: [AttributeError] before. *)
Definition getattr {A} (attr : option A) : result A :=
  match attr with
  | Some v => Ok v
  | None => Raise AttributeError
  end.

(** The arguments and the results of the [__call__] methods: one image
    with or without its boxes, or a list of images with or without the
    list of their boxes. Without boxes the result is the images alone. *)
Inductive sample : Type :=
| Single (imgs : image) (boxes : option loc)
| Batch (imgs : list image) (boxes : option (list loc)).

(** ** flip.py *)

Module RandomFlip.
Record t : Type := { flip_ratio : R; w : option Z }.
End RandomFlip.

Section RandomFlip.
Context `{Rounding} `{MoreImageOps}.
Import RandomFlip.

Definition RandomFlip_init (flip_ratio : R) : RandomFlip.t :=
  {| flip_ratio := flip_ratio; w := None |}.

Definition RandomFlip_flip_img (self : RandomFlip.t) (img : image)
  : RandomFlip.t * image :=
  ({| flip_ratio := flip_ratio self; w := Some (Z.of_nat (img_W img)) |},
   cv2_flip img 1).

Definition RandomFlip_flip_boxes (self : RandomFlip.t) (boxes : loc)
  : Py loc :=
  flipped <- copy boxes ;;
  w <- lift (getattr (w self)) ;;
  assign_cols (fun d x => fsub d (scalar d (PyInt w)) x)
    flipped (0, 4)%nat boxes (2, 4)%nat ;;;
  w <- lift (getattr (RandomFlip.w self)) ;;
  assign_cols (fun d x => fsub d (scalar d (PyInt w)) x)
    flipped (2, 4)%nat boxes (0, 4)%nat ;;;
  ret flipped.

(** [[self.flip_img(x) for x in imgs]] *)
Fixpoint RandomFlip_flip_imgs (self : RandomFlip.t) (imgs : list image)
  : RandomFlip.t * list image :=
  match imgs with
  | [] => (self, [])
  | x :: imgs' =>
      let '(self, y) := RandomFlip_flip_img self x in
      let '(self, ys) := RandomFlip_flip_imgs self imgs' in
      (self, y :: ys)
  end.

(** [__call__], with the value [draw] that [random.random()] returns. *)
Definition RandomFlip_call (draw : R) (self : RandomFlip.t) (args : sample)
  : Py (RandomFlip.t * sample) :=
  if Rlt_dec (flip_ratio self) draw then ret (self, args)
  else
    match args with
    | Batch imgs boxes =>
        let '(self, imgs) := RandomFlip_flip_imgs self imgs in
        match boxes with
        | Some boxes =>
            boxes <- mapM (RandomFlip_flip_boxes self) boxes ;;
            ret (self, Batch imgs (Some boxes))
        | None => ret (self, Batch imgs None)
        end
    | Single imgs boxes =>
        let '(self, imgs) := RandomFlip_flip_img self imgs in
        match boxes with
        | Some boxes =>
            boxes <- RandomFlip_flip_boxes self boxes ;;
            ret (self, Single imgs (Some boxes))
        | None => ret (self, Single imgs None)
        end
    end.

End RandomFlip.

(** ** Images as targets of slice assignments

    The functions below are meant for images with at least one row, one
    column and one channel, whose shape the nested lists determine. *)

(** [img.shape[2]] *)
Definition img_C (img : image) : nat :=
  match img with
  | (px :: _) :: _ => length px
  | _ => 0%nat
  end.

(** Every row has [W] pixels and every pixel [C] channels. *)
Definition image_shape (img : image) (H W C : nat) : Prop :=
  length img = H /\
  Forall (fun row => length row = W /\ Forall (fun px => length px = C) row)
    img.

(** [np.ones((h, w, c)) * v] for [h] and [w] that are not negative. *)
Definition full (h w : Z) (c : nat) (v : Z) : image :=
  replicate (Z.to_nat h) (replicate (Z.to_nat w) (replicate c v)).

(** The positions of [start:stop] in a sequence of [len] elements. *)
Definition slice_positions (len : nat) (start stop : Z) : list nat :=
  filter (fun k => in_slice (Z.of_nat len) start stop k) (seq 0 len).

(** A dimension [n] of a value fits the dimension [m] of the target of an
    assignment when both agree or [n] is 1, in which case the one element
    is repeated. *)
Definition broadcasts (n m : nat) : bool := (n =? m)%nat || (n =? 1)%nat.

Definition source_index (n k : nat) : nat :=
  if (n =? 1)%nat then 0%nat else k.

(** [canvas[y0:y1, x0:x1, :] = value] for a canvas of shape [(H, W, C)]:
    [ValueError] when the shape of [value] does not fit the selected
    window. *)
Definition paste (H W C : nat) (canvas : image) (ys xs : Z * Z)
    (value : image) : result image :=
  let top := Z.to_nat (slice_bound (Z.of_nat H) ys.1) in
  let left := Z.to_nat (slice_bound (Z.of_nat W) xs.1) in
  if broadcasts (img_H value) (length (slice_positions H ys.1 ys.2))
     && broadcasts (img_W value) (length (slice_positions W xs.1 xs.2))
     && broadcasts (img_C value) C
  then
    Ok (imap (fun i row =>
          if in_slice (Z.of_nat H) ys.1 ys.2 i then
            imap (fun j px =>
              if in_slice (Z.of_nat W) xs.1 xs.2 j then
                imap (fun k v =>
                  default v
                    (channel value
                       (source_index (img_H value) (i - top))
                       (source_index (img_W value) (j - left))
                       (source_index (img_C value) k))) px
              else px) row
          else row) canvas)
  else Raise ValueError.

(** ** pad.py *)

Module Pad.
Record t : Type := {
  out_size : Z * Z;
  pad_val : Z;
  x : option Z;
  y : option Z
}.
End Pad.

Section Pad.
Context `{Rounding}.
Import Pad.

Definition Pad_init (out_size : Z * Z) (pad_val : Z) : Pad.t :=
  {| out_size := out_size; pad_val := pad_val; x := None; y := None |}.

(** The canvas takes a type that holds [pad_val] and the values of the
    image. *)
Definition Pad_pad_img (self : Pad.t) (img : image)
  : result (Pad.t * image) :=
  let h := Z.of_nat (img_H img) in
  let w := Z.of_nat (img_W img) in
  let '(ow, oh) := out_size self in
  if (ow >=? w) && (oh >=? h) then
    let canvas := full oh ow 3 (pad_val self) in
    let x := (ow - w) / 2 in
    let y := (oh - h) / 2 in
    match paste (Z.to_nat oh) (Z.to_nat ow) 3 canvas
            (y, y + h) (x, x + w) img with
    | Ok canvas =>
        Ok ({| out_size := out_size self; pad_val := pad_val self;
               x := Some x; y := Some y |}, canvas)
    | Raise e => Raise e
    end
  else Raise AssertionError.

Definition Pad_pad_boxes (self : Pad.t) (boxes : loc) : Py loc :=
  padded <- copy boxes ;;
  x <- lift (getattr (x self)) ;;
  assign_cols (fun d v => fadd d v (scalar d (PyInt x)))
    padded (0, 2)%nat padded (0, 2)%nat ;;;
  y <- lift (getattr (y self)) ;;
  assign_cols (fun d v => fadd d v (scalar d (PyInt y)))
    padded (1, 2)%nat padded (1, 2)%nat ;;;
  ret padded.

(** [[self.pad_img(x) for x in imgs]]; an exception leaves the object as
    the images before have set it. *)
Fixpoint Pad_pad_imgs (self : Pad.t) (imgs : list image)
  : result (list image) * Pad.t :=
  match imgs with
  | [] => (Ok [], self)
  | x :: imgs' =>
      match Pad_pad_img self x with
      | Ok (self, y) =>
          match Pad_pad_imgs self imgs' with
          | (Ok ys, self) => (Ok (y :: ys), self)
          | (Raise e, self) => (Raise e, self)
          end
      | Raise e => (Raise e, self)
      end
  end.

Definition Pad_call (self : Pad.t) (args : sample)
  : Py (Pad.t * sample) :=
  match args with
  | Batch imgs boxes =>
      match Pad_pad_imgs self imgs with
      | (Ok imgs, self) =>
          match boxes with
          | Some boxes =>
              boxes <- mapM (Pad_pad_boxes self) boxes ;;
              ret (self, Batch imgs (Some boxes))
          | None => ret (self, Batch imgs None)
          end
      | (Raise e, _) => lift (Raise e)
      end
  | Single imgs boxes =>
      match Pad_pad_img self imgs with
      | Ok (self, imgs) =>
          match boxes with
          | Some boxes =>
              boxes <- Pad_pad_boxes self boxes ;;
              ret (self, Single imgs (Some boxes))
          | None => ret (self, Single imgs None)
          end
      | Raise e => lift (Raise e)
      end
  end.

End Pad.

(** ** resize.py *)

Module Resize.
Record t : Type := {
  img_scale : Z * Z;
  keep_ratio : bool;
  scale_factor : option pyscalar
}.
End Resize.

Section Resize.
Context `{Rounding} `{MoreImageOps}.
Import Resize.

(** [n / m] on Python ints. *)
Definition py_truediv_int (n m : Z) : result R :=
  if m =? 0 then Raise ZeroDivisionError
  else Ok (rnd float64 (IZR n / IZR m)).

(** [min(x, y)] on Python floats: [y] when it is smaller, [x] otherwise. *)
Definition py_min (x y : R) : R := if Rlt_dec y x then y else x.

Definition Resize_init (img_scale : Z * Z) (keep_ratio : bool) : Resize.t :=
  {| img_scale := img_scale; keep_ratio := keep_ratio;
     scale_factor := None |}.

Definition Resize_resize_img (self : Resize.t) (img : image)
  : result (Resize.t * image) :=
  let '(tw, th) := img_scale self in
  let h := Z.of_nat (img_H img) in
  let w := Z.of_nat (img_W img) in
  if keep_ratio self then
    match py_truediv_int tw w with
    | Ok sw =>
        match py_truediv_int th h with
        | Ok sh =>
            let s := py_min sw sh in
            let ow := Ztrunc (py_mul s (of_int w)) in
            let oh := Ztrunc (py_mul s (of_int h)) in
            Ok ({| img_scale := img_scale self;
                   keep_ratio := keep_ratio self;
                   scale_factor := Some (PyFloat s) |},
                cv2_resize img (ow, oh) cv2.INTER_LINEAR)
        | Raise e => Raise e
        end
    | Raise e => Raise e
    end
  else
    Ok ({| img_scale := img_scale self; keep_ratio := keep_ratio self;
           scale_factor := Some (PyInt 1) |},
        cv2_resize img (tw, th) cv2.INTER_LINEAR).

(** [boxes * self.scale_factor]: a new array of the format of [boxes]. *)
Definition Resize_resize_boxes (self : Resize.t) (boxes : loc) : Py loc :=
  b <- load boxes ;;
  s <- lift (getattr (scale_factor self)) ;;
  alloc (mk_ndarray (dtype_of b) (ncols b)
           (map (map (fun v => fmul (dtype_of b) v (scalar (dtype_of b) s)))
              (rows b))).



End Resize.

(** ** LetterboxTransform.apply_image *)

Section LetterboxImage.
Context `{Rounding} `{MoreImageOps}.
Import LetterboxTransform.

(** The canvas is an array of floats that holds the 8-bit values of the
    resized image as they are; [np.ones] raises [ValueError] for a
    negative dimension. *)
Definition LetterboxTransform_apply_image (self : LetterboxTransform.t)
    (img : image) : result image :=
  let img_h := Z.of_nat (img_H img) in
  let img_w := Z.of_nat (img_W img) in
  let sw := Ztrunc (py_mul (scale self) (of_int img_w)) in
  let sh := Ztrunc (py_mul (scale self) (of_int img_h)) in
  let resized := cv2_resize img (sw, sh) cv2.INTER_LINEAR in
  let '(out_w, out_h) := target_size self in
  if (out_h <? 0) || (out_w <? 0) then Raise ValueError
  else
    let pad_img := full out_h out_w 3 114 in
    paste (Z.to_nat out_h) (Z.to_nat out_w) 3 pad_img
      (dy self, dy self + sh) (dx self, dx self + sw) resized.

End LetterboxImage.

(** ** Further notions for the statements *)

Section MoreNotions.
Context `{Rounding}.

(** The row of a box after the two statements of [flip_boxes]. *)
Definition flipped_row (d : dtype) (w : Z) (r : list R) : list R :=
  <[2%nat := fsub d (scalar d (PyInt w)) (nth 0 r 0%R)]>
    (<[0%nat := fsub d (scalar d (PyInt w)) (nth 2 r 0%R)]> r).

End MoreNotions.

(** ** Further sample inputs *)

(** The extent that maps the rectangle from [(10, 20)] to [(50, 40)] onto
    an image of height 100 and width 200. *)
Definition extent_sample : ExtentTransform.t :=
  {| ExtentTransform.src_rect := (10, 20, 50, 40)%R;
     ExtentTransform.output_size := (100, 200);
     ExtentTransform.interp := Image.LINEAR;
     ExtentTransform.fill := 0 |}.

(** The resize of a 50×25 image to 20×10, which can follow [halving]. *)
Definition shrinking_further : ResizeTransform.t :=
  {| ResizeTransform.h := 25; ResizeTransform.w := 50;
     ResizeTransform.new_h := 10; ResizeTransform.new_w := 20;
     ResizeTransform.interp := Image.BILINEAR |}.

(** The centre of a 6×4 image, two points, and one box given by its
    corners. *)
Definition centre_point : ndarray := mk_ndarray float64 2 [[3; 2]%R].
Definition two_points : ndarray := mk_ndarray float64 2 [[0; 0]; [3; 4]]%R.
Definition one_corner_box : ndarray :=
  mk_ndarray float64 4 [[10; 20; 30; 40]%R].

(** Shifts of the hue by 160 and by 360. *)
Definition hue_plus_160 : ColorDistortTransform.t :=
  {| ColorDistortTransform.alpha := None;
     ColorDistortTransform.beta := None;
     ColorDistortTransform.h_delta := Some 160;
     ColorDistortTransform.s_alpha := None |}.
Definition hue_plus_360 : ColorDistortTransform.t :=
  {| ColorDistortTransform.alpha := None;
     ColorDistortTransform.beta := None;
     ColorDistortTransform.h_delta := Some 360;
     ColorDistortTransform.s_alpha := None |}.

(** The cutout of the top left pixel. *)
Definition cutout_0011 : CutoutTransform.t :=
  {| CutoutTransform.region := (0, 0, 1, 1) |}.

(** An image of one row of two pixels of three channels, and an image of
    one pixel of four channels. *)
Definition two_pixels : image := [[[1; 2; 3]; [4; 5; 6]]].
Definition rgba_pixel : image := [[[1; 2; 3; 4]]].

(** Image operations for the examples: the flip reverses every row, the
    resize returns a black image of three channels of the size asked
    for. *)
Definition sample_image_ops : MoreImageOps :=
  {| cv2_flip := fun img _ => map (@rev (list Z)) img;
     cv2_resize := fun _ size _ => full size.2 size.1 3 0 |}.

(** A flip object that has seen an image 100 wide, a pad object for the
    target 4×3 before and after it has seen [two_pixels], and resize
    objects for the target 4×4. *)
Definition flip_seen_100 : RandomFlip.t :=
  {| RandomFlip.flip_ratio := 1 / 2; RandomFlip.w := Some 100 |}.

Definition pad_4x3 : Pad.t := Pad_init (4, 3) 0.
Definition pad_4x3_seen : Pad.t :=
  {| Pad.out_size := (4, 3); Pad.pad_val := 0;
     Pad.x := Some 1; Pad.y := Some 1 |}.

Definition resize_4x4 : Resize.t := Resize_init (4, 4) true.
Definition stretch_4x4 : Resize.t := Resize_init (4, 4) false.

(** The letterbox of scale 2 at the offset [(3, 4)] into a target that is
    5 wide. *)
Definition letterbox_narrow : LetterboxTransform.t :=
  {| LetterboxTransform.target_size := (5, 640);
     LetterboxTransform.scale := 2;
     LetterboxTransform.dx := 3;
     LetterboxTransform.dy := 4 |}.

(** * Part II: properties *)



(** ** Running statements on the store *)

Section Running.
Context `{Rounding}.

Lemma bind_run {A B} (m : Py A) (k : A -> Py B) (s s' : store) (a : A) :
  m s = (Ok a, s') -> bind m k s = k a s'.
Proof. intros Hm. unfold bind. now rewrite Hm. Qed.

Lemma bind_raise {A B} (m : Py A) (k : A -> Py B) (s s' : store) (e : exn) :
  m s = (Raise e, s') -> bind m k s = (Raise e, s').
Proof. intros Hm. unfold bind. now rewrite Hm. Qed.

Lemma load_run (s : store) (l : loc) (a : ndarray) :
  s !! l = Some a -> load l s = (Ok a, s).
Proof. intros Hl. unfold load. now rewrite Hl. Qed.

Lemma map_fmap {A B} (f : A -> B) (l : list A) : map f l = f <$> l.
Proof. reflexivity. Qed.

Lemma rowwise_id (a : ndarray) : rowwise (fun r => r) a = a.
Proof. destruct a as [d k rs]. unfold rowwise. simpl. now rewrite map_id. Qed.

Lemma getcol_rowwise (g : list R -> list R) (a : ndarray) (j : nat) :
  (j < ncols a)%nat ->
  getcol (rowwise g a) j = Ok (map (fun r => nth j (g r) 0%R) (rows a)).
Proof.
  intros Hj. unfold getcol. simpl.
  destruct (decide (j < ncols a)%nat) as [_ | Hn]; [| contradiction].
  now rewrite map_map.
Qed.

Lemma zip_with_map_map {A B C D} (f : B -> C -> D) (g : A -> B) (h : A -> C)
    (l : list A) :
  zip_with f (map g l) (map h l) = map (fun x => f (g x) (h x)) l.
Proof. induction l as [| x l IH]; simpl; [reflexivity | now rewrite IH]. Qed.

Lemma write_col_rowwise (s : store) (l : loc) (a : ndarray)
    (g : list R -> list R) (j : nat) (F : list R -> R) :
  s !! l = Some (rowwise g a) ->
  (j < ncols a)%nat ->
  write_col l j (map F (rows a)) s
  = (Ok tt, <[l := rowwise (fun r => <[j := F r]> (g r)) a]> s).
Proof.
  intros Hl Hj. unfold write_col.
  rewrite (bind_run _ _ _ _ _ (load_run _ _ _ Hl)).
  unfold lift, setcol, bind, nrows. simpl.
  destruct (decide (j < ncols a)%nat) as [_ | Hn]; [| contradiction].
  rewrite !length_map.
  destruct (decide (length (rows a) = length (rows a))) as [_ | Hn];
    [| contradiction].
  unfold save, rowwise. simpl. now rewrite zip_with_map_map.
Qed.

Lemma assign_col_rowwise (f : dtype -> R -> R) (s : store) (l : loc)
    (a : ndarray) (g : list R -> list R) (j : nat) :
  s !! l = Some (rowwise g a) ->
  (j < ncols a)%nat ->
  assign_col f l j s
  = (Ok tt,
     <[l := rowwise (fun r => <[j := f (dtype_of a) (nth j (g r) 0%R)]> (g r))
              a]> s).
Proof.
  intros Hl Hj. unfold assign_col.
  rewrite (bind_run _ _ _ _ _ (load_run _ _ _ Hl)).
  unfold lift at 1.
  rewrite (bind_run _ _ s s _ (f_equal (fun r => (r, s)) (getcol_rowwise g a j Hj))).
  rewrite map_map. simpl.
  now rewrite (write_col_rowwise s l a g j _ Hl Hj).
Qed.

Lemma update_col_rowwise (op : dtype -> R -> R -> R) (s : store) (l : loc)
    (a : ndarray) (g : list R -> list R) (j : nat) (c : pyscalar) :
  s !! l = Some (rowwise g a) ->
  (j < ncols a)%nat ->
  update_col op l j c s
  = (Ok tt,
     <[l := rowwise (fun r => <[j := op (dtype_of a) (nth j (g r) 0%R)
                                      (scalar (dtype_of a) c)]> (g r)) a]> s).
Proof.
  intros Hl Hj. unfold update_col.
  exact (assign_col_rowwise (fun d x => op d x (scalar d c)) s l a g j Hl Hj).
Qed.

Lemma update_col_with_rowwise (op : dtype -> R -> R -> R) (s : store)
    (l : loc) (a : ndarray) (g : list R -> list R) (j : nat)
    (F : list R -> R) :
  s !! l = Some (rowwise g a) ->
  (j < ncols a)%nat ->
  update_col_with op l j (map F (rows a)) s
  = (Ok tt,
     <[l := rowwise (fun r => <[j := op (dtype_of a) (nth j (g r) 0%R) (F r)]>
                                (g r)) a]> s).
Proof.
  intros Hl Hj. unfold update_col_with.
  rewrite (bind_run _ _ _ _ _ (load_run _ _ _ Hl)).
  unfold lift at 1.
  rewrite (bind_run _ _ s s _ (f_equal (fun r => (r, s)) (getcol_rowwise g a j Hj))).
  rewrite zip_with_map_map. simpl.
  now rewrite (write_col_rowwise s l a g j _ Hl Hj).
Qed.

End Running.


(** ** Accumulation of rounding errors *)

Section Near.
Context `{StandardModel}.
Local Open Scope R_scope.

Lemma one_plus_u_pos : 0 < 1 + u.
Proof. pose proof u_nonneg. lra. Qed.

Lemma pow_one_plus_u (n : nat) : 1 <= (1 + u) ^ n.
Proof. apply pow_R1_Rle. pose proof u_nonneg. lra. Qed.

Lemma inv_pow_bounds (n : nat) : 0 < / (1 + u) ^ n <= 1.
Proof.
  pose proof (pow_one_plus_u n) as Hp. split.
  - apply Rinv_0_lt_compat. lra.
  - apply Rle_trans with (/ 1); [| rewrite Rinv_1; lra].
    apply Rinv_le_contravar; lra.
Qed.

Lemma near_refl (x : R) : near u 0 x x.
Proof. exists 1. simpl. rewrite Rinv_1. split; [ring | lra]. Qed.

Lemma near_mono (n m : nat) (x y : R) :
  (n <= m)%nat -> near u n x y -> near u m x y.
Proof.
  intros Hnm (f & -> & Hlo & Hhi). exists f. split; [reflexivity |].
  assert (Hpow : (1 + u) ^ n <= (1 + u) ^ m).
  { apply Rle_pow; [pose proof u_nonneg; lra | exact Hnm]. }
  pose proof (pow_one_plus_u n) as Hn1. split; [| lra].
  apply Rle_trans with (/ (1 + u) ^ n); [| exact Hlo].
  apply Rinv_le_contravar; lra.
Qed.

Lemma near_mul (n m : nat) (a a' b b' : R) :
  near u n a a' -> near u m b b' -> near u (n + m) (a * b) (a' * b').
Proof.
  intros (f & -> & Hf) (g & -> & Hg). exists (f * g). split; [ring |].
  rewrite pow_add, Rinv_mult.
  pose proof (inv_pow_bounds n). pose proof (inv_pow_bounds m).
  pose proof (pow_one_plus_u n). pose proof (pow_one_plus_u m).
  split.
  - apply Rmult_le_compat; lra.
  - apply Rmult_le_compat; lra.
Qed.

Lemma near_inv (m : nat) (b b' : R) : near u m b b' -> near u m (/ b) (/ b').
Proof.
  intros (g & -> & Hlo & Hhi). exists (/ g). split; [apply Rinv_mult |].
  pose proof (inv_pow_bounds m) as [Hpos _].
  pose proof (pow_one_plus_u m) as Hp.
  assert (Hg : 0 < g) by lra.
  split.
  - apply Rinv_le_contravar; lra.
  - rewrite <- (Rinv_inv ((1 + u) ^ m)). apply Rinv_le_contravar; lra.
Qed.

Lemma near_div (n m : nat) (a a' b b' : R) :
  near u n a a' -> near u m b b' -> near u (n + m) (a / b) (a' / b').
Proof. intros Ha Hb. apply near_mul; [exact Ha | now apply near_inv]. Qed.

Lemma near_rnd (n : nat) (d : dtype) (x y : R) :
  near u n x y -> near u (S n) x (rnd d y).
Proof.
  intros (f & -> & Hf). destruct (rnd_factor d (x * f)) as (g & -> & Hg).
  replace (S n) with (n + 1)%nat by lia.
  rewrite <- (Rmult_1_r x) at 1.
  apply (near_mul n 1 x (x * f) 1 g).
  - exists f. split; [reflexivity | exact Hf].
  - exists g. split; [ring |]. simpl. rewrite Rmult_1_r. exact Hg.
Qed.

Lemma near_cast (n : nat) (from to : dtype) (x y : R) :
  near u n x y -> near u (S n) x (cast from to y).
Proof.
  intros Hxy. destruct from, to; simpl;
    try (apply near_mono with n; [lia | exact Hxy]).
  now apply near_rnd.
Qed.

Lemma near_error (n : nat) (x y : R) :
  near u n x y -> Rabs (y - x) <= ((1 + u) ^ n - 1) * Rabs x.
Proof.
  intros (f & -> & Hlo & Hhi).
  replace (x * f - x) with ((f - 1) * x) by ring.
  rewrite Rabs_mult. apply Rmult_le_compat_r; [apply Rabs_pos |].
  pose proof (pow_one_plus_u n) as Hp.
  pose proof (inv_pow_bounds n) as [Hpos Hle].
  assert (Hinv : (1 + u) ^ n * / (1 + u) ^ n = 1) by (apply Rinv_r; lra).
  apply Rabs_le. split; [| lra].
  assert (2 <= (1 + u) ^ n + / (1 + u) ^ n) by nra.
  lra.
Qed.

End Near.


(** ** ResizeTransform *)

Section ResizeFacts.
Context `{Rounding}.
Import ResizeTransform.

Lemma scale_factor_ok (new old : Z) :
  old <> 0 ->
  scale_factor new old
  = Ok (rnd float64 (py_mul (of_int new) 1 / of_int old)).
Proof.
  intros Hold. unfold scale_factor, py_div_int.
  destruct (Z.eqb_spec old 0) as [-> | _]; [contradiction | reflexivity].
Qed.

Lemma scale_col_rowwise (s : store) (l : loc) (a : ndarray)
    (g : list R -> list R) (j : nat) (new old : Z) (sf : R) :
  s !! l = Some (rowwise g a) ->
  (j < ncols a)%nat ->
  scale_factor new old = Ok sf ->
  scale_col l j new old s
  = (Ok tt,
     <[l := rowwise (fun r => <[j := fmul (dtype_of a) (nth j (g r) 0%R)
                                      (scalar (dtype_of a) (PyFloat sf))]>
                                (g r)) a]> s).
Proof.
  intros Hl Hj Hsf. unfold scale_col.
  rewrite (bind_run _ _ _ _ _ (load_run _ _ _ Hl)).
  unfold lift at 1.
  rewrite (bind_run _ _ s s _
             (f_equal (fun r => (r, s)) (getcol_rowwise g a j Hj))).
  unfold lift at 1.
  rewrite (bind_run _ _ s s _ (f_equal (fun r => (r, s)) Hsf)).
  rewrite map_map. simpl.
  now rewrite (write_col_rowwise s l a g j _ Hl Hj).
Qed.

(** What [apply_coords] makes of a row [(x, y)]. *)
Lemma rowwise_ext (g g' : list R -> list R) (a : ndarray) :
  Forall (fun r => g r = g' r) (rows a) -> rowwise g a = rowwise g' a.
Proof.
  intros Hall. unfold rowwise. f_equal.
  induction Hall as [| r rs Hr _ IH]; simpl; [reflexivity |].
  now rewrite Hr, IH.
Qed.

Lemma length_2_inv (r : list R) :
  length r = 2%nat -> r = [nth 0 r 0%R; nth 1 r 0%R].
Proof. destruct r as [| x [| y [| z r]]]; simpl; intros Hr; try lia. reflexivity. Qed.

Lemma ResizeTransform_apply_coords_run (self : ResizeTransform.t)
    (s : store) (coords : loc) (a : ndarray) (n : nat) (sx sy : R) :
  s !! coords = Some a ->
  has_shape a n 2 ->
  scale_factor (new_w self) (w self) = Ok sx ->
  scale_factor (new_h self) (h self) = Ok sy ->
  ResizeTransform_apply_coords self coords s
  = (Ok coords,
     <[coords := rowwise (fun r =>
                  [fmul (dtype_of a) (nth 0 r 0%R)
                     (scalar (dtype_of a) (PyFloat sx));
                   fmul (dtype_of a) (nth 1 r 0%R)
                     (scalar (dtype_of a) (PyFloat sy))]) a]> s).
Proof.
  intros Hl (Hn & Hk & Hrect) Hsx Hsy. unfold ResizeTransform_apply_coords.
  rewrite <- (rowwise_id a) in Hl.
  erewrite bind_run; [| apply (scale_col_rowwise s coords a _ 0 _ _ sx Hl);
                        [lia | exact Hsx]].
  erewrite bind_run;
    [| eapply (scale_col_rowwise _ coords a _ 1 _ _ sy);
       [apply lookup_insert_eq | lia | exact Hsy]].
  unfold ret. rewrite insert_insert_eq. do 2 f_equal.
  apply rowwise_ext. eapply Forall_impl; [exact Hrect |].
  intros r Hr. simpl in Hr. rewrite Hk in Hr.
  rewrite (length_2_inv r Hr). reflexivity.
Qed.

Lemma entry_rowwise (g : list R -> list R) (a : ndarray) (i j : nat) :
  entry (rowwise g a) i j = (rows a !! i) ≫= (fun r => g r !! j).
Proof.
  unfold entry, rowwise. simpl. rewrite map_fmap, list_lookup_fmap.
  now destruct (rows a !! i).
Qed.

Lemma has_shape_rowwise (g : list R -> list R) (a : ndarray) (n k : nat) :
  has_shape a n k ->
  (forall r, length r = k -> length (g r) = k) ->
  has_shape (rowwise g a) n k.
Proof.
  intros (Hn & Hk & Hrect) Hg. unfold has_shape, nrows, rectangular. simpl.
  rewrite length_map. repeat split; [exact Hn | exact Hk |].
  rewrite Forall_map. eapply Forall_impl; [exact Hrect |].
  intros r Hr. simpl in *. rewrite Hk in *. now apply Hg.
Qed.

End ResizeFacts.


Section ResizeRoundTrip.
Context `{StandardModel}.
Import ResizeTransform.

Lemma near_of_int (n : Z) : near u 1 (IZR n) (of_int n).
Proof. unfold of_int. apply near_rnd, near_refl. Qed.

Lemma near_scale_factor (new old : Z) (sf : R) :
  scale_factor new old = Ok sf -> near u 4 (IZR new / IZR old) sf.
Proof.
  unfold scale_factor, py_div_int. destruct (old =? 0); [discriminate |].
  intros [= <-]. apply near_rnd. apply (near_div 2 1).
  - unfold py_mul. apply near_rnd. rewrite Rmult_1_r. apply near_of_int.
  - apply near_of_int.
Qed.

Lemma near_scaled (n : nat) (d : dtype) (x x' : R) (new old : Z) (sf : R) :
  near u n x x' ->
  scale_factor new old = Ok sf ->
  near u (n + 6) (x * (IZR new / IZR old))
    (fmul d x' (scalar d (PyFloat sf))).
Proof.
  intros Hx Hsf. unfold fmul, scalar.
  replace (n + 6)%nat with (S (n + 5)) by lia. apply near_rnd.
  apply near_mul; [exact Hx |].
  apply near_cast. now apply near_scale_factor.
Qed.

(** C1. The inverse of a [ResizeTransform] with positive sizes is the
    [ResizeTransform] with the old and the new sizes exchanged and the same
    interpolation; and [apply_coords] followed by [apply_coords] of the
    inverse, both working in place on an N×2 array, leaves every
    coordinate within the relative error of twelve roundings of its value
    (no error at all in exact arithmetic). *)
Theorem ResizeTransform_inverse_round_trip (self : ResizeTransform.t) :
  0 < h self -> 0 < w self -> 0 < new_h self -> 0 < new_w self ->
  exists inv : ResizeTransform.t,
    ResizeTransform_inverse self = Ok (Resize inv)
    /\ h inv = new_h self /\ w inv = new_w self
    /\ new_h inv = h self /\ new_w inv = w self
    /\ interp inv = interp self
    /\ forall (s : store) (coords : loc) (a : ndarray) (n : nat),
         s !! coords = Some a ->
         has_shape a n 2 ->
         exists (s1 s2 : store) (a2 : ndarray),
           ResizeTransform_apply_coords self coords s = (Ok coords, s1)
           /\ ResizeTransform_apply_coords inv coords s1 = (Ok coords, s2)
           /\ s2 !! coords = Some a2
           /\ has_shape a2 n 2
           /\ dtype_of a2 = dtype_of a
           /\ forall (i j : nat) (x : R),
                entry a i j = Some x ->
                exists y : R,
                  entry a2 i j = Some y
                  /\ (Rabs (y - x) <= ((1 + u) ^ 12 - 1) * Rabs x)%R.
Proof.
  intros Hh Hw Hnh Hnw.
  exists (ResizeTransform_init (new_h self) (new_w self) (h self) (w self)
            (Some (interp self))).
  split; [reflexivity |]. simpl. do 5 (split; [reflexivity |]).
  intros s coords a n Hl Hshape.
  assert (Hsx := scale_factor_ok (new_w self) (w self) ltac:(lia)).
  assert (Hsy := scale_factor_ok (new_h self) (h self) ltac:(lia)).
  assert (Hix := scale_factor_ok (w self) (new_w self) ltac:(lia)).
  assert (Hiy := scale_factor_ok (h self) (new_h self) ltac:(lia)).
  set (sx := rnd float64 (py_mul (of_int (new_w self)) 1 / of_int (w self))) in *.
  set (sy := rnd float64 (py_mul (of_int (new_h self)) 1 / of_int (h self))) in *.
  set (ix := rnd float64 (py_mul (of_int (w self)) 1 / of_int (new_w self))) in *.
  set (iy := rnd float64 (py_mul (of_int (h self)) 1 / of_int (new_h self))) in *.
  pose proof (ResizeTransform_apply_coords_run self s coords a n sx sy
                Hl Hshape Hsx Hsy) as Hrun1.
  set (g1 := fun r : list R =>
               [fmul (dtype_of a) (nth 0 r 0%R) (scalar (dtype_of a) (PyFloat sx));
                fmul (dtype_of a) (nth 1 r 0%R) (scalar (dtype_of a) (PyFloat sy))])
    in *.
  assert (Hshape1 : has_shape (rowwise g1 a) n 2).
  { apply has_shape_rowwise; [exact Hshape | reflexivity]. }
  pose proof (ResizeTransform_apply_coords_run
                (ResizeTransform_init (new_h self) (new_w self) (h self)
                   (w self) (Some (interp self)))
                (<[coords := rowwise g1 a]> s) coords (rowwise g1 a) n ix iy
                (lookup_insert_eq _ _ _) Hshape1 Hix Hiy) as Hrun2.
  simpl dtype_of in Hrun2.
  set (g2 := fun r : list R =>
               [fmul (dtype_of a) (nth 0 r 0%R) (scalar (dtype_of a) (PyFloat ix));
                fmul (dtype_of a) (nth 1 r 0%R) (scalar (dtype_of a) (PyFloat iy))])
    in *.
  eexists _, _, (rowwise g2 (rowwise g1 a)).
  split; [exact Hrun1 |]. split; [exact Hrun2 |].
  split; [apply lookup_insert_eq |].
  split; [apply has_shape_rowwise; [exact Hshape1 | reflexivity] |].
  split; [reflexivity |].
  intros i j x Hx. rewrite entry_rowwise. simpl rows.
  rewrite map_fmap, list_lookup_fmap.
  unfold entry in Hx. destruct (rows a !! i) as [r |] eqn:Hr; [| discriminate].
  simpl in Hx |- *.
  destruct Hshape as (_ & Hk & Hrect).
  assert (Hlen : length r = 2%nat).
  { rewrite <- Hk. eapply (proj1 (Forall_lookup _ _) Hrect); exact Hr. }
  destruct r as [| x0 [| x1 [| x2 r]]]; simpl in Hlen; try lia.
  assert (Hwr : IZR (w self) <> 0%R) by (apply not_0_IZR; lia).
  assert (Hnwr : IZR (new_w self) <> 0%R) by (apply not_0_IZR; lia).
  assert (Hhr : IZR (h self) <> 0%R) by (apply not_0_IZR; lia).
  assert (Hnhr : IZR (new_h self) <> 0%R) by (apply not_0_IZR; lia).
  destruct j as [| [| j]]; simpl in Hx; [| | discriminate];
    injection Hx as <-; simpl; eexists; (split; [reflexivity |]);
    apply (near_error 12).
  - pose proof (near_scaled 0 (dtype_of a) _ _ _ _ sx
                  (near_refl x0) Hsx) as H1.
    pose proof (near_scaled _ (dtype_of a) _ _ _ _ ix H1 Hix) as H2.
    simpl in H2.
    replace (x0 * (IZR (new_w self) / IZR (w self))
             * (IZR (w self) / IZR (new_w self)))%R
      with x0 in H2 by (field; split; assumption).
    exact H2.
  - pose proof (near_scaled 0 (dtype_of a) _ _ _ _ sy
                  (near_refl x1) Hsy) as H1.
    pose proof (near_scaled _ (dtype_of a) _ _ _ _ iy H1 Hiy) as H2.
    simpl in H2.
    replace (x1 * (IZR (new_h self) / IZR (h self))
             * (IZR (h self) / IZR (new_h self)))%R
      with x1 in H2 by (field; split; assumption).
    exact H2.
Qed.

End ResizeRoundTrip.


(** ** In-place updates and copies *)

Section Aliasing.
Context `{Rounding}.

Lemma update_col_insert (op : dtype -> R -> R -> R) (s : store) (l : loc)
    (a : ndarray) (g : list R -> list R) (j : nat) (c : pyscalar) :
  (j < ncols a)%nat ->
  update_col op l j c (<[l := rowwise g a]> s)
  = (Ok tt,
     <[l := rowwise (fun r => <[j := op (dtype_of a) (nth j (g r) 0%R)
                                      (scalar (dtype_of a) c)]> (g r)) a]> s).
Proof.
  intros Hj.
  rewrite (update_col_rowwise op _ l a g j c (lookup_insert_eq _ _ _) Hj).
  now rewrite insert_insert_eq.
Qed.

Lemma astype_new_run (s : store) (l : loc) (a : ndarray) (d : dtype) :
  s !! l = Some a ->
  astype_new l d s
  = (Ok (fresh (dom s)),
     <[fresh (dom s) := rowwise (fun r => r) (astype a d)]> s).
Proof.
  intros Hl. unfold astype_new. rewrite rowwise_id.
  now rewrite (bind_run _ _ _ _ _ (load_run _ _ _ Hl)).
Qed.

Lemma fresh_unbound (s : store) : s !! fresh (dom s) = None.
Proof. apply not_elem_of_dom. apply is_fresh. Qed.

Lemma has_shape_astype (a : ndarray) (d : dtype) (n k : nat) :
  has_shape a n k -> has_shape (astype a d) n k.
Proof.
  intros (Hn & Hk & Hrect). unfold has_shape, nrows, rectangular, astype.
  simpl. rewrite length_map. repeat split; [exact Hn | exact Hk |].
  rewrite Forall_map. eapply Forall_impl; [exact Hrect |].
  intros r Hr. simpl. now rewrite length_map.
Qed.

End Aliasing.

(** Runs [m] when the head of the computation is [m ;;; k] or
    [x <- m ;; k], with the equation [E] for the run of [m]. *)
Ltac py_step E := erewrite bind_run; [| E].

Section AliasingClaim.
Context `{Rounding}.




End AliasingClaim.


Section AliasingTheorem.
Context `{Rounding}.


End AliasingTheorem.


(** ** Rotated boxes *)

Section RotatedBoxFacts.
Context `{Rounding}.

Lemma assign_col_insert (f : dtype -> R -> R) (s : store) (l : loc)
    (a : ndarray) (g : list R -> list R) (j : nat) :
  (j < ncols a)%nat ->
  assign_col f l j (<[l := rowwise g a]> s)
  = (Ok tt,
     <[l := rowwise (fun r => <[j := f (dtype_of a) (nth j (g r) 0%R)]> (g r))
              a]> s).
Proof.
  intros Hj.
  rewrite (assign_col_rowwise f _ l a g j (lookup_insert_eq _ _ _) Hj).
  now rewrite insert_insert_eq.
Qed.

Lemma update_col_with_insert (op : dtype -> R -> R -> R) (s : store)
    (l : loc) (a : ndarray) (g : list R -> list R) (j : nat)
    (F : list R -> R) :
  (j < ncols a)%nat ->
  update_col_with op l j (map F (rows a)) (<[l := rowwise g a]> s)
  = (Ok tt,
     <[l := rowwise (fun r => <[j := op (dtype_of a) (nth j (g r) 0%R) (F r)]>
                                (g r)) a]> s).
Proof.
  intros Hj.
  rewrite (update_col_with_rowwise op _ l a g j F (lookup_insert_eq _ _ _) Hj).
  now rewrite insert_insert_eq.
Qed.

Lemma write_col_insert (s : store) (l : loc) (a : ndarray)
    (g : list R -> list R) (j : nat) (F : list R -> R) :
  (j < ncols a)%nat ->
  write_col l j (map F (rows a)) (<[l := rowwise g a]> s)
  = (Ok tt, <[l := rowwise (fun r => <[j := F r]> (g r)) a]> s).
Proof.
  intros Hj.
  rewrite (write_col_rowwise _ l a g j F (lookup_insert_eq _ _ _) Hj).
  now rewrite insert_insert_eq.
Qed.

Lemma length_5_inv (r : list R) :
  length r = 5%nat ->
  exists cx cy w h ang, r = [cx; cy; w; h; ang].
Proof.
  destruct r as [| cx [| cy [| w [| h [| ang [| z r]]]]]]; simpl; intros Hr;
    try lia.
  now exists cx, cy, w, h, ang.
Qed.

Lemma HFlip_rotated_box_run (transform : HFlipTransform.t) (s : store)
    (rotated_boxes : loc) (a : ndarray) :
  s !! rotated_boxes = Some a ->
  ncols a = 5%nat ->
  HFlip_rotated_box transform rotated_boxes s
  = (Ok rotated_boxes,
     <[rotated_boxes :=
         rowwise (fun r =>
                    <[4%nat := (- nth 4 (<[0%nat := fsub (dtype_of a)
                                 (scalar (dtype_of a)
                                    (PyInt (HFlipTransform.width transform)))
                                 (nth 0 r 0%R)]> r) 0)%R]>
                      (<[0%nat := fsub (dtype_of a)
                                 (scalar (dtype_of a)
                                    (PyInt (HFlipTransform.width transform)))
                                 (nth 0 r 0%R)]> r)) a]> s).
Proof.
  intros Hl Hk. unfold HFlip_rotated_box.
  rewrite <- (rowwise_id a) in Hl.
  py_step ltac:(apply (assign_col_rowwise _ _ _ _ _ _ Hl); lia).
  py_step ltac:(apply assign_col_insert; lia).
  reflexivity.
Qed.

Lemma Resize_rotated_box_run (transform : ResizeTransform.t) (s : store)
    (rotated_boxes : loc) (a : ndarray) (sfx sfy : R) :
  s !! rotated_boxes = Some a ->
  ncols a = 5%nat ->
  scale_factor (ResizeTransform.new_w transform) (ResizeTransform.w transform)
  = Ok sfx ->
  scale_factor (ResizeTransform.new_h transform) (ResizeTransform.h transform)
  = Ok sfy ->
  exists g : list R -> list R,
    Resize_rotated_box transform rotated_boxes s
    = (Ok rotated_boxes, <[rotated_boxes := rowwise g a]> s)
    /\ forall cx cy bw bh ang : R,
         let d := dtype_of a in
         let sx := scalar d (PyFloat sfx) in
         let sy := scalar d (PyFloat sfy) in
         let theta := fdiv d (fmul d ang (scalar d (PyFloat np_pi)))
                        (scalar d (PyFloat 180)) in
         let c := np_cos d theta in
         let s := np_sin d theta in
         g [cx; cy; bw; bh; ang]
         = [fmul d cx sx;
            fmul d cy sy;
            fmul d bw (np_sqrt d (fadd d (np_square d (fmul d sx c))
                                    (np_square d (fmul d sy s))));
            fmul d bh (np_sqrt d (fadd d (np_square d (fmul d sx s))
                                    (np_square d (fmul d sy c))));
            fdiv d (fmul d (np_arctan2 d (fmul d sx s) (fmul d sy c))
                      (scalar d (PyInt 180)))
              (scalar d (PyFloat np_pi))].
Proof.
  intros Hl Hk Hsx Hsy. unfold Resize_rotated_box.
  unfold lift at 1. erewrite bind_run; [| rewrite Hsx; reflexivity].
  unfold lift at 1. erewrite bind_run; [| rewrite Hsy; reflexivity].
  rewrite <- (rowwise_id a) in Hl.
  py_step ltac:(apply (update_col_rowwise _ _ _ _ _ _ _ Hl); lia).
  py_step ltac:(apply update_col_insert; lia).
  py_step ltac:(apply load_run, lookup_insert_eq).
  unfold lift at 1.
  erewrite bind_run;
    [| rewrite getcol_rowwise by lia; reflexivity].
  simpl dtype_of.
  rewrite !map_map, !zip_with_map_map.
  py_step ltac:(apply update_col_with_insert; lia).
  py_step ltac:(apply update_col_with_insert; lia).
  py_step ltac:(apply write_col_insert; lia).
  eexists. split; [reflexivity |].
  intros cx cy bw bh ang. reflexivity.
Qed.

End RotatedBoxFacts.


Section RotatedBoxTheorems.
Context `{Rounding}.

Lemma rows_rowwise_lookup (g : list R -> list R) (a : ndarray) (i : nat)
    (r : list R) :
  rows a !! i = Some r -> rows (rowwise g a) !! i = Some (g r).
Proof.
  intros Hr. unfold rowwise. simpl.
  now rewrite map_fmap, list_lookup_fmap, Hr.
Qed.

(** C5. The handler registered for rotated boxes on [HFlipTransform] is
    [HFlip_rotated_box]; on an N×5 array it works in place and turns every
    box [(cx, cy, w, h, a)] into [(width - cx, cy, w, h, -a)], the
    subtraction being that of the array's format. With [width = 100], a box
    with [cx = 30] and angle [0] gets [cx = 70] and angle [0], when the
    format holds the small integers exactly. *)
Theorem HFlip_rotated_box_registered (transform : HFlipTransform.t)
    (s : store) (rotated_boxes : loc) (a : ndarray) (n : nat) :
  s !! rotated_boxes = Some a ->
  has_shape a n 5 ->
  HFlip_handlers registered !! "rotated_box" = Some HFlip_rotated_box
  /\ exists a' : ndarray,
       apply_registered (HFlip_handlers registered) "rotated_box" transform
         rotated_boxes s
       = (Ok rotated_boxes, <[rotated_boxes := a']> s)
       /\ has_shape a' n 5
       /\ (forall (i : nat) (cx cy w h ang : R),
             rows a !! i = Some [cx; cy; w; h; ang] ->
             rows a' !! i
             = Some [fsub (dtype_of a)
                       (scalar (dtype_of a)
                          (PyInt (HFlipTransform.width transform))) cx;
                     cy; w; h; (- ang)%R])
       /\ (SmallIntegersExact ->
           HFlipTransform.width transform = 100 ->
           forall (i : nat) (cy w h : R),
             rows a !! i = Some [30%R; cy; w; h; 0%R] ->
             rows a' !! i = Some [70%R; cy; w; h; 0%R]).
Proof.
  intros Hl Hshape.
  assert (Hreg : HFlip_handlers registered !! "rotated_box"
                 = Some HFlip_rotated_box) by apply lookup_insert_eq.
  split; [exact Hreg |].
  assert (Hk : ncols a = 5%nat) by apply Hshape.
  eexists. unfold apply_registered. rewrite Hreg.
  split; [apply (HFlip_rotated_box_run transform s rotated_boxes a Hl Hk) |].
  split.
  { apply has_shape_rowwise; [exact Hshape |].
    intros r Hr. now rewrite !length_insert. }
  split.
  - intros i cx cy w h ang Hr.
    now rewrite (rows_rowwise_lookup _ a i _ Hr).
  - intros Hexact Hwidth i cy w h Hr.
    rewrite (rows_rowwise_lookup _ a i _ Hr). simpl.
    rewrite Hwidth. unfold fsub.
    rewrite (rnd_small_integer (dtype_of a) 100) by (simpl; lia).
    replace (100 - 30)%R with 70%R by lra.
    rewrite (rnd_small_integer (dtype_of a) 70) by (simpl; lia).
    now rewrite Ropp_0.
Qed.

(** C6. The handler registered for rotated boxes on [ResizeTransform] is
    [Resize_rotated_box]. Its scale factors are [sx = new_w * 1.0 / w] and
    [sy = new_h * 1.0 / h] as floats: the quotients [new_w / w] and
    [new_h / h] up to four roundings under the standard model, and those
    quotients themselves when nothing is rounded. It works in place on an
    N×5 array and turns every box [(cx, cy, bw, bh, ang)], where [ang]
    degrees are [theta] radians, into the box with the centre
    [(cx * sx, cy * sy)], the width
    [bw * sqrt((sx * cos theta)² + (sy * sin theta)²)], the height
    [bh * sqrt((sx * sin theta)² + (sy * cos theta)²)] and the angle
    [atan2(sx * sin theta, sy * cos theta)] in degrees, every operation
    being that of the array's format. *)
Theorem Resize_rotated_box_registered (transform : ResizeTransform.t)
    (s : store) (rotated_boxes : loc) (a : ndarray) (n : nat) :
  ResizeTransform.w transform <> 0 ->
  ResizeTransform.h transform <> 0 ->
  s !! rotated_boxes = Some a ->
  has_shape a n 5 ->
  let sfx :=
    rnd float64
      (rnd float64 (rnd float64 (IZR (ResizeTransform.new_w transform)) * 1)
       / rnd float64 (IZR (ResizeTransform.w transform))) in
  let sfy :=
    rnd float64
      (rnd float64 (rnd float64 (IZR (ResizeTransform.new_h transform)) * 1)
       / rnd float64 (IZR (ResizeTransform.h transform))) in
  Resize_handlers registered !! "rotated_box" = Some Resize_rotated_box
  /\ (forall u : R,
        StandardModel u ->
        near u 4
          (IZR (ResizeTransform.new_w transform)
           / IZR (ResizeTransform.w transform)) sfx
        /\ near u 4
             (IZR (ResizeTransform.new_h transform)
              / IZR (ResizeTransform.h transform)) sfy)
  /\ ((forall d x, rnd d x = x) ->
      sfx = (IZR (ResizeTransform.new_w transform)
             / IZR (ResizeTransform.w transform))%R
      /\ sfy = (IZR (ResizeTransform.new_h transform)
                / IZR (ResizeTransform.h transform))%R)
  /\ exists a' : ndarray,
       apply_registered (Resize_handlers registered) "rotated_box"
         transform rotated_boxes s
       = (Ok rotated_boxes, <[rotated_boxes := a']> s)
       /\ has_shape a' n 5
       /\ forall (i : nat) (cx cy bw bh ang : R),
            rows a !! i = Some [cx; cy; bw; bh; ang] ->
            let d := dtype_of a in
            let sx := scalar d (PyFloat sfx) in
            let sy := scalar d (PyFloat sfy) in
            let theta := fdiv d (fmul d ang (scalar d (PyFloat np_pi)))
                           (scalar d (PyFloat 180)) in
            let c := np_cos d theta in
            let s := np_sin d theta in
            rows a' !! i
            = Some [fmul d cx sx;
                    fmul d cy sy;
                    fmul d bw
                      (np_sqrt d (fadd d (np_square d (fmul d sx c))
                                    (np_square d (fmul d sy s))));
                    fmul d bh
                      (np_sqrt d (fadd d (np_square d (fmul d sx s))
                                    (np_square d (fmul d sy c))));
                    fdiv d
                      (fmul d (np_arctan2 d (fmul d sx s) (fmul d sy c))
                         (scalar d (PyInt 180)))
                      (scalar d (PyFloat np_pi))].
Proof.
  intros Hw Hh Hl Hshape sfx sfy.
  assert (Hreg : Resize_handlers registered !! "rotated_box"
                 = Some Resize_rotated_box) by apply lookup_insert_eq.
  split; [exact Hreg |].
  assert (Hsfx : scale_factor (ResizeTransform.new_w transform)
                   (ResizeTransform.w transform) = Ok sfx)
    by apply (scale_factor_ok _ _ Hw).
  assert (Hsfy : scale_factor (ResizeTransform.new_h transform)
                   (ResizeTransform.h transform) = Ok sfy)
    by apply (scale_factor_ok _ _ Hh).
  split.
  { intros u Hu. split; now apply near_scale_factor. }
  split.
  { intros Hexact. unfold sfx, sfy. rewrite !Hexact.
    split; f_equal; ring. }
  assert (Hk : ncols a = 5%nat) by apply Hshape.
  destruct (Resize_rotated_box_run transform s rotated_boxes a _ _ Hl Hk
              Hsfx Hsfy)
    as (g & Hrun & Hg).
  exists (rowwise g a).
  unfold apply_registered. rewrite Hreg.
  split; [exact Hrun |].
  split.
  - apply has_shape_rowwise; [exact Hshape |].
    intros r Hr. destruct (length_5_inv r Hr) as (cx & cy & bw & bh & ang & ->).
    now rewrite Hg.
  - intros i cx cy bw bh ang Hr. cbv zeta.
    rewrite (rows_rowwise_lookup g a i _ Hr).
    specialize (Hg cx cy bw bh ang). cbv zeta in Hg. now rewrite Hg.
Qed.

End RotatedBoxTheorems.


(** ** PerspectiveTransform *)

Section PerspectiveFacts.
Context `{Rounding}.
Import PerspectiveTransform.

Lemma zip_with_replicate_map {A B C} (f : A -> B -> C) (n : nat) (x : A)
    (l : list B) :
  length l = n -> zip_with f (replicate n x) l = map (f x) l.
Proof.
  intros <-. induction l as [| y l IH]; simpl; [reflexivity | now rewrite IH].
Qed.

(** The homogeneous image of the point [(x, y)]: the products of the rows
    of [M] with [(x, y, 1)]. *)
Lemma PerspectiveTransform_apply_coords_run (self : PerspectiveTransform.t)
    (s : store) (coords : loc) (a : ndarray) (n : nat) :
  s !! coords = Some a ->
  has_shape a n 2 ->
  (0 < n)%nat ->
  exists b : ndarray,
    PerspectiveTransform_apply_coords self coords s
    = (Ok (fresh (dom s)), <[fresh (dom s) := b]> s)
    /\ dtype_of b = float64
    /\ has_shape b n 2
    /\ forall (i : nat) (x y : R),
         rows a !! i = Some [x; y] ->
         let '((m00, m01, m02), (m10, m11, m12), (m20, m21, m22)) := M self in
         let X := dot [x; y; 1%R] [m00; m01; m02] in
         let Y := dot [x; y; 1%R] [m10; m11; m12] in
         let W := dot [x; y; 1%R] [m20; m21; m22] in
         rows b !! i
         = Some (if perspective self
                 then [fdiv float64 X W; fdiv float64 Y W]
                 else [X; Y]).
Proof.
  intros Hl (Hn & Hk & Hrect) Hpos.
  unfold PerspectiveTransform_apply_coords.
  py_step ltac:(apply (load_run _ _ _ Hl)).
  unfold set_cols01. rewrite Hk.
  destruct (decide (2 = 2)%nat) as [_ | E]; [| contradiction].
  unfold lift at 1. erewrite bind_run; [| reflexivity].
  unfold matmul, transpose, mat33_array, nrows. simpl ncols. simpl rows.
  destruct (M self) as [[[[m00 m01] m02] [[m10 m11] m12]] [[m20 m21] m22]].
  simpl mat33_rows. simpl length. simpl seq. simpl map at 2.
  destruct (decide (3 = 3)%nat) as [_ | E]; [| contradiction].
  unfold lift at 1. erewrite bind_run; [| reflexivity].
  fold (nrows a). rewrite Hn.
  unfold reshape_rows.
  destruct (Nat.eqb_spec n 0) as [-> | _]; [lia |].
  destruct (perspective self).
  - unfold lift at 1. erewrite bind_run; [| reflexivity].
    unfold alloc. eexists. split; [reflexivity |].
    unfold cols, div_col. simpl dtype_of. simpl ncols. simpl rows.
    split; [reflexivity |].
    rewrite (zip_with_replicate_map _ n) by exact Hn.
    rewrite !map_map, zip_with_map_map.
    split.
    + unfold has_shape, nrows, rectangular. simpl.
      rewrite length_map. repeat split; [exact Hn |].
      rewrite Forall_map. eapply Forall_impl; [exact Hrect |].
      intros r Hr. simpl in Hr. rewrite Hk in Hr.
      destruct r as [| x [| y [| z r]]]; simpl in Hr; try lia.
      reflexivity.
    + intros i x y Hr. simpl.
      rewrite map_fmap, list_lookup_fmap, Hr.
      destruct (dtype_of a); reflexivity.
  - unfold lift at 1. erewrite bind_run; [| reflexivity].
    unfold alloc. eexists. split; [reflexivity |].
    unfold cols. simpl dtype_of. simpl ncols. simpl rows.
    split; [reflexivity |].
    rewrite (zip_with_replicate_map _ n) by exact Hn.
    rewrite !map_map.
    split.
    + unfold has_shape, nrows, rectangular. simpl.
      rewrite length_map. repeat split; [exact Hn |].
      rewrite Forall_map. eapply Forall_impl; [exact Hrect |].
      intros r Hr. simpl in Hr. rewrite Hk in Hr.
      destruct r as [| x [| y [| z r]]]; simpl in Hr; try lia.
      reflexivity.
    + intros i x y Hr. simpl.
      rewrite map_fmap, list_lookup_fmap, Hr.
      destruct (dtype_of a); reflexivity.
Qed.

(** On an array without rows the call raises. *)
Lemma PerspectiveTransform_apply_coords_empty (self : PerspectiveTransform.t)
    (s : store) (coords : loc) (a : ndarray) :
  s !! coords = Some a ->
  has_shape a 0 2 ->
  PerspectiveTransform_apply_coords self coords s = (Raise ValueError, s).
Proof.
  intros Hl (Hn & Hk & Hrect).
  unfold PerspectiveTransform_apply_coords.
  py_step ltac:(apply (load_run _ _ _ Hl)).
  unfold set_cols01. rewrite Hk.
  destruct (decide (2 = 2)%nat) as [_ | E]; [| contradiction].
  unfold lift at 1. erewrite bind_run; [| reflexivity].
  unfold matmul, transpose, mat33_array, nrows. simpl ncols. simpl rows.
  destruct (M self) as [[[[m00 m01] m02] [[m10 m11] m12]] [[m20 m21] m22]].
  simpl mat33_rows. simpl length.
  destruct (decide (3 = 3)%nat) as [_ | E]; [| contradiction].
  unfold lift at 1. erewrite bind_run; [| reflexivity].
  fold (nrows a). rewrite Hn. simpl reshape_rows.
  destruct (perspective self); reflexivity.
Qed.

End PerspectiveFacts.

Lemma has_shape_no_points : has_shape no_points 0 2.
Proof. repeat split. constructor. Qed.

(** C7 fails on the code. For the array of no points, [apply_coords] of
    the affine transform of the identity matrix raises [ValueError] at
    [reshape(n, -1)], where the array without rows and with two columns is
    due. *)
Theorem PerspectiveTransform_apply_coords_no_points :
  @PerspectiveTransform_apply_coords exact affine_identity 1%positive
    (store_of no_points)
  = (Raise ValueError, store_of no_points).
Proof.
  apply (PerspectiveTransform_apply_coords_empty _ _ 1%positive no_points).
  - apply lookup_singleton_eq.
  - exact has_shape_no_points.
Qed.


(** ** RotationTransform *)

Section RotationFacts.
Context `{Rounding} `{cv2.ImageOps}.
Import RotationTransform.

Lemma Ztrunc_IZR (k : Z) : Ztrunc (IZR k) = k.
Proof.
  unfold Ztrunc. destruct (Rlt_dec (IZR k) 0); [| apply ZfloorZ].
  unfold Zceil. rewrite ZfloorNZ. lia.
Qed.

Lemma py_mod_full_turns (x : R) (k : Z) :
  x = (360 * IZR k)%R -> py_mod x 360 = 0%R.
Proof.
  intros ->. unfold py_mod.
  assert (Hm : fmod (360 * IZR k) 360 = 0%R).
  { unfold fmod. replace (360 * IZR k / 360)%R with (IZR k) by (field; lra).
    rewrite Ztrunc_IZR. ring. }
  rewrite Hm. now destruct (Req_dec_T 0 0).
Qed.

Lemma angle_is_turn_true (self : RotationTransform.t) (k : Z) :
  angle self = (360 * IZR k)%R -> angle_is_turn self = true.
Proof.
  intros Hk. unfold angle_is_turn. apply bool_decide_eq_true.
  now apply (py_mod_full_turns _ k).
Qed.

Lemma astype_float64_rows (a : ndarray) :
  rows (astype a float64) = rows a.
Proof.
  unfold astype. simpl.
  rewrite <- (map_id (rows a)) at 2. apply map_ext. intros r.
  rewrite <- (map_id r) at 2. apply map_ext. intros x.
  now destruct (dtype_of a).
Qed.

Lemma asarray_same (s : store) (l : loc) (a : ndarray) (d : dtype) :
  s !! l = Some a -> dtype_of a = d -> asarray l d s = (Ok l, s).
Proof.
  intros Hl Hd. unfold asarray.
  rewrite (bind_run _ _ _ _ _ (load_run _ _ _ Hl)).
  now destruct (decide (dtype_of a = d)).
Qed.

Lemma asarray_other (s : store) (l : loc) (a : ndarray) (d : dtype) :
  s !! l = Some a ->
  dtype_of a <> d ->
  asarray l d s = (Ok (fresh (dom s)), <[fresh (dom s) := astype a d]> s).
Proof.
  intros Hl Hd. unfold asarray.
  rewrite (bind_run _ _ _ _ _ (load_run _ _ _ Hl)).
  now destruct (decide (dtype_of a = d)).
Qed.

(** C8. When the angle is a whole number of turns, [apply_image] returns
    the image it was given, whatever its shape, and [apply_coords] returns
    an array with the rows of the array it was given, which it leaves as
    it was. *)
Theorem RotationTransform_full_turn_identity (self : RotationTransform.t)
    (k : Z) :
  angle self = (360 * IZR k)%R ->
  (forall (img : image) (interp : option Z),
     RotationTransform_apply_image self img interp = Ok img)
  /\ (forall (s : store) (coords : loc) (a : ndarray),
        s !! coords = Some a ->
        exists (coords' : loc) (s' : store) (a' : ndarray),
          RotationTransform_apply_coords self coords s = (Ok coords', s')
          /\ s' !! coords' = Some a'
          /\ rows a' = rows a
          /\ ncols a' = ncols a
          /\ s' !! coords = Some a).
Proof.
  intros Hk. pose proof (angle_is_turn_true self k Hk) as Hturn. split.
  - intros img interp. unfold RotationTransform_apply_image.
    now rewrite Hturn, orb_true_r.
  - intros s coords a Hl. unfold RotationTransform_apply_coords.
    destruct (decide (dtype_of a = float64)) as [Hd | Hd].
    + py_step ltac:(apply (asarray_same _ _ _ _ Hl Hd)).
      py_step ltac:(apply (load_run _ _ _ Hl)).
      rewrite Hturn, orb_true_r.
      exists coords, s, a. repeat split; assumption.
    + py_step ltac:(apply (asarray_other _ _ _ _ Hl Hd)).
      py_step ltac:(apply load_run, lookup_insert_eq).
      rewrite Hturn, orb_true_r.
      exists (fresh (dom s)), (<[fresh (dom s) := astype a float64]> s),
        (astype a float64).
      split; [reflexivity |]. split; [apply lookup_insert_eq |].
      split; [apply astype_float64_rows |]. split; [reflexivity |].
      rewrite lookup_insert_ne; [exact Hl |].
      intros E. pose proof (fresh_unbound s) as Hf. rewrite E in Hf.
      congruence.
Qed.

Lemma centred_margins (b w : Z) :
  0 <= (b - w - (b - w) / 2) - (b - w) / 2 <= 1.
Proof.
  pose proof (Z.div_mod (b - w) 2 ltac:(lia)).
  pose proof (Z.mod_pos_bound (b - w) 2 ltac:(lia)).
  lia.
Qed.

(** C2. Without [expand] the call of [inverse] raises
    [NotImplementedError]. With [expand] it returns the list of two
    transforms: the rotation of the bounding canvas by the opposite angle,
    with [expand] and the same interpolation, and the crop of width [w]
    and height [h] whose offsets are half of what the rotated canvas has
    more than the original, so that the margins on opposite sides differ
    by at most one. *)
Theorem RotationTransform_inverse_expand (self : RotationTransform.t) :
  (expand self = false ->
   RotationTransform_inverse self = Raise NotImplementedError)
  /\ (expand self = true ->
      exists (rotation : RotationTransform.t) (crop : CropTransform.t),
        RotationTransform_inverse self
        = Ok (TransformList [Rotation rotation; Crop crop])
        /\ rotation
           = RotationTransform_init (bound_h self) (bound_w self)
               (- angle self) true None (Some (interp self))
        /\ angle rotation = (- angle self)%R
        /\ expand rotation = true
        /\ h rotation = bound_h self
        /\ w rotation = bound_w self
        /\ interp rotation = interp self
        /\ CropTransform.w crop = w self
        /\ CropTransform.h crop = h self
        /\ CropTransform.x0 crop = (bound_w rotation - w self) / 2
        /\ CropTransform.y0 crop = (bound_h rotation - h self) / 2
        /\ 0 <= (bound_w rotation - w self - CropTransform.x0 crop)
                - CropTransform.x0 crop <= 1
        /\ 0 <= (bound_h rotation - h self - CropTransform.y0 crop)
                - CropTransform.y0 crop <= 1).
Proof.
  split; intros He; unfold RotationTransform_inverse; rewrite He; simpl.
  - reflexivity.
  - eexists _, _. split; [reflexivity |].
    split; [reflexivity |].
    do 9 (split; [reflexivity |]).
    split; apply centred_margins.
Qed.

End RotationFacts.


(** ** Inverses that are no inverses *)



(** ** ColorDistortTransform *)

Section ColorDistortFacts.
Context `{Rounding} `{cv2.ImageOps}.
Import ColorDistortTransform.

Lemma channel_map_channel (k k' : nat) (f : Z -> Z) (img : image)
    (i j : nat) :
  channel (map_channel k f img) i j k'
  = if decide (k = k') then f <$> channel img i j k else channel img i j k'.
Proof.
  unfold channel, pixel, map_channel, image in *.
  rewrite map_fmap, list_lookup_fmap.
  destruct (img !! i) as [row |]; simpl; [| now destruct (decide (k = k'))].
  rewrite map_fmap, list_lookup_fmap.
  destruct (row !! j) as [px |]; simpl; [| now destruct (decide (k = k'))].
  apply list_lookup_alter.
Qed.

Lemma shift_hue_mod (d v : Z) : shift_hue d v = (v + d) mod 180.
Proof.
  unfold shift_hue, int_to_uint8.
  pose proof (Z.mod_pos_bound (v + d) 180 ltac:(lia)).
  apply Z.mod_small. lia.
Qed.

(** C4. With a hue shift [d], [apply_image] is the conversion back of an
    image in hue, saturation and value whose hue at every pixel is
    [(v + d) mod 180] for the hue [v] that the conversion of the adjusted
    input has there; the hue 170 shifted by 200 is 10. *)
Theorem ColorDistortTransform_hue_shift (self : ColorDistortTransform.t)
    (d : Z) (img : image) :
  h_delta self = Some d ->
  let hsv := cv2.cvtColor (distort_bgr self img) cv2.COLOR_BGR2HSV in
  let hsv' := distort_hsv self hsv in
  ColorDistortTransform_apply_image self img
  = cv2.cvtColor hsv' cv2.COLOR_HSV2BGR
  /\ (forall (i j : nat) (v : Z),
        channel hsv i j 0 = Some v ->
        channel hsv' i j 0 = Some ((v + d) mod 180))
  /\ (d = 200 ->
      forall i j : nat,
        channel hsv i j 0 = Some 170 -> channel hsv' i j 0 = Some 10).
Proof.
  intros Hd hsv hsv'.
  assert (Hhue : forall (i j : nat) (v : Z),
             channel hsv i j 0 = Some v ->
             channel hsv' i j 0 = Some ((v + d) mod 180)).
  { intros i j v Hv. unfold hsv', distort_hsv. rewrite Hd.
    destruct (s_alpha self) as [sa |].
    - rewrite channel_map_channel. simpl.
      rewrite channel_map_channel. simpl.
      now rewrite Hv, <- shift_hue_mod.
    - rewrite channel_map_channel. simpl.
      now rewrite Hv, <- shift_hue_mod. }
  split; [reflexivity |]. split; [exact Hhue |].
  intros -> i j Hv. now rewrite (Hhue i j 170 Hv).
Qed.

End ColorDistortFacts.

(** ** CutoutTransform *)

Section CutoutFacts.
Import CutoutTransform.

(** What [apply_image] makes of the pixel at [(i, j)]. *)
Lemma CutoutTransform_apply_image_pixel (self : CutoutTransform.t)
    (img : image) (i j : nat) :
  let '(x, y, w, h) := region self in
  let H := Z.of_nat (img_H img) in
  let W := Z.of_nat (img_W img) in
  pixel (CutoutTransform_apply_image self img) i j
  = (fun px => if in_slice H y (Z.min (H - 1) (y + h)) i
                  && in_slice W x (Z.min (W - 1) (x + w)) j
               then map (fun _ => 0) px else px) <$> pixel img i j.
Proof.
  destruct (region self) as [[[x y] w] h] eqn:Hreg.
  unfold CutoutTransform_apply_image, pixel, image in *. rewrite Hreg.
  rewrite list_lookup_imap.
  destruct (img !! i) as [row |]; simpl; [| reflexivity].
  destruct (in_slice _ y _ i); simpl.
  - rewrite list_lookup_imap. now destruct (row !! j).
  - now destruct (row !! j).
Qed.

(** [apply_coords] returns the array it was given and leaves the store as
    it was. *)
Lemma CutoutTransform_apply_coords_identity (self : CutoutTransform.t)
    (s : store) (coords : loc) :
  CutoutTransform_apply_coords self coords s = (Ok coords, s).
Proof. reflexivity. Qed.

(** C9 fails on the code. The region [(1, 1, 5, 5)] reaches beyond a 3×3
    image; clamped to the image it is the rows and columns 1 and 2, but
    [apply_image] clears the pixel at [(1, 1)] only and leaves the last row
    and the last column as they were. *)
Theorem CutoutTransform_apply_image_last_row_kept :
  CutoutTransform_apply_image cutout_1155 sevens
  = [[[7]; [7]; [7]];
     [[7]; [0]; [7]];
     [[7]; [7]; [7]]].
Proof. reflexivity. Qed.

End CutoutFacts.


(** ** The theorems at sample inputs *)

Lemma exact_standard_model : @StandardModel exact (/ 16777216).
Proof.
  split; [lra |]. intros d x. exists 1%R. simpl.
  split; [ring |]. split; [| lra].
  apply Rle_trans with (/ 1)%R; [| rewrite Rinv_1; lra].
  apply Rinv_le_contravar; lra.
Qed.

Lemma exact_small_integers : @SmallIntegersExact exact.
Proof. intros d z _. reflexivity. Qed.

Lemma has_shape_one_point : has_shape one_point 1 2.
Proof. repeat split. repeat constructor. Qed.

Lemma has_shape_one_box : has_shape one_box 1 5.
Proof. repeat split. repeat constructor. Qed.

Lemma store_of_lookup (a : ndarray) : store_of a !! 1%positive = Some a.
Proof. apply lookup_singleton_eq. Qed.

Lemma ResizeTransform_inverse_round_trip_witness :
  (0 < ResizeTransform.h halving /\ 0 < ResizeTransform.w halving
   /\ 0 < ResizeTransform.new_h halving /\ 0 < ResizeTransform.new_w halving)
  /\ exists inv : ResizeTransform.t,
       ResizeTransform_inverse halving = Ok (Resize inv)
       /\ ResizeTransform.new_w inv = 100
       /\ exists (s1 s2 : store) (a2 : ndarray),
            @ResizeTransform_apply_coords exact halving 1%positive
              (store_of one_point) = (Ok 1%positive, s1)
            /\ @ResizeTransform_apply_coords exact inv 1%positive s1
               = (Ok 1%positive, s2)
            /\ s2 !! 1%positive = Some a2
            /\ has_shape a2 1 2.
Proof.
  split; [repeat split |].
  destruct (@ResizeTransform_inverse_round_trip exact _ exact_standard_model
              halving ltac:(reflexivity) ltac:(reflexivity)
              ltac:(reflexivity) ltac:(reflexivity))
    as (inv & Hinv & _ & _ & _ & Hnw & _ & Hrun).
  exists inv. split; [exact Hinv |]. split; [exact Hnw |].
  destruct (Hrun (store_of one_point) 1%positive one_point 1%nat
              (store_of_lookup one_point) has_shape_one_point)
    as (s1 & s2 & a2 & H1 & H2 & H3 & H4 & _).
  now exists s1, s2, a2.
Defined.

Lemma RotationTransform_inverse_expand_witness :
  (RotationTransform.expand quarter_turn_cropped = false
   /\ RotationTransform.expand quarter_turn_expanded = true)
  /\ @RotationTransform_inverse exact quarter_turn_cropped
     = Raise NotImplementedError
  /\ exists (rotation : RotationTransform.t) (crop : CropTransform.t),
       @RotationTransform_inverse exact quarter_turn_expanded
       = Ok (TransformList [Rotation rotation; Crop crop])
       /\ RotationTransform.angle rotation = (- 90)%R
       /\ CropTransform.w crop = 6
       /\ CropTransform.h crop = 4.
Proof.
  split; [split; reflexivity |]. split.
  - exact (proj1 (@RotationTransform_inverse_expand exact quarter_turn_cropped)
             ltac:(reflexivity)).
  - destruct (proj2 (@RotationTransform_inverse_expand exact
                       quarter_turn_expanded) ltac:(reflexivity))
      as (rotation & crop & Hinv & _ & Hangle & _ & _ & _ & _ & Hw & Hh & _).
    exists rotation, crop. repeat split; assumption.
Defined.

Lemma ColorDistortTransform_hue_shift_witness :
  ColorDistortTransform.h_delta hue_plus_200 = Some 200
  /\ channel (@ColorDistortTransform_apply_image exact identity_image_ops
                hue_plus_200 [[[170; 5; 7]]]) 0 0 0 = Some 10.
Proof.
  split; [reflexivity |].
  destruct (@ColorDistortTransform_hue_shift exact identity_image_ops
              hue_plus_200 200 [[[170; 5; 7]]] ltac:(reflexivity))
    as (Himg & _ & Hhue).
  rewrite Himg. exact (Hhue ltac:(reflexivity) 0%nat 0%nat ltac:(reflexivity)).
Defined.

Lemma HFlip_rotated_box_registered_witness :
  (store_of one_box !! 1%positive = Some one_box /\ has_shape one_box 1 5)
  /\ exists a' : ndarray,
       @apply_registered HFlipTransform.t
         (HFlip_handlers (@registered exact)) "rotated_box" flip_100
         1%positive (store_of one_box)
       = (Ok 1%positive, <[1%positive := a']> (store_of one_box))
       /\ rows a' !! 0%nat = Some [70; 50; 20; 10; 0]%R.
Proof.
  split; [split; [apply store_of_lookup | exact has_shape_one_box] |].
  destruct (@HFlip_rotated_box_registered exact flip_100 (store_of one_box)
              1%positive one_box 1%nat (store_of_lookup one_box)
              has_shape_one_box)
    as (_ & a' & Hrun & _ & _ & Hbox).
  exists a'. split; [exact Hrun |].
  exact (Hbox exact_small_integers ltac:(reflexivity) 0%nat _ _ _
           ltac:(reflexivity)).
Defined.

Lemma Resize_rotated_box_registered_witness :
  (ResizeTransform.w halving <> 0 /\ ResizeTransform.h halving <> 0
   /\ store_of one_box !! 1%positive = Some one_box
   /\ has_shape one_box 1 5)
  /\ exists a' : ndarray,
       @apply_registered ResizeTransform.t
         (Resize_handlers (@registered exact)) "rotated_box" halving
         1%positive (store_of one_box)
       = (Ok 1%positive, <[1%positive := a']> (store_of one_box))
       /\ has_shape a' 1 5
       /\ rows a' !! 0%nat
          = Some [30 * (50 * 1 / 100);
                  50 * (25 * 1 / 50);
                  20 * sqrt (50 * 1 / 100 * cos (0 * PI / 180)
                             * (50 * 1 / 100 * cos (0 * PI / 180))
                             + 25 * 1 / 50 * sin (0 * PI / 180)
                               * (25 * 1 / 50 * sin (0 * PI / 180)));
                  10 * sqrt (50 * 1 / 100 * sin (0 * PI / 180)
                             * (50 * 1 / 100 * sin (0 * PI / 180))
                             + 25 * 1 / 50 * cos (0 * PI / 180)
                               * (25 * 1 / 50 * cos (0 * PI / 180)));
                  arctan2 (50 * 1 / 100 * sin (0 * PI / 180))
                    (25 * 1 / 50 * cos (0 * PI / 180)) * 180 / PI]%R.
Proof.
  assert (Hw : ResizeTransform.w halving <> 0) by (simpl; lia).
  assert (Hh : ResizeTransform.h halving <> 0) by (simpl; lia).
  split.
  { split; [exact Hw |]. split; [exact Hh |].
    split; [apply store_of_lookup | exact has_shape_one_box]. }
  destruct (@Resize_rotated_box_registered exact halving (store_of one_box)
              1%positive one_box 1%nat Hw Hh (store_of_lookup one_box)
              has_shape_one_box)
    as (_ & _ & _ & a' & Hrun & Hshape & Hrows).
  exists a'. split; [exact Hrun |]. split; [exact Hshape |].
  exact (Hrows 0%nat 30%R 50%R 20%R 10%R 0%R eq_refl).
Defined.

Lemma RotationTransform_full_turn_identity_witness :
  RotationTransform.angle two_turns = (360 * 2)%R
  /\ @RotationTransform_apply_image exact identity_image_ops two_turns
       sevens None
     = Ok sevens
  /\ exists (coords' : loc) (s' : store) (a' : ndarray),
       @RotationTransform_apply_coords exact two_turns 1%positive
         (store_of one_point)
       = (Ok coords', s')
       /\ s' !! coords' = Some a'
       /\ rows a' = [[20; 10]%R].
Proof.
  split; [reflexivity |].
  destruct (@RotationTransform_full_turn_identity exact identity_image_ops
              two_turns 2 ltac:(reflexivity)) as [Himg Hcoords].
  split; [apply Himg |].
  destruct (Hcoords (store_of one_point) 1%positive one_point
              (store_of_lookup one_point))
    as (coords' & s' & a' & Hrun & Hl' & Hrows & _).
  now exists coords', s', a'.
Defined.


(** * Part III: further properties *)

(** ** What the copying [apply_coords] compute *)

Section CopyingCoords.
Context `{Rounding}.

Lemma LetterboxTransform_apply_coords_rows (self : LetterboxTransform.t)
    (s : store) (coords : loc) (a : ndarray) :
  s !! coords = Some a ->
  (2 <= ncols a)%nat ->
  exists g : list R -> list R,
    LetterboxTransform_apply_coords self coords s
    = (Ok (fresh (dom s)),
       <[fresh (dom s) := rowwise g (astype a float32)]> s)
    /\ forall x y : R,
         g [x; y]
         = [fadd float32 (fmul float32 x
                            (scalar float32
                               (PyFloat (LetterboxTransform.scale self))))
              (scalar float32 (PyInt (LetterboxTransform.dx self)));
            fadd float32 (fmul float32 y
                            (scalar float32
                               (PyFloat (LetterboxTransform.scale self))))
              (scalar float32 (PyInt (LetterboxTransform.dy self)))].
Proof.
  intros Hl Hk. unfold LetterboxTransform_apply_coords.
  py_step ltac:(apply (astype_new_run s coords a float32 Hl)).
  do 4 (py_step ltac:(apply update_col_insert; simpl; lia)).
  eexists. split; [reflexivity |].
  intros x y. reflexivity.
Qed.

Lemma rows_astype_lookup (a : ndarray) (d : dtype) (i : nat) (r : list R) :
  rows a !! i = Some r ->
  rows (astype a d) !! i = Some (map (cast (dtype_of a) d) r).
Proof.
  intros Hr. unfold astype. simpl.
  now rewrite map_fmap, list_lookup_fmap, Hr.
Qed.

(** X1. [LetterboxTransform.apply_coords] leaves the caller's N×2 array as
    it is and returns a new float32 array in which the point [(x, y)],
    converted to float32, has become [(x * scale + dx, y * scale + dy)], the
    products and sums being those of float32. *)
Theorem LetterboxTransform_apply_coords_points (self : LetterboxTransform.t)
    (s : store) (coords : loc) (a : ndarray) (n : nat) :
  s !! coords = Some a ->
  has_shape a n 2 ->
  exists (new : loc) (b : ndarray),
    LetterboxTransform_apply_coords self coords s = (Ok new, <[new := b]> s)
    /\ s !! new = None
    /\ has_shape b n 2
    /\ forall (i : nat) (x y : R),
         rows a !! i = Some [x; y] ->
         let sc := scalar float32 (PyFloat (LetterboxTransform.scale self)) in
         let x32 := cast (dtype_of a) float32 x in
         let y32 := cast (dtype_of a) float32 y in
         rows b !! i
         = Some [fadd float32 (fmul float32 x32 sc)
                   (scalar float32 (PyInt (LetterboxTransform.dx self)));
                 fadd float32 (fmul float32 y32 sc)
                   (scalar float32 (PyInt (LetterboxTransform.dy self)))].
Proof.
  intros Hl Hshape.
  assert (Hk : (2 <= ncols a)%nat) by (destruct Hshape as (_ & -> & _); lia).
  destruct (LetterboxTransform_apply_coords_rows self s coords a Hl Hk)
    as (g & Hrun & Hg).
  eexists _, _. split; [exact Hrun |]. split; [apply fresh_unbound |].
  split.
  - apply has_shape_rowwise; [now apply has_shape_astype |].
    intros r Hr. destruct r as [| x [| y [| z r]]]; simpl in Hr; try lia.
    now rewrite Hg.
  - intros i x y Hr. cbv zeta.
    rewrite (rows_rowwise_lookup g _ i _ (rows_astype_lookup a float32 i _ Hr)).
    simpl map. now rewrite Hg.
Qed.

End CopyingCoords.

Lemma ExtentTransform_apply_coords_rows_exact (self : ExtentTransform.t)
    (s : store) (coords : loc) (a : ndarray) (x0 y0 x1 y1 : R) (h w : Z) :
  ExtentTransform.src_rect self = (x0, y0, x1, y1) ->
  ExtentTransform.output_size self = (h, w) ->
  x1 <> x0 -> y1 <> y0 ->
  s !! coords = Some a ->
  (2 <= ncols a)%nat ->
  exists g : list R -> list R,
    @ExtentTransform_apply_coords exact self coords s
    = (Ok (fresh (dom s)),
       <[fresh (dom s) := rowwise g (@astype exact a float32)]> s)
    /\ forall x y : R,
         g [x; y]
         = [((x - x0) * (IZR w / (x1 - x0)))%R;
            ((y - y0) * (IZR h / (y1 - y0)))%R].
Proof.
  intros Hrect Hsize Hx Hy Hl Hk. unfold ExtentTransform_apply_coords.
  rewrite Hrect, Hsize.
  py_step ltac:(apply (@astype_new_run exact s coords a float32 Hl)).
  do 2 (py_step ltac:(apply update_col_insert; simpl; lia)).
  unfold py_div.
  destruct (Req_dec_T (@py_sub exact x1 x0) 0) as [E | _].
  { exfalso. apply Hx. unfold py_sub in E. simpl in E. lra. }
  unfold lift at 1. erewrite bind_run; [| reflexivity].
  py_step ltac:(apply update_col_insert; simpl; lia).
  destruct (Req_dec_T (@py_sub exact y1 y0) 0) as [E | _].
  { exfalso. apply Hy. unfold py_sub in E. simpl in E. lra. }
  unfold lift at 1. erewrite bind_run; [| reflexivity].
  do 3 (py_step ltac:(apply update_col_insert; simpl; lia)).
  eexists. split; [reflexivity |].
  intros x y. simpl.
  unfold fadd, fmul, fsub, py_mul, py_add, py_sub, of_int. simpl.
  f_equal; [| f_equal]; field; lra.
Qed.

(** X2. In exact arithmetic [ExtentTransform.apply_coords] is the affine map
    that takes the source rectangle onto the output image: the point [(x,
    y)] becomes [((x - x0) * w / (x1 - x0), (y - y0) * h / (y1 - y0))], so
    that the corner [(x0, y0)] goes to [(0, 0)] and the corner [(x1, y1)] to
    [(w, h)]. *)
Theorem ExtentTransform_apply_coords_exact (self : ExtentTransform.t)
    (s : store) (coords : loc) (a : ndarray) (n : nat) (x0 y0 x1 y1 : R)
    (h w : Z) :
  ExtentTransform.src_rect self = (x0, y0, x1, y1) ->
  ExtentTransform.output_size self = (h, w) ->
  x1 <> x0 -> y1 <> y0 ->
  s !! coords = Some a ->
  has_shape a n 2 ->
  exists (new : loc) (b : ndarray),
    @ExtentTransform_apply_coords exact self coords s
    = (Ok new, <[new := b]> s)
    /\ has_shape b n 2
    /\ (forall (i : nat) (x y : R),
          rows a !! i = Some [x; y] ->
          rows b !! i = Some [((x - x0) * (IZR w / (x1 - x0)))%R;
                              ((y - y0) * (IZR h / (y1 - y0)))%R])
    /\ (forall i : nat,
          rows a !! i = Some [x0; y0] -> rows b !! i = Some [0%R; 0%R])
    /\ (forall i : nat,
          rows a !! i = Some [x1; y1] -> rows b !! i = Some [IZR w; IZR h]).
Proof.
  intros Hrect Hsize Hx Hy Hl Hshape.
  assert (Hk : (2 <= ncols a)%nat) by (destruct Hshape as (_ & -> & _); lia).
  destruct (ExtentTransform_apply_coords_rows_exact self s coords a
              x0 y0 x1 y1 h w Hrect Hsize Hx Hy Hl Hk) as (g & Hrun & Hg).
  assert (Hrows : forall (i : nat) (x y : R),
            rows a !! i = Some [x; y] ->
            rows (rowwise g (@astype exact a float32)) !! i
            = Some [((x - x0) * (IZR w / (x1 - x0)))%R;
                    ((y - y0) * (IZR h / (y1 - y0)))%R]).
  { intros i x y Hr.
    rewrite (rows_rowwise_lookup g _ i _
               (@rows_astype_lookup exact a float32 i _ Hr)).
    simpl map. rewrite <- Hg. do 3 f_equal; now destruct (dtype_of a). }
  eexists _, _. split; [exact Hrun |].
  split.
  { apply has_shape_rowwise; [now apply has_shape_astype |].
    intros r Hr. destruct r as [| x [| y [| z r]]]; simpl in Hr; try lia.
    now rewrite Hg. }
  split; [exact Hrows |]. split.
  - intros i Hr. rewrite (Hrows i x0 y0 Hr). do 2 f_equal; [| f_equal]; field; lra.
  - intros i Hr. rewrite (Hrows i x1 y1 Hr). do 2 f_equal; [| f_equal]; field; lra.
Qed.

(** ** Resizes in sequence *)

Section ResizeComposition.
Context `{StandardModel}.
Import ResizeTransform.

(** X3. Two resizes in a row, the second starting from the size that the
    first ends with, act on an N×2 array in place as the one resize from the
    first size to the last: every coordinate is within the relative error of
    twelve roundings of the coordinate scaled by the ratio of the last size
    to the first. *)
Theorem ResizeTransform_apply_coords_twice (t1 t2 : ResizeTransform.t)
    (s : store) (coords : loc) (a : ndarray) (n : nat) :
  0 < h t1 -> 0 < w t1 -> 0 < new_h t1 -> 0 < new_w t1 ->
  h t2 = new_h t1 -> w t2 = new_w t1 ->
  s !! coords = Some a ->
  has_shape a n 2 ->
  exists (s1 s2 : store) (a2 : ndarray),
    ResizeTransform_apply_coords t1 coords s = (Ok coords, s1)
    /\ ResizeTransform_apply_coords t2 coords s1 = (Ok coords, s2)
    /\ s2 !! coords = Some a2
    /\ has_shape a2 n 2
    /\ forall (i : nat) (x y : R),
         rows a !! i = Some [x; y] ->
         exists x' y' : R,
           rows a2 !! i = Some [x'; y']
           /\ (Rabs (x' - x * (IZR (new_w t2) / IZR (w t1)))
               <= ((1 + u) ^ 12 - 1)
                  * Rabs (x * (IZR (new_w t2) / IZR (w t1))))%R
           /\ (Rabs (y' - y * (IZR (new_h t2) / IZR (h t1)))
               <= ((1 + u) ^ 12 - 1)
                  * Rabs (y * (IZR (new_h t2) / IZR (h t1))))%R.
Proof.
  intros Hh Hw Hnh Hnw Hh2 Hw2 Hl Hshape.
  assert (Hsx := scale_factor_ok (new_w t1) (w t1) ltac:(lia)).
  assert (Hsy := scale_factor_ok (new_h t1) (h t1) ltac:(lia)).
  assert (Hix := scale_factor_ok (new_w t2) (w t2) ltac:(lia)).
  assert (Hiy := scale_factor_ok (new_h t2) (h t2) ltac:(lia)).
  pose proof (ResizeTransform_apply_coords_run t1 s coords a n _ _
                Hl Hshape Hsx Hsy) as Hrun1.
  match type of Hrun1 with
  | _ = (_, <[_ := rowwise ?g _]> _) => set (g1 := g) in *
  end.
  assert (Hshape1 : has_shape (rowwise g1 a) n 2).
  { apply has_shape_rowwise; [exact Hshape | reflexivity]. }
  pose proof (ResizeTransform_apply_coords_run t2
                (<[coords := rowwise g1 a]> s) coords (rowwise g1 a) n _ _
                (lookup_insert_eq _ _ _) Hshape1 Hix Hiy) as Hrun2.
  simpl dtype_of in Hrun2.
  match type of Hrun2 with
  | _ = (_, <[_ := rowwise ?g _]> _) => set (g2 := g) in *
  end.
  eexists _, _, (rowwise g2 (rowwise g1 a)).
  split; [exact Hrun1 |]. split; [exact Hrun2 |].
  split; [apply lookup_insert_eq |].
  split; [apply has_shape_rowwise; [exact Hshape1 | reflexivity] |].
  intros i x y Hr.
  rewrite (rows_rowwise_lookup g2 _ i _ (rows_rowwise_lookup g1 a i _ Hr)).
  eexists _, _. split; [reflexivity |].
  assert (Hwr : IZR (w t1) <> 0%R) by (apply not_0_IZR; lia).
  assert (Hhr : IZR (h t1) <> 0%R) by (apply not_0_IZR; lia).
  assert (Hw2r : IZR (w t2) <> 0%R) by (apply not_0_IZR; lia).
  assert (Hh2r : IZR (h t2) <> 0%R) by (apply not_0_IZR; lia).
  split; apply (near_error 12); simpl nth.
  - pose proof (near_scaled 0 (dtype_of a) _ _ _ _ _ (near_refl x) Hsx) as H1.
    pose proof (near_scaled _ (dtype_of a) _ _ _ _ _ H1 Hix) as H2.
    simpl in H2. rewrite <- Hw2 in H2 at 1.
    replace (x * (IZR (w t2) / IZR (w t1)) * (IZR (new_w t2) / IZR (w t2)))%R
      with (x * (IZR (new_w t2) / IZR (w t1)))%R in H2
      by (field; split; assumption).
    exact H2.
  - pose proof (near_scaled 0 (dtype_of a) _ _ _ _ _ (near_refl y) Hsy) as H1.
    pose proof (near_scaled _ (dtype_of a) _ _ _ _ _ H1 Hiy) as H2.
    simpl in H2. rewrite <- Hh2 in H2 at 1.
    replace (y * (IZR (h t2) / IZR (h t1)) * (IZR (new_h t2) / IZR (h t2)))%R
      with (y * (IZR (new_h t2) / IZR (h t1)))%R in H2
      by (field; split; assumption).
    exact H2.
Qed.

End ResizeComposition.

(** ** Rotated boxes in exact arithmetic *)

Lemma ndarray_eq (a b : ndarray) :
  dtype_of a = dtype_of b -> ncols a = ncols b -> rows a = rows b -> a = b.
Proof. destruct a, b. simpl. now intros -> -> ->. Qed.

Lemma rowwise_fixed (g : list R -> list R) (a : ndarray) :
  Forall (fun r => g r = r) (rows a) -> rowwise g a = a.
Proof.
  intros Hall. rewrite <- (rowwise_id a) at 2. now apply rowwise_ext.
Qed.

(** X4. In exact arithmetic the flip of rotated boxes undoes itself: the
    second call on the same N×5 array leaves the store as it was before the
    first. *)
Theorem HFlip_rotated_box_involution (transform : HFlipTransform.t)
    (s : store) (rotated_boxes : loc) (a : ndarray) (n : nat) :
  s !! rotated_boxes = Some a ->
  has_shape a n 5 ->
  exists s1 : store,
    @HFlip_rotated_box exact transform rotated_boxes s
    = (Ok rotated_boxes, s1)
    /\ @HFlip_rotated_box exact transform rotated_boxes s1
       = (Ok rotated_boxes, s).
Proof.
  intros Hl (Hn & Hk & Hrect).
  eexists. split;
    [apply (@HFlip_rotated_box_run exact transform s rotated_boxes a Hl Hk) |].
  erewrite (@HFlip_rotated_box_run exact transform _ rotated_boxes);
    [| apply lookup_insert_eq | exact Hk].
  f_equal. rewrite insert_insert_eq.
  rewrite <- (insert_id s rotated_boxes a Hl) at 2. f_equal.
  apply ndarray_eq; [reflexivity | reflexivity |]. simpl.
  rewrite map_map. rewrite <- (map_id (rows a)) at 2.
  apply map_ext_Forall. eapply Forall_impl; [exact Hrect |].
  intros r Hr. simpl in Hr. rewrite Hk in Hr.
  destruct (length_5_inv r Hr) as (cx & cy & w & h & ang & ->).
  simpl. unfold fsub. simpl. f_equal; [ring |]. do 3 f_equal. f_equal. ring.
Qed.

Lemma scalar_exact (d : dtype) (x : R) : @scalar exact d (PyFloat x) = x.
Proof. now destruct d. Qed.

Lemma Resize_rotated_box_run_exact (transform : ResizeTransform.t)
    (s : store) (rotated_boxes : loc) (a : ndarray) :
  ResizeTransform.w transform <> 0 ->
  ResizeTransform.h transform <> 0 ->
  s !! rotated_boxes = Some a ->
  ncols a = 5%nat ->
  exists g : list R -> list R,
    @Resize_rotated_box exact transform rotated_boxes s
    = (Ok rotated_boxes, <[rotated_boxes := rowwise g a]> s)
    /\ forall cx cy bw bh ang : R,
         let sx := (IZR (ResizeTransform.new_w transform)
                    / IZR (ResizeTransform.w transform))%R in
         let sy := (IZR (ResizeTransform.new_h transform)
                    / IZR (ResizeTransform.h transform))%R in
         let theta := (ang * PI / 180)%R in
         g [cx; cy; bw; bh; ang]
         = [(cx * sx)%R;
            (cy * sy)%R;
            (bw * sqrt (sx * cos theta * (sx * cos theta)
                        + sy * sin theta * (sy * sin theta)))%R;
            (bh * sqrt (sx * sin theta * (sx * sin theta)
                        + sy * cos theta * (sy * cos theta)))%R;
            (arctan2 (sx * sin theta) (sy * cos theta) * 180 / PI)%R].
Proof.
  intros Hw Hh Hl Hk.
  destruct (@Resize_rotated_box_run exact transform s rotated_boxes a _ _
              Hl Hk (scale_factor_ok _ _ Hw) (scale_factor_ok _ _ Hh))
    as (g & Hrun & Hg).
  exists g. split; [exact Hrun |].
  intros cx cy bw bh ang. cbv zeta. rewrite Hg. cbv zeta.
  rewrite !scalar_exact.
  unfold fmul, fdiv, fadd, np_sqrt, np_square, np_cos, np_sin, np_arctan2,
    np_pi, scalar, py_mul, of_int.
  simpl rnd.
  replace (IZR (ResizeTransform.new_w transform) * 1
           / IZR (ResizeTransform.w transform))%R
    with (IZR (ResizeTransform.new_w transform)
          / IZR (ResizeTransform.w transform))%R by (unfold Rdiv; ring).
  replace (IZR (ResizeTransform.new_h transform) * 1
           / IZR (ResizeTransform.h transform))%R
    with (IZR (ResizeTransform.new_h transform)
          / IZR (ResizeTransform.h transform))%R by (unfold Rdiv; ring).
  reflexivity.
Qed.

Lemma sqrt_scaled_circle (k theta : R) :
  (0 <= k)%R ->
  sqrt (k * cos theta * (k * cos theta) + k * sin theta * (k * sin theta)) = k.
Proof.
  intros Hk.
  replace (k * cos theta * (k * cos theta) + k * sin theta * (k * sin theta))%R
    with (k * k * (Rsqr (sin theta) + Rsqr (cos theta)))%R
    by (unfold Rsqr; ring).
  rewrite sin2_cos2, Rmult_1_r. now apply sqrt_square.
Qed.

Lemma arctan2_scaled_circle (k theta : R) :
  (0 < k)%R ->
  (- (PI / 2) < theta < PI / 2)%R ->
  arctan2 (k * sin theta) (k * cos theta) = theta.
Proof.
  intros Hk [Hlo Hhi].
  pose proof (cos_gt_0 theta Hlo Hhi) as Hc.
  unfold arctan2.
  destruct (Rlt_dec 0 (k * cos theta)) as [_ | Hn];
    [| exfalso; apply Hn; now apply Rmult_lt_0_compat].
  replace (k * sin theta / (k * cos theta))%R with (tan theta)
    by (unfold tan; field; split; lra).
  apply atan_tan. lra.
Qed.

(** X5. In exact arithmetic a resize that scales both dimensions by the same
    factor [k] scales the centre, the width and the height of every rotated
    box by [k], and it keeps the angle of a box that is turned by less than
    90 degrees in either direction. *)
Theorem Resize_rotated_box_uniform (transform : ResizeTransform.t)
    (s : store) (rotated_boxes : loc) (a : ndarray) (n : nat) :
  0 < ResizeTransform.w transform ->
  0 < ResizeTransform.h transform ->
  0 < ResizeTransform.new_w transform ->
  ResizeTransform.new_w transform * ResizeTransform.h transform
  = ResizeTransform.new_h transform * ResizeTransform.w transform ->
  s !! rotated_boxes = Some a ->
  has_shape a n 5 ->
  exists a' : ndarray,
    @Resize_rotated_box exact transform rotated_boxes s
    = (Ok rotated_boxes, <[rotated_boxes := a']> s)
    /\ forall (i : nat) (cx cy bw bh ang : R),
         rows a !! i = Some [cx; cy; bw; bh; ang] ->
         let k := (IZR (ResizeTransform.new_w transform)
                   / IZR (ResizeTransform.w transform))%R in
         exists ang' : R,
           rows a' !! i = Some [(cx * k)%R; (cy * k)%R; (bw * k)%R;
                                (bh * k)%R; ang']
           /\ ((-90 < ang < 90)%R -> ang' = ang).
Proof.
  intros Hw Hh Hnw Huni Hl Hshape.
  assert (Hk5 : ncols a = 5%nat) by apply Hshape.
  destruct (Resize_rotated_box_run_exact transform s rotated_boxes a
              ltac:(lia) ltac:(lia) Hl Hk5) as (g & Hrun & Hg).
  exists (rowwise g a). split; [exact Hrun |].
  intros i cx cy bw bh ang Hr k.
  rewrite (rows_rowwise_lookup g a i _ Hr).
  specialize (Hg cx cy bw bh ang). cbv zeta in Hg. rewrite Hg. clear Hg.
  assert (Hwr : (0 < IZR (ResizeTransform.w transform))%R)
    by (apply IZR_lt; lia).
  assert (Hhr : (0 < IZR (ResizeTransform.h transform))%R)
    by (apply IZR_lt; lia).
  assert (Hnwr : (0 < IZR (ResizeTransform.new_w transform))%R)
    by (apply IZR_lt; lia).
  assert (Hsy : (IZR (ResizeTransform.new_h transform)
                 / IZR (ResizeTransform.h transform))%R = k).
  { unfold k. apply (f_equal IZR) in Huni. rewrite !mult_IZR in Huni.
    field_simplify_eq; [lra | lra]. }
  rewrite Hsy. fold k.
  assert (Hkpos : (0 < k)%R) by (unfold k; now apply Rdiv_lt_0_compat).
  rewrite sqrt_scaled_circle by lra.
  replace (k * sin (ang * PI / 180) * (k * sin (ang * PI / 180))
           + k * cos (ang * PI / 180) * (k * cos (ang * PI / 180)))%R
    with (k * cos (ang * PI / 180) * (k * cos (ang * PI / 180))
          + k * sin (ang * PI / 180) * (k * sin (ang * PI / 180)))%R
    by ring.
  rewrite sqrt_scaled_circle by lra.
  eexists. split; [reflexivity |].
  intros [Hlo Hhi]. pose proof PI_RGT_0 as Hpi.
  rewrite arctan2_scaled_circle; [field; lra | exact Hkpos |].
  split; nra.
Qed.

(** X6. In exact arithmetic a resize with positive sizes scales a rotated
    box of angle 0 as the box with its sides along the axes that it is: the
    centre and the sides by the factors of their directions, and the angle
    stays 0. *)
Theorem Resize_rotated_box_axis_aligned (transform : ResizeTransform.t)
    (s : store) (rotated_boxes : loc) (a : ndarray) (n : nat) :
  0 < ResizeTransform.w transform ->
  0 < ResizeTransform.h transform ->
  0 < ResizeTransform.new_w transform ->
  0 < ResizeTransform.new_h transform ->
  s !! rotated_boxes = Some a ->
  has_shape a n 5 ->
  exists a' : ndarray,
    @Resize_rotated_box exact transform rotated_boxes s
    = (Ok rotated_boxes, <[rotated_boxes := a']> s)
    /\ forall (i : nat) (cx cy bw bh : R),
         rows a !! i = Some [cx; cy; bw; bh; 0%R] ->
         let sx := (IZR (ResizeTransform.new_w transform)
                    / IZR (ResizeTransform.w transform))%R in
         let sy := (IZR (ResizeTransform.new_h transform)
                    / IZR (ResizeTransform.h transform))%R in
         rows a' !! i = Some [(cx * sx)%R; (cy * sy)%R; (bw * sx)%R;
                              (bh * sy)%R; 0%R].
Proof.
  intros Hw Hh Hnw Hnh Hl Hshape.
  assert (Hk5 : ncols a = 5%nat) by apply Hshape.
  destruct (Resize_rotated_box_run_exact transform s rotated_boxes a
              ltac:(lia) ltac:(lia) Hl Hk5) as (g & Hrun & Hg).
  exists (rowwise g a). split; [exact Hrun |].
  intros i cx cy bw bh Hr sx sy.
  rewrite (rows_rowwise_lookup g a i _ Hr).
  specialize (Hg cx cy bw bh 0%R). cbv zeta in Hg. rewrite Hg. clear Hg.
  fold sx. fold sy.
  assert (Hsx : (0 < sx)%R).
  { unfold sx. apply Rdiv_lt_0_compat; apply IZR_lt; lia. }
  assert (Hsy : (0 < sy)%R).
  { unfold sy. apply Rdiv_lt_0_compat; apply IZR_lt; lia. }
  replace (0 * PI / 180)%R with 0%R by (unfold Rdiv; ring).
  rewrite cos_0, sin_0.
  replace (sx * 1 * (sx * 1) + sy * 0 * (sy * 0))%R with (sx * sx)%R by ring.
  replace (sx * 0 * (sx * 0) + sy * 1 * (sy * 1))%R with (sy * sy)%R by ring.
  rewrite !sqrt_square by lra.
  unfold arctan2.
  destruct (Rlt_dec 0 (sy * 1)) as [_ | Hn]; [| exfalso; apply Hn; lra].
  replace (sx * 0 / (sy * 1))%R with 0%R by (field; lra).
  rewrite atan_0.
  replace (0 * 180 / PI)%R with 0%R by (unfold Rdiv; ring).
  reflexivity.
Qed.

(** ** Rotations that turn *)

Section RotationRun.
Context `{Rounding}.
Import RotationTransform.

(** The image of a row [(x, y)] under a 2×3 matrix. *)
Lemma RotationTransform_apply_coords_run (self : RotationTransform.t)
    (s : store) (coords : loc) (a : ndarray) (n : nat) :
  angle_is_turn self = false ->
  s !! coords = Some a ->
  has_shape a n 2 ->
  (0 < n)%nat ->
  exists (new : loc) (s' : store) (b : ndarray),
    RotationTransform_apply_coords self coords s = (Ok new, s')
    /\ s !! new = None
    /\ s' !! new = Some b
    /\ s' !! coords = Some a
    /\ has_shape b n 2
    /\ forall (i : nat) (x y : R),
         rows a !! i = Some [x; y] ->
         rows b !! i
         = Some [(cv2.transform_point (rm_coords self) (x, y)).1;
                 (cv2.transform_point (rm_coords self) (x, y)).2].
Proof.
  intros Hturn Hl (Hn & Hk & Hrect) Hpos.
  unfold RotationTransform_apply_coords.
  assert (Hne : fresh (dom s) <> coords).
  { intros E. pose proof (fresh_unbound s) as Hf. rewrite E in Hf. congruence. }
  assert (Hrows : forall (d : dtype) (rs : list (list R)) (i : nat) (x y : R),
            rs !! i = Some [x; y] ->
            map (fun r : list R =>
                   let '(x, y) := cv2.transform_point (rm_coords self)
                                    (nth 0 r 0%R, nth 1 r 0%R)
                   in [x; y]) rs !! i
            = Some [(cv2.transform_point (rm_coords self) (x, y)).1;
                    (cv2.transform_point (rm_coords self) (x, y)).2]).
  { intros d rs i x y Hr. rewrite map_fmap, list_lookup_fmap, Hr. simpl.
    now destruct (cv2.transform_point (rm_coords self) (x, y)). }
  assert (Hshape : forall (d : dtype) (rs : list (list R)),
            length rs = n ->
            has_shape
              (mk_ndarray d 2
                 (map (fun r : list R =>
                         let '(x, y) := cv2.transform_point (rm_coords self)
                                          (nth 0 r 0%R, nth 1 r 0%R)
                         in [x; y]) rs)) n 2).
  { intros d rs Hlen. unfold has_shape, nrows, rectangular. simpl.
    rewrite length_map. repeat split; [exact Hlen |].
    rewrite Forall_map. apply Forall_forall. intros r _.
    now destruct (cv2.transform_point _ _). }
  destruct (decide (dtype_of a = float64)) as [Hd | Hd].
  - py_step ltac:(apply (asarray_same _ _ _ _ Hl Hd)).
    py_step ltac:(apply (load_run _ _ _ Hl)).
    rewrite Hturn. fold (nrows a). unfold nrows in Hn |- *. rewrite Hn.
    destruct (Nat.eqb_spec n 0) as [-> | _]; [lia |]. change (false || false) with false. cbv iota.
    unfold cv2.transform. rewrite Hk.
    destruct (decide (2 = 2)%nat) as [_ | E]; [| contradiction].
    unfold lift at 1. erewrite bind_run; [| reflexivity].
    unfold alloc. eexists _, _, _. split; [reflexivity |].
    split; [apply fresh_unbound |].
    split; [apply lookup_insert_eq |].
    split; [now rewrite lookup_insert_ne |].
    split; [now apply Hshape |].
    intros i x y Hr. simpl rows. now apply (Hrows float64).
  - py_step ltac:(apply (asarray_other _ _ _ _ Hl Hd)).
    py_step ltac:(apply load_run, lookup_insert_eq).
    rewrite Hturn.
    assert (Hn' : nrows (astype a float64) = n).
    { unfold nrows, astype. simpl. now rewrite length_map. }
    rewrite Hn'.
    destruct (Nat.eqb_spec n 0) as [-> | _]; [lia |]. change (false || false) with false. cbv iota.
    unfold cv2.transform.
    change (ncols (astype a float64)) with (ncols a). rewrite Hk.
    destruct (decide (2 = 2)%nat) as [_ | E]; [| contradiction].
    unfold lift at 1. erewrite bind_run; [| reflexivity].
    unfold alloc.
    remember (<[fresh (dom s) := astype a float64]> s) as s1 eqn:Hs1.
    assert (Hl1 : s1 !! coords = Some a).
    { rewrite Hs1. now rewrite lookup_insert_ne. }
    assert (Hne1 : fresh (dom s1) <> coords).
    { intros E. pose proof (fresh_unbound s1) as Hf. rewrite E in Hf.
      congruence. }
    assert (Hs : s !! fresh (dom s1) = None).
    { destruct (s !! fresh (dom s1)) as [c |] eqn:Hc; [| reflexivity].
      exfalso.
      assert (Hin : is_Some (s1 !! fresh (dom s1))).
      { destruct (decide (fresh (dom s) = fresh (dom s1))) as [E | E].
        - rewrite <- E. rewrite Hs1 at 1. rewrite lookup_insert_eq. eauto.
        - rewrite Hs1 at 2. rewrite lookup_insert_ne by exact E.
          rewrite Hc. eauto. }
      rewrite fresh_unbound in Hin. now destruct Hin. }
    eexists _, _, _. split; [reflexivity |].
    split; [exact Hs |].
    split; [apply lookup_insert_eq |].
    split.
    { now rewrite lookup_insert_ne. }
    split; [apply Hshape; exact Hn' |].
    intros i x y Hr. simpl rows. apply (Hrows float64).
    rewrite map_fmap, list_lookup_fmap, Hr. simpl.
    now destruct (dtype_of a).
Qed.

End RotationRun.

(** When Python's [x % 360] is zero, [x] is a whole number of turns. *)
Lemma py_mod_zero_full_turns (x : R) :
  @py_mod exact x 360 = 0%R -> exists k : Z, x = (360 * IZR k)%R.
Proof.
  unfold py_mod, fmod.
  set (T := Ztrunc (x / 360)).
  destruct (Req_dec_T (x - 360 * IZR T) 0) as [E | Hm].
  - intros _. exists T. lra.
  - destruct (Rlt_dec 360 0) as [Hneg | _]; [lra |].
    destruct (Rlt_dec (x - 360 * IZR T) 0) as [_ | _].
    + simpl. intros E. exists (T - 1). rewrite minus_IZR. lra.
    + intros E. contradiction.
Qed.

Lemma angle_is_turn_false (self : RotationTransform.t) :
  (forall k : Z, RotationTransform.angle self <> (360 * IZR k)%R) ->
  @angle_is_turn exact self = false.
Proof.
  intros Hk. unfold angle_is_turn. apply bool_decide_eq_false.
  intros E. destruct (py_mod_zero_full_turns _ E) as [k Ek].
  exact (Hk k Ek).
Qed.

Section RotationExact.
Import RotationTransform.

(** The matrix for the coordinates that [__init__] computes in exact
    arithmetic: the rotation by the angle, followed by a shift. *)
Lemma rm_coords_exact (h w : Z) (angle : R) (expand : bool)
    (center : option (R * R)) (interp : option Z) :
  let self := @RotationTransform_init exact h w angle expand center interp in
  let alpha := cos (angle * PI / 180) in
  let beta := sin (angle * PI / 180) in
  let c := RotationTransform.center self in
  exists tx ty : R,
    rm_coords self = ((alpha, beta, tx), ((- beta)%R, alpha, ty))
    /\ (expand = false ->
        tx = ((1 - alpha) * c.1 - beta * c.2)%R
        /\ ty = (beta * c.1 + (1 - alpha) * c.2)%R)
    /\ (expand = true ->
        (alpha * (IZR w / 2) + beta * (IZR h / 2) + tx
         = IZR (bound_w self) / 2)%R
        /\ (- beta * (IZR w / 2) + alpha * (IZR h / 2) + ty
            = IZR (bound_h self) / 2)%R).
Proof.
  intros self alpha beta c.
  destruct expand.
  - unfold self, RotationTransform_init. simpl.
    unfold create_rotation_matrix, cv2.getRotationMatrix2D,
      cv2.transform_point, py_add, py_sub, py_truediv.
    simpl.
    replace (1 * cos (angle * PI / 180))%R with alpha by (unfold alpha; ring).
    replace (1 * sin (angle * PI / 180))%R with beta by (unfold beta; ring).
    eexists _, _. split; [reflexivity |].
    split; [discriminate |]. intros _. split; ring.
  - unfold self, RotationTransform_init. simpl.
    unfold create_rotation_matrix, cv2.getRotationMatrix2D, py_add.
    simpl.
    replace (1 * cos (angle * PI / 180))%R with alpha by (unfold alpha; ring).
    replace (1 * sin (angle * PI / 180))%R with beta by (unfold beta; ring).
    eexists _, _. split; [reflexivity |].
    split; [| discriminate]. intros _.
    unfold c, self, RotationTransform_init. simpl.
    split; ring.
Qed.

End RotationExact.

Section RotationTheorems.
Import RotationTransform.

(** X7. In exact arithmetic, when the angle is no whole number of turns, a
    rotation with [expand] takes the centre of the image to the centre of
    the canvas that bounds the rotated image, wherever the [center] argument
    is. *)
Theorem RotationTransform_centre_to_canvas_centre (h w : Z) (angle : R)
    (center : option (R * R)) (interp : option Z) (s : store)
    (coords : loc) (a : ndarray) (n : nat) :
  let self := @RotationTransform_init exact h w angle true center interp in
  (forall k : Z, angle <> (360 * IZR k)%R) ->
  s !! coords = Some a ->
  has_shape a n 2 ->
  (0 < n)%nat ->
  exists (new : loc) (s' : store) (b : ndarray),
    @RotationTransform_apply_coords exact self coords s = (Ok new, s')
    /\ s' !! new = Some b
    /\ forall i : nat,
         rows a !! i = Some [(IZR w / 2)%R; (IZR h / 2)%R] ->
         rows b !! i = Some [(IZR (bound_w self) / 2)%R;
                             (IZR (bound_h self) / 2)%R].
Proof.
  intros self Hangle Hl Hshape Hn.
  destruct (@RotationTransform_apply_coords_run exact self s coords a n
              (angle_is_turn_false self Hangle) Hl Hshape Hn)
    as (new & s' & b & Hrun & _ & Hb & _ & _ & Hrows).
  exists new, s', b. split; [exact Hrun |]. split; [exact Hb |].
  intros i Hi. rewrite (Hrows i _ _ Hi).
  destruct (rm_coords_exact h w angle true center interp)
    as (tx & ty & Hrm & _ & Hcentre).
  fold self in Hrm, Hcentre. rewrite Hrm.
  destruct (Hcentre eq_refl) as [Hx Hy].
  unfold cv2.transform_point. simpl. now rewrite Hx, Hy.
Qed.

(** X8. In exact arithmetic, when the angle is no whole number of turns, a
    rotation without [expand] leaves its centre where it is. *)
Theorem RotationTransform_centre_fixed (h w : Z) (angle : R)
    (center : option (R * R)) (interp : option Z) (s : store)
    (coords : loc) (a : ndarray) (n : nat) :
  let self := @RotationTransform_init exact h w angle false center interp in
  (forall k : Z, angle <> (360 * IZR k)%R) ->
  s !! coords = Some a ->
  has_shape a n 2 ->
  (0 < n)%nat ->
  exists (new : loc) (s' : store) (b : ndarray),
    @RotationTransform_apply_coords exact self coords s = (Ok new, s')
    /\ s' !! new = Some b
    /\ forall i : nat,
         rows a !! i = Some [(RotationTransform.center self).1;
                             (RotationTransform.center self).2] ->
         rows b !! i = Some [(RotationTransform.center self).1;
                             (RotationTransform.center self).2].
Proof.
  intros self Hangle Hl Hshape Hn.
  destruct (@RotationTransform_apply_coords_run exact self s coords a n
              (angle_is_turn_false self Hangle) Hl Hshape Hn)
    as (new & s' & b & Hrun & _ & Hb & _ & _ & Hrows).
  exists new, s', b. split; [exact Hrun |]. split; [exact Hb |].
  intros i Hi. rewrite (Hrows i _ _ Hi).
  destruct (rm_coords_exact h w angle false center interp)
    as (tx & ty & Hrm & Hfixed & _).
  fold self in Hrm, Hfixed. rewrite Hrm.
  destruct (Hfixed eq_refl) as [-> ->].
  unfold cv2.transform_point. simpl. do 2 f_equal; [| f_equal]; ring.
Qed.

(** X9. In exact arithmetic a rotation keeps the distance of any two points
    of the array, with and without [expand]. *)
Theorem RotationTransform_apply_coords_isometry (h w : Z) (angle : R)
    (expand : bool) (center : option (R * R)) (interp : option Z)
    (s : store) (coords : loc) (a : ndarray) (n : nat) :
  let self := @RotationTransform_init exact h w angle expand center interp in
  (forall k : Z, angle <> (360 * IZR k)%R) ->
  s !! coords = Some a ->
  has_shape a n 2 ->
  (0 < n)%nat ->
  exists (new : loc) (s' : store) (b : ndarray),
    @RotationTransform_apply_coords exact self coords s = (Ok new, s')
    /\ s' !! new = Some b
    /\ forall (i j : nat) (x1 y1 x2 y2 : R),
         rows a !! i = Some [x1; y1] ->
         rows a !! j = Some [x2; y2] ->
         exists x1' y1' x2' y2' : R,
           rows b !! i = Some [x1'; y1']
           /\ rows b !! j = Some [x2'; y2']
           /\ ((x1' - x2') * (x1' - x2') + (y1' - y2') * (y1' - y2')
               = (x1 - x2) * (x1 - x2) + (y1 - y2) * (y1 - y2))%R.
Proof.
  intros self Hangle Hl Hshape Hn.
  assert (Hangle' : forall k : Z,
            RotationTransform.angle self <> (360 * IZR k)%R).
  { unfold self. now destruct expand. }
  destruct (@RotationTransform_apply_coords_run exact self s coords a n
              (angle_is_turn_false self Hangle') Hl Hshape Hn)
    as (new & s' & b & Hrun & _ & Hb & _ & _ & Hrows).
  exists new, s', b. split; [exact Hrun |]. split; [exact Hb |].
  intros i j x1 y1 x2 y2 Hi Hj.
  rewrite (Hrows i _ _ Hi), (Hrows j _ _ Hj).
  destruct (rm_coords_exact h w angle expand center interp)
    as (tx & ty & Hrm & _ & _).
  fold self in Hrm. rewrite Hrm.
  eexists _, _, _, _. split; [reflexivity |]. split; [reflexivity |].
  unfold cv2.transform_point. simpl.
  pose proof (sin2_cos2 (angle * PI / 180)) as Hsc. unfold Rsqr in Hsc.
  set (al := cos (angle * PI / 180)) in *.
  set (be := sin (angle * PI / 180)) in *.
  replace ((al * x1 + be * y1 + tx - (al * x2 + be * y2 + tx))
           * (al * x1 + be * y1 + tx - (al * x2 + be * y2 + tx))
           + (- be * x1 + al * y1 + ty - (- be * x2 + al * y2 + ty))
             * (- be * x1 + al * y1 + ty - (- be * x2 + al * y2 + ty)))%R
    with ((be * be + al * al)
          * ((x1 - x2) * (x1 - x2) + (y1 - y2) * (y1 - y2)))%R by ring.
  rewrite Hsc. ring.
Qed.

Lemma np_rint_IZR (z : Z) : np_rint (IZR z) = z.
Proof.
  unfold np_rint. rewrite ZfloorZ.
  destruct (Rlt_dec (IZR z - IZR z) (1 / 2)) as [_ | Hn]; [reflexivity |].
  exfalso. apply Hn. lra.
Qed.

Lemma Rabs_sin_1 (x : R) : cos x = 0%R -> Rabs (sin x) = 1%R.
Proof.
  intros Hc. pose proof (sin2_cos2 x) as Hsc. rewrite Hc in Hsc.
  unfold Rsqr in Hsc.
  assert (Hs : (sin x * sin x = 1)%R) by lra.
  unfold Rabs. destruct (Rcase_abs (sin x)); nra.
Qed.

Lemma Rabs_cos_1 (x : R) : sin x = 0%R -> Rabs (cos x) = 1%R.
Proof.
  intros Hc. pose proof (sin2_cos2 x) as Hsc. rewrite Hc in Hsc.
  unfold Rsqr in Hsc.
  assert (Hs : (cos x * cos x = 1)%R) by lra.
  unfold Rabs. destruct (Rcase_abs (cos x)); nra.
Qed.

(** X10. In exact arithmetic the canvas of a rotation with [expand] by an
    odd number of quarter turns is the image's with width and height
    exchanged, and the canvas of a rotation by half turns is the image's
    own. *)
Theorem RotationTransform_bounds_quarter_turns (h w : Z) (k : Z)
    (center : option (R * R)) (interp : option Z) :
  let odd := @RotationTransform_init exact h w (90 + 180 * IZR k) true
               center interp in
  let even := @RotationTransform_init exact h w (180 * IZR k) true
                center interp in
  (bound_w odd = h /\ bound_h odd = w)
  /\ (bound_w even = w /\ bound_h even = h).
Proof.
  intros odd even. pose proof PI_RGT_0 as Hpi.
  assert (Hc : cos ((90 + 180 * IZR k) * (PI / 180)) = 0%R).
  { apply cos_eq_0_1. exists k. field. }
  assert (Hs : sin (180 * IZR k * (PI / 180)) = 0%R).
  { apply sin_eq_0_1. exists k. field. }
  unfold odd, even, RotationTransform_init. simpl.
  unfold np_cos, np_sin, np_deg2rad, py_add, py_mul, of_int. simpl.
  rewrite Hc, Hs, (Rabs_sin_1 _ Hc), (Rabs_cos_1 _ Hs), Rabs_R0.
  repeat split.
  - replace (IZR h * 1 + IZR w * 0)%R with (IZR h) by ring. apply np_rint_IZR.
  - replace (IZR h * 0 + IZR w * 1)%R with (IZR w) by ring. apply np_rint_IZR.
  - replace (IZR h * 0 + IZR w * 1)%R with (IZR w) by ring. apply np_rint_IZR.
  - replace (IZR h * 1 + IZR w * 0)%R with (IZR h) by ring. apply np_rint_IZR.
Qed.

End RotationTheorems.

(** ** Colour values *)

Section ColorValues.
Context `{Rounding}.

Lemma convert_value_range (alpha beta : pyscalar) (v : Z) :
  0 <= convert_value alpha beta v <= 255.
Proof.
  unfold convert_value, float_to_uint8.
  set (t := fadd float64 _ _).
  destruct (Rlt_dec t 0) as [Hneg | Hnn].
  - destruct (Rlt_dec 255 0) as [Habs | _]; [lra |].
    rewrite (ZfloorZ 0). lia.
  - destruct (Rlt_dec 255 t) as [Hbig | Hsmall].
    + rewrite (ZfloorZ 255). lia.
    + split.
      * apply (Zfloor_lub 0). lra.
      * apply le_IZR. pose proof (Zfloor_bound t). lra.
Qed.

(** X11. Whatever the factor, the offset and the rounding are, every value
    that [_convert] leaves in an image is an 8-bit value, and the image
    keeps its pixels: where there was the value [v] there is the value that
    [_convert] makes of [v]. *)
Theorem ColorDistortTransform_convert_range (img : image)
    (alpha beta : pyscalar) (i j k : nat) :
  channel (_convert img alpha beta) i j k
  = convert_value alpha beta <$> channel img i j k
  /\ forall v : Z,
       channel (_convert img alpha beta) i j k = Some v -> 0 <= v <= 255.
Proof.
  assert (Heq : channel (_convert img alpha beta) i j k
                = convert_value alpha beta <$> channel img i j k).
  { unfold channel, pixel, _convert, image in *.
    rewrite map_fmap, list_lookup_fmap.
    destruct (img !! i) as [row |]; simpl; [| reflexivity].
    rewrite map_fmap, list_lookup_fmap.
    destruct (row !! j) as [px |]; simpl; [| reflexivity].
    now rewrite map_fmap, list_lookup_fmap. }
  split; [exact Heq |].
  intros v Hv. rewrite Heq in Hv.
  destruct (channel img i j k) as [v0 |]; simpl in Hv; [| discriminate].
  injection Hv as <-. apply convert_value_range.
Qed.

End ColorValues.

(** X12. In exact arithmetic the brightness step [_convert(img, beta=b)]
    with a whole number [b] adds [b] to an 8-bit value and saturates at 0
    and 255. *)
Theorem convert_value_brightness_saturates (b v : Z) :
  0 <= v <= 255 ->
  @convert_value exact (PyInt 1) (PyFloat (IZR b)) v
  = Z.max 0 (Z.min 255 (v + b)).
Proof.
  intros Hv. unfold convert_value, float_to_uint8, fadd, fmul, scalar, cast.
  simpl rnd.
  replace (IZR v * 1 + IZR b)%R with (IZR (v + b))
    by (rewrite plus_IZR; ring).
  destruct (Rlt_dec (IZR (v + b)) 0) as [Hneg | Hnn].
  - destruct (Rlt_dec 255 0) as [Habs | _]; [lra |].
    rewrite (ZfloorZ 0). apply lt_IZR in Hneg. lia.
  - destruct (Rlt_dec 255 (IZR (v + b))) as [Hbig | Hsmall].
    + rewrite (ZfloorZ 255). apply lt_IZR in Hbig. lia.
    + rewrite ZfloorZ.
      assert (0 <= v + b) by (apply le_IZR; lra).
      assert (v + b <= 255) by (apply le_IZR; lra).
      lia.
Qed.

Section HueShifts.
Context `{Rounding}.
Import ColorDistortTransform.

Lemma shift_hue_twice (d1 d2 v : Z) :
  shift_hue d2 (shift_hue d1 v) = shift_hue (d1 + d2) v.
Proof.
  rewrite !shift_hue_mod. rewrite Zplus_mod_idemp_l. f_equal. lia.
Qed.

Lemma map_channel_twice (k : nat) (f g : Z -> Z) (img : image) :
  map_channel k f (map_channel k g img) = map_channel k (fun v => f (g v)) img.
Proof.
  unfold map_channel. rewrite map_map. apply map_ext. intros row.
  rewrite map_map. apply map_ext. intros px.
  apply (list_alter_alter_eq f g).
Qed.

(** X13. On the image in hue, saturation and value, a hue shift by [d1]
    followed by a hue shift by [d2] is the hue shift by [d1 + d2], and a hue
    shift by a multiple of 180 on 8-bit hues below 180 changes nothing. *)
Theorem distort_hsv_hue_shifts_add (t1 t2 t12 : ColorDistortTransform.t)
    (d1 d2 : Z) (img : image) :
  h_delta t1 = Some d1 -> s_alpha t1 = None ->
  h_delta t2 = Some d2 -> s_alpha t2 = None ->
  h_delta t12 = Some (d1 + d2) -> s_alpha t12 = None ->
  distort_hsv t2 (distort_hsv t1 img) = distort_hsv t12 img
  /\ forall (m : Z) (i j : nat) (v : Z),
       d1 = 180 * m ->
       0 <= v < 180 ->
       channel img i j 0 = Some v ->
       channel (distort_hsv t1 img) i j 0 = Some v.
Proof.
  intros Hd1 Hs1 Hd2 Hs2 Hd12 Hs12. unfold distort_hsv.
  rewrite Hd1, Hs1, Hd2, Hs2, Hd12, Hs12. split.
  - rewrite map_channel_twice. unfold map_channel.
    apply map_ext. intros row. apply map_ext. intros px.
    apply list_alter_ext; [| reflexivity].
    intros v _. apply shift_hue_twice.
  - intros m i j v -> Hv Hc.
    rewrite channel_map_channel. simpl. rewrite Hc. simpl.
    rewrite shift_hue_mod. f_equal.
    rewrite (Z.mul_comm 180 m), Z_mod_plus_full.
    apply Z.mod_small. lia.
Qed.

End HueShifts.

(** ** Cutouts *)

Section CutoutTheorems.
Import CutoutTransform.

Lemma in_slice_not_last (len start stop : Z) (k : nat) :
  Z.of_nat k = len - 1 ->
  stop <= len - 1 ->
  in_slice len start stop k = false.
Proof.
  intros Hk Hstop. unfold in_slice, slice_bound.
  apply andb_false_iff. right. apply Z.ltb_ge.
  destruct (Z.ltb_spec stop 0); lia.
Qed.

(** X14. Whatever the region is, [apply_image] leaves the pixels of the last
    row and of the last column of the image as they are. *)
Theorem CutoutTransform_apply_image_never_last (self : CutoutTransform.t)
    (img : image) (i j : nat) (px : list Z) :
  pixel img i j = Some px ->
  S i = img_H img \/ S j = img_W img ->
  pixel (CutoutTransform_apply_image self img) i j = Some px.
Proof.
  intros Hpx Hlast.
  pose proof (CutoutTransform_apply_image_pixel self img i j) as Hp.
  destruct (region self) as [[[x y] w] h]. cbv zeta in Hp.
  rewrite Hp, Hpx. simpl. f_equal.
  destruct Hlast as [Hi | Hj].
  - rewrite (in_slice_not_last _ y _ i) by lia. reflexivity.
  - rewrite (in_slice_not_last _ x _ j) by lia.
    now rewrite andb_false_r.
Qed.

Lemma in_slice_inside (len start size : Z) (k : nat) :
  0 <= start -> 0 <= size -> start + size <= len - 1 ->
  in_slice len start (Z.min (len - 1) (start + size)) k
  = (start <=? Z.of_nat k) && (Z.of_nat k <? start + size).
Proof.
  intros Hs Hz Hin. unfold in_slice, slice_bound.
  rewrite (Z.min_r (len - 1) (start + size)) by lia.
  destruct (Z.ltb_spec start 0); [lia |].
  destruct (Z.ltb_spec (start + size) 0); [lia |].
  rewrite !Z.min_l by lia. reflexivity.
Qed.

(** X15. For a region of non-negative position and size that ends before the
    last row and the last column, [apply_image] clears the pixels of the
    region, all channels of them, and no other pixel. *)
Theorem CutoutTransform_apply_image_inside (self : CutoutTransform.t)
    (img : image) (x y w h : Z) (i j : nat) (px : list Z) :
  region self = (x, y, w, h) ->
  0 <= x -> 0 <= y -> 0 <= w -> 0 <= h ->
  x + w <= Z.of_nat (img_W img) - 1 ->
  y + h <= Z.of_nat (img_H img) - 1 ->
  pixel img i j = Some px ->
  pixel (CutoutTransform_apply_image self img) i j
  = Some (if (y <=? Z.of_nat i) && (Z.of_nat i <? y + h)
             && ((x <=? Z.of_nat j) && (Z.of_nat j <? x + w))
          then map (fun _ => 0) px
          else px).
Proof.
  intros Hreg Hx Hy Hw Hh Hxw Hyh Hpx.
  pose proof (CutoutTransform_apply_image_pixel self img i j) as Hp.
  rewrite Hreg in Hp. cbv zeta in Hp. rewrite Hp, Hpx. simpl.
  rewrite (in_slice_inside _ y h i) by lia.
  rewrite (in_slice_inside _ x w j) by lia.
  reflexivity.
Qed.

Lemma img_W_imap (f : nat -> list (list Z) -> list (list Z)) (img : image) :
  (forall i row, length (f i row) = length row) ->
  img_W (imap f img) = img_W img.
Proof.
  intros Hf. destruct img as [| row img]; simpl; [reflexivity | apply Hf].
Qed.

Lemma imap_imap_same {A} (f : nat -> A -> A) (l : list A) :
  (forall i x, f i (f i x) = f i x) -> imap f (imap f l) = imap f l.
Proof.
  intros Hf. apply list_eq. intros i. rewrite !list_lookup_imap.
  destruct (l !! i) as [x |]; simpl; [| reflexivity]. now rewrite Hf.
Qed.

(** X16. [apply_image] keeps the height and the width of the image, and a
    second [apply_image] of the same transform changes nothing any more. *)
Theorem CutoutTransform_apply_image_idempotent (self : CutoutTransform.t)
    (img : image) :
  img_H (CutoutTransform_apply_image self img) = img_H img
  /\ img_W (CutoutTransform_apply_image self img) = img_W img
  /\ CutoutTransform_apply_image self (CutoutTransform_apply_image self img)
     = CutoutTransform_apply_image self img.
Proof.
  assert (HH : img_H (CutoutTransform_apply_image self img) = img_H img).
  { unfold CutoutTransform_apply_image, img_H.
    destruct (region self) as [[[x y] w] h]. apply length_imap. }
  assert (HW : img_W (CutoutTransform_apply_image self img) = img_W img).
  { unfold CutoutTransform_apply_image.
    destruct (region self) as [[[x y] w] h]. apply img_W_imap.
    intros i row. destruct (in_slice _ _ _ i); [apply length_imap |].
    reflexivity. }
  split; [exact HH |]. split; [exact HW |].
  unfold CutoutTransform_apply_image at 1. rewrite HH, HW.
  unfold CutoutTransform_apply_image.
  destruct (region self) as [[[x y] w] h].
  apply imap_imap_same. intros i row.
  destruct (in_slice _ y _ i); [| reflexivity].
  apply imap_imap_same. intros j px.
  destruct (in_slice _ x _ j); [| reflexivity].
  now rewrite map_map.
Qed.

End CutoutTheorems.

(** ** Perspective transforms of points *)

Section PerspectivePoints.
Context `{Rounding}.
Import PerspectiveTransform.

(** X17. On an N×2 array with at least one point, [apply_coords] leaves the
    caller's array as it is and returns a new float64 array in which the
    point [(x, y)] has become the first two of the three products of the
    rows of [M] with [(x, y, 1)], summed from the left, each divided by the
    third product when the perspective flag is set. *)
Theorem PerspectiveTransform_apply_coords_points
    (self : PerspectiveTransform.t) (s : store) (coords : loc)
    (a : ndarray) (n : nat) (m00 m01 m02 m10 m11 m12 m20 m21 m22 : R) :
  M self = ((m00, m01, m02), (m10, m11, m12), (m20, m21, m22)) ->
  s !! coords = Some a ->
  has_shape a n 2 ->
  (0 < n)%nat ->
  exists (new : loc) (b : ndarray),
    PerspectiveTransform_apply_coords self coords s
    = (Ok new, <[new := b]> s)
    /\ s !! new = None
    /\ dtype_of b = float64
    /\ has_shape b n 2
    /\ forall (i : nat) (x y : R),
         rows a !! i = Some [x; y] ->
         let X := fadd float64 (fadd float64 (fmul float64 x m00)
                                  (fmul float64 y m01))
                    (fmul float64 1 m02) in
         let Y := fadd float64 (fadd float64 (fmul float64 x m10)
                                  (fmul float64 y m11))
                    (fmul float64 1 m12) in
         let W := fadd float64 (fadd float64 (fmul float64 x m20)
                                  (fmul float64 y m21))
                    (fmul float64 1 m22) in
         rows b !! i
         = Some (if perspective self
                 then [fdiv float64 X W; fdiv float64 Y W]
                 else [X; Y]).
Proof.
  intros HM Hl Hshape Hn.
  destruct (PerspectiveTransform_apply_coords_run self s coords a n
              Hl Hshape Hn) as (b & Hrun & Hd & Hb & Hrows).
  exists (fresh (dom s)), b. split; [exact Hrun |].
  split; [apply fresh_unbound |]. split; [exact Hd |]. split; [exact Hb |].
  intros i x y Hr. specialize (Hrows i x y Hr). rewrite HM in Hrows.
  exact Hrows.
Qed.

End PerspectivePoints.

(** X18. In exact arithmetic a matrix whose last row is [(0, 0, 1)] gives
    the same points with and without the perspective flag: the affine image
    [(m00 x + m01 y + m02, m10 x + m11 y + m12)] of [(x, y)]. *)
Theorem PerspectiveTransform_affine_matrix (self : PerspectiveTransform.t)
    (s : store) (coords : loc) (a : ndarray) (n : nat)
    (m00 m01 m02 m10 m11 m12 : R) :
  PerspectiveTransform.M self
  = ((m00, m01, m02), (m10, m11, m12), (0, 0, 1))%R ->
  s !! coords = Some a ->
  has_shape a n 2 ->
  (0 < n)%nat ->
  exists (new : loc) (b : ndarray),
    @PerspectiveTransform_apply_coords exact self coords s
    = (Ok new, <[new := b]> s)
    /\ forall (i : nat) (x y : R),
         rows a !! i = Some [x; y] ->
         rows b !! i = Some [(m00 * x + m01 * y + m02)%R;
                             (m10 * x + m11 * y + m12)%R].
Proof.
  intros HM Hl Hshape Hn.
  destruct (@PerspectiveTransform_apply_coords_run exact self s coords a n
              Hl Hshape Hn) as (b & Hrun & _ & _ & Hrows).
  exists (fresh (dom s)), b. split; [exact Hrun |].
  intros i x y Hr. specialize (Hrows i x y Hr). rewrite HM in Hrows.
  rewrite Hrows. unfold dot, dot_from, fadd, fmul, fdiv. simpl rnd.
  destruct (PerspectiveTransform.perspective self);
    do 2 f_equal; [| f_equal | | f_equal]; try field; lra.
Qed.

(** ** flip.py: boxes that follow the flipped image *)

Section StridedColumns.
Context `{Rounding}.

Lemma copy_run (s : store) (l : loc) (a : ndarray) :
  s !! l = Some a ->
  copy l s = (Ok (fresh (dom s)), <[fresh (dom s) := rowwise (fun r => r) a]> s).
Proof.
  intros Hl. unfold copy. rewrite rowwise_id.
  now rewrite (bind_run _ _ _ _ _ (load_run _ _ _ Hl)).
Qed.

(** A statement on strided columns, with the target and the source given
    as what earlier statements made of the rows of one array. *)
Lemma assign_cols_rowwise (f : dtype -> R -> R) (s : store)
    (target source : loc) (to from : nat * nat) (b : ndarray)
    (g g' : list R -> list R) :
  s !! source = Some (rowwise g' b) ->
  s !! target = Some (rowwise g b) ->
  length (stride_cols from.1 from.2 (ncols b))
  = length (stride_cols to.1 to.2 (ncols b)) ->
  assign_cols f target to source from s
  = (Ok tt,
     <[target :=
         rowwise (fun r =>
                    assign_at (stride_cols to.1 to.2 (ncols b))
                      (map (fun j => f (dtype_of b) (nth j (g' r) 0%R))
                         (stride_cols from.1 from.2 (ncols b)))
                      (g r)) b]> s).
Proof.
  intros Hs Ht Hlen. unfold assign_cols.
  rewrite (bind_run _ _ _ _ _ (load_run _ _ _ Hs)).
  rewrite (bind_run _ _ _ _ _ (load_run _ _ _ Ht)).
  unfold lift, setcols, bind, save. simpl.
  destruct (decide _) as [_ | Hn]; [| now rewrite Hlen in Hn].
  f_equal. f_equal. unfold rowwise, getcols. simpl. f_equal.
  rewrite !map_map. rewrite zip_with_map_map.
  apply map_ext. intros r. now rewrite map_map.
Qed.

(** A list comprehension over references, for a method that puts its
    result into a new object. *)
Lemma mapM_fresh_run (f : loc -> Py loc) (g : ndarray -> ndarray)
    (P : ndarray -> Prop) :
  (forall s l a, s !! l = Some a -> P a ->
     f l s = (Ok (fresh (dom s)), <[fresh (dom s) := g a]> s)) ->
  forall (ls : list loc) (s : store),
    Forall (fun l => exists a, s !! l = Some a /\ P a) ls ->
    exists (news : list loc) (s' : store),
      mapM f ls s = (Ok news, s')
      /\ length news = length ls
      /\ (forall l a, s !! l = Some a -> s' !! l = Some a)
      /\ (forall i l a, ls !! i = Some l -> s !! l = Some a ->
            exists new, news !! i = Some new /\ s !! new = None
                        /\ s' !! new = Some (g a)).
Proof.
  intros Hf ls. induction ls as [| l ls IH]; intros s Hall.
  - exists [], s. simpl. repeat split; [auto |].
    intros i l a Hi. now rewrite lookup_nil in Hi.
  - apply Forall_cons in Hall as [(a & Hl & HP) Hall].
    assert (Hext : forall l' a', s !! l' = Some a' ->
                     (<[fresh (dom s) := g a]> s) !! l' = Some a').
    { intros l' a' Hl'. rewrite lookup_insert_ne; [exact Hl' |].
      intros <-. rewrite fresh_unbound in Hl'. discriminate. }
    destruct (IH (<[fresh (dom s) := g a]> s)) as (news & s' & Hrun & Hlen & Hkeep & Hnew).
    { eapply Forall_impl; [exact Hall |]. intros l' (a' & Hl' & HP').
      exists a'. split; [now apply Hext | exact HP']. }
    exists (fresh (dom s) :: news), s'. simpl.
    rewrite (bind_run _ _ _ _ _ (Hf s l a Hl HP)).
    rewrite (bind_run _ _ _ _ _ Hrun).
    split; [reflexivity |]. split; [now rewrite Hlen |].
    split; [intros l' a' Hl'; now apply Hkeep, Hext |].
    intros [| i] l' a' Hi Hl'; simpl in Hi.
    + injection Hi as ->. rewrite Hl in Hl'. injection Hl' as ->.
      exists (fresh (dom s)). split; [reflexivity |].
      split; [apply fresh_unbound |].
      apply Hkeep. apply lookup_insert_eq.
    + destruct (Hnew i l' a' Hi (Hext _ _ Hl')) as (new & Hn1 & Hn2 & Hn3).
      exists new. split; [exact Hn1 |]. split; [| exact Hn3].
      destruct (decide (new = fresh (dom s))) as [-> | Hne].
      * apply fresh_unbound.
      * now rewrite lookup_insert_ne in Hn2 by congruence.
Qed.

Lemma length_4_inv (r : list R) :
  length r = 4%nat -> exists x0 y0 x1 y1, r = [x0; y0; x1; y1].
Proof.
  destruct r as [| x0 [| y0 [| x1 [| y1 [| ? ?]]]]]; try discriminate.
  intros _. now exists x0, y0, x1, y1.
Qed.

Lemma RandomFlip_flip_boxes_run (self : RandomFlip.t) (w : Z) (s : store)
    (boxes : loc) (a : ndarray) :
  RandomFlip.w self = Some w ->
  s !! boxes = Some a ->
  ncols a = 4%nat ->
  RandomFlip_flip_boxes self boxes s
  = (Ok (fresh (dom s)),
     <[fresh (dom s) := rowwise (flipped_row (dtype_of a) w) a]> s).
Proof.
  intros Hw Hl Hk. unfold RandomFlip_flip_boxes.
  rewrite (bind_run _ _ _ _ _ (copy_run s boxes a Hl)).
  rewrite Hw. unfold lift at 1, getattr at 1. unfold bind at 1.
  assert (Hl' : forall a', (<[fresh (dom s) := a']> s) !! boxes
                = Some (rowwise (fun r => r) a)).
  { intros a'. rewrite rowwise_id. rewrite lookup_insert_ne; [exact Hl |].
    intros E. rewrite <- E in Hl. rewrite fresh_unbound in Hl.
    discriminate. }
  rewrite (bind_run _ _ _ _ _
             (assign_cols_rowwise _ _ _ _ (0, 4)%nat (2, 4)%nat a
                (fun r => r) (fun r => r) (Hl' _) (lookup_insert_eq _ _ _)
                ltac:(now rewrite Hk))).
  rewrite insert_insert_eq.
  unfold lift at 1, getattr at 1. unfold bind at 1.
  rewrite (bind_run _ _ _ _ _
             (assign_cols_rowwise _ _ _ _ (2, 4)%nat (0, 4)%nat a
                _ (fun r => r) (Hl' _) (lookup_insert_eq _ _ _)
                ltac:(now rewrite Hk))).
  rewrite insert_insert_eq. unfold ret. rewrite Hk. reflexivity.
Qed.

End StridedColumns.

Section RandomFlip.
Context `{Rounding} `{MoreImageOps}.

(** X19. [RandomFlip.flip_boxes] on an N×4 array of boxes [(x0, y0, x1,
    y1)], after [flip_img] has set the width [w]: the result is a new array
    of the same format whose rows are [(w - x1, y0, w - x0, y1)], the
    subtractions being those of the array's format; the array passed in is
    not touched. *)
Theorem RandomFlip_flip_boxes_boxes (self : RandomFlip.t) (w : Z)
    (s : store) (boxes : loc) (a : ndarray) (n : nat) :
  RandomFlip.w self = Some w ->
  s !! boxes = Some a ->
  has_shape a n 4 ->
  exists (new : loc) (a' : ndarray),
    RandomFlip_flip_boxes self boxes s = (Ok new, <[new := a']> s)
    /\ s !! new = None
    /\ has_shape a' n 4
    /\ dtype_of a' = dtype_of a
    /\ forall i x0 y0 x1 y1,
         rows a !! i = Some [x0; y0; x1; y1] ->
         rows a' !! i
         = Some [fsub (dtype_of a) (scalar (dtype_of a) (PyInt w)) x1; y0;
                 fsub (dtype_of a) (scalar (dtype_of a) (PyInt w)) x0; y1].
Proof.
  intros Hw Hl Hshape. pose proof Hshape as (Hn & Hk & Hrect).
  exists (fresh (dom s)), (rowwise (flipped_row (dtype_of a) w) a).
  split; [now apply RandomFlip_flip_boxes_run |].
  split; [apply fresh_unbound |].
  split.
  { apply has_shape_rowwise; [exact Hshape |].
    intros r Hr. unfold flipped_row. now rewrite !length_insert. }
  split; [reflexivity |].
  intros i x0 y0 x1 y1 Hi.
  now rewrite (rows_rowwise_lookup _ a i _ Hi).
Qed.

(** X20. [flip_boxes] on an array of one or two columns, points instead of
    boxes for instance: the columns [2::4] are none, which does not fit the
    one column [0::4], and the first assignment raises [ValueError]; the
    copy made before stays behind as a new object. *)
Theorem RandomFlip_flip_boxes_points (self : RandomFlip.t) (w : Z)
    (s : store) (boxes : loc) (a : ndarray) :
  RandomFlip.w self = Some w ->
  s !! boxes = Some a ->
  ncols a = 1%nat \/ ncols a = 2%nat ->
  RandomFlip_flip_boxes self boxes s
  = (Raise ValueError, <[fresh (dom s) := a]> s).
Proof.
  intros Hw Hl Hk. unfold RandomFlip_flip_boxes.
  rewrite (bind_run _ _ _ _ _ (copy_run s boxes a Hl)).
  rewrite Hw. unfold lift at 1, getattr at 1. unfold bind at 1.
  rewrite rowwise_id.
  assert (Hl' : (<[fresh (dom s) := a]> s) !! boxes = Some a).
  { rewrite lookup_insert_ne; [exact Hl |].
    intros E. rewrite <- E in Hl. rewrite fresh_unbound in Hl.
    discriminate. }
  apply bind_raise. unfold assign_cols.
  rewrite (bind_run _ _ _ _ _ (load_run _ _ _ Hl')).
  rewrite (bind_run _ _ _ _ _ (load_run _ _ _ (lookup_insert_eq _ _ _))).
  apply bind_raise. unfold lift, setcols.
  destruct Hk as [-> | ->]; reflexivity.
Qed.

End RandomFlip.

(** X21. In exact arithmetic [flip_boxes] undoes itself: flipping the
    flipped boxes about the same width gives an array equal to the first
    one. *)
Theorem RandomFlip_flip_boxes_involution (self : RandomFlip.t) (w : Z)
    (s : store) (boxes : loc) (a : ndarray) (n : nat) :
  RandomFlip.w self = Some w ->
  s !! boxes = Some a ->
  has_shape a n 4 ->
  exists (new1 new2 : loc) (s1 : store),
    @RandomFlip_flip_boxes exact self boxes s = (Ok new1, s1)
    /\ @RandomFlip_flip_boxes exact self new1 s1
       = (Ok new2, <[new2 := a]> s1).
Proof.
  intros Hw Hl (Hn & Hk & Hrect).
  eexists _, _, _. split;
    [apply (@RandomFlip_flip_boxes_run exact self w s boxes a Hw Hl Hk) |].
  rewrite (@RandomFlip_flip_boxes_run exact self w _ _
             (rowwise (@flipped_row exact (dtype_of a) w) a) Hw
             (lookup_insert_eq _ _ _) Hk).
  f_equal. f_equal.
  apply ndarray_eq; [reflexivity | reflexivity |]. simpl.
  rewrite map_map. rewrite <- (map_id (rows a)) at 2.
  apply map_ext_Forall. eapply Forall_impl; [exact Hrect |].
  intros r Hr. simpl in Hr. rewrite Hk in Hr.
  destruct (length_4_inv r Hr) as (x0 & y0 & x1 & y1 & ->).
  unfold flipped_row, fsub. simpl. f_equal; [ring |]. do 2 f_equal. ring.
Qed.

Section RandomFlipCall.
Context `{Rounding} `{MoreImageOps}.

Lemma RandomFlip_flip_imgs_run (self : RandomFlip.t) (imgs : list image) :
  RandomFlip_flip_imgs self imgs
  = (match last imgs with
     | Some x => {| RandomFlip.flip_ratio := RandomFlip.flip_ratio self;
                    RandomFlip.w := Some (Z.of_nat (img_W x)) |}
     | None => self
     end,
     map (fun x => cv2_flip x 1) imgs).
Proof.
  revert self. induction imgs as [| x imgs IH]; intros self;
    [reflexivity |].
  cbn [RandomFlip_flip_imgs RandomFlip_flip_img]. rewrite IH.
  rewrite last_cons. destruct (last imgs); reflexivity.
Qed.

(** X22. [RandomFlip.__call__] on a list of images and the list of their N×4
    box arrays, when the draw does not exceed the flip ratio: every image is
    flipped, and every box array is flipped about the width of the last
    image of the list, whatever the width of its own image is. The results
    are new arrays; the arrays passed in are not touched. *)
Theorem RandomFlip_call_batch_last_width (draw : R) (self : RandomFlip.t)
    (imgs : list image) (img : image) (boxes : list loc) (s : store) :
  ~ (RandomFlip.flip_ratio self < draw)%R ->
  last imgs = Some img ->
  img <> [] ->
  Forall (fun l => exists a, s !! l = Some a /\ ncols a = 4%nat) boxes ->
  let w := Z.of_nat (img_W img) in
  exists (self' : RandomFlip.t) (news : list loc) (s' : store),
    RandomFlip_call draw self (Batch imgs (Some boxes)) s
    = (Ok (self', Batch (map (fun x => cv2_flip x 1) imgs) (Some news)), s')
    /\ RandomFlip.w self' = Some w
    /\ length news = length boxes
    /\ forall i l a,
         boxes !! i = Some l -> s !! l = Some a ->
         exists (new : loc) (a' : ndarray),
           news !! i = Some new /\ s !! new = None
           /\ s' !! new = Some a' /\ s' !! l = Some a
           /\ forall k x0 y0 x1 y1,
                rows a !! k = Some [x0; y0; x1; y1] ->
                rows a' !! k
                = Some [fsub (dtype_of a) (scalar (dtype_of a) (PyInt w)) x1;
                        y0;
                        fsub (dtype_of a) (scalar (dtype_of a) (PyInt w)) x0;
                        y1].
Proof.
  intros Hdraw Hlast _ Hall w.
  set (self' := {| RandomFlip.flip_ratio := RandomFlip.flip_ratio self;
                   RandomFlip.w := Some w |}).
  destruct (mapM_fresh_run (RandomFlip_flip_boxes self')
              (fun a => rowwise (flipped_row (dtype_of a) w) a)
              (fun a => ncols a = 4%nat)) with (ls := boxes) (s := s)
    as (news & s' & Hrun & Hlen & Hkeep & Hnew).
  { intros s0 l a Hl Hk. now apply RandomFlip_flip_boxes_run. }
  { exact Hall. }
  exists self', news, s'. split.
  { unfold RandomFlip_call.
    destruct (Rlt_dec _ _) as [Hlt | _]; [contradiction |].
    rewrite RandomFlip_flip_imgs_run, Hlast.
    fold w. fold self'. now rewrite (bind_run _ _ _ _ _ Hrun). }
  split; [reflexivity |]. split; [exact Hlen |].
  intros i l a Hi Hl.
  destruct (Hnew i l a Hi Hl) as (new & Hn1 & Hn2 & Hn3).
  exists new, (rowwise (flipped_row (dtype_of a) w) a).
  repeat split; [exact Hn1 | exact Hn2 | exact Hn3 | now apply Hkeep |].
  intros k x0 y0 x1 y1 Hk.
  now rewrite (rows_rowwise_lookup _ a k _ Hk).
Qed.

End RandomFlipCall.

(** ** pad.py: the centred canvas and the shifted boxes *)

Lemma elem_of_stride_cols (start step k j : nat) :
  j ∈ stride_cols start step k
  <-> (j < k)%nat /\ (start <= j)%nat /\ ((j - start) mod step = 0)%nat.
Proof.
  unfold stride_cols. rewrite list_elem_of_filter, elem_of_seq.
  rewrite andb_True, Is_true_true, Is_true_true.
  rewrite Nat.leb_le, Nat.eqb_eq. lia.
Qed.

Lemma length_assign_at (idxs : list nat) (v r : list R) :
  length (assign_at idxs v r) = length r.
Proof.
  unfold assign_at. revert v. induction idxs as [| i idxs IH]; intros v;
    [reflexivity |].
  destruct v as [| x v]; [reflexivity |]. simpl.
  now rewrite length_insert, IH.
Qed.

(** The row after an assignment to the columns [idxs] of values computed
    column by column. *)
Lemma assign_at_lookup (idxs : list nat) (F : nat -> R) (r : list R)
    (j : nat) :
  (j < length r)%nat ->
  assign_at idxs (map F idxs) r !! j
  = if decide (j ∈ idxs) then Some (F j) else r !! j.
Proof.
  intros Hj. induction idxs as [| i idxs IH].
  - simpl. destruct (decide (j ∈ [])) as [Hin | _]; [| reflexivity].
    now apply elem_of_nil in Hin.
  - change (assign_at (i :: idxs) (map F (i :: idxs)) r)
      with (<[i := F i]> (assign_at idxs (map F idxs) r)).
    destruct (decide (j = i)) as [-> | Hne].
    + rewrite list_lookup_insert_eq by (now rewrite length_assign_at).
      destruct (decide (i ∈ i :: idxs)) as [_ | Hn]; [reflexivity |].
      exfalso. apply Hn. left.
    + rewrite list_lookup_insert_ne by congruence. rewrite IH.
      destruct (decide (j ∈ idxs)) as [Hin | Hnin];
        destruct (decide (j ∈ i :: idxs)) as [Hin' | Hnin'];
        try reflexivity.
      * exfalso. apply Hnin'. now right.
      * apply elem_of_cons in Hin' as [-> | Hin']; contradiction.
Qed.

Section PadBoxes.
Context `{Rounding}.

Lemma Pad_pad_boxes_run (self : Pad.t) (x y : Z) (s : store)
    (boxes : loc) (a : ndarray) :
  Pad.x self = Some x ->
  Pad.y self = Some y ->
  s !! boxes = Some a ->
  let d := dtype_of a in
  let g1 := fun r =>
    assign_at (stride_cols 0 2 (ncols a))
      (map (fun j => fadd d (nth j r 0%R) (scalar d (PyInt x)))
         (stride_cols 0 2 (ncols a))) r in
  Pad_pad_boxes self boxes s
  = (Ok (fresh (dom s)),
     <[fresh (dom s) :=
         rowwise (fun r =>
           assign_at (stride_cols 1 2 (ncols a))
             (map (fun j => fadd d (nth j (g1 r) 0%R) (scalar d (PyInt y)))
                (stride_cols 1 2 (ncols a))) (g1 r)) a]> s).
Proof.
  intros Hx Hy Hl d g1. unfold Pad_pad_boxes.
  rewrite (bind_run _ _ _ _ _ (copy_run s boxes a Hl)).
  rewrite Hx. unfold lift at 1, getattr at 1. unfold bind at 1.
  rewrite (bind_run _ _ _ _ _
             (assign_cols_rowwise _ _ _ _ (0, 2)%nat (0, 2)%nat a
                (fun r => r) (fun r => r) (lookup_insert_eq _ _ _)
                (lookup_insert_eq _ _ _) eq_refl)).
  rewrite insert_insert_eq.
  rewrite Hy. unfold lift at 1, getattr at 1. unfold bind at 1.
  rewrite (bind_run _ _ _ _ _
             (assign_cols_rowwise _ _ _ _ (1, 2)%nat (1, 2)%nat a
                g1 g1 (lookup_insert_eq _ _ _)
                (lookup_insert_eq _ _ _) eq_refl)).
  rewrite insert_insert_eq. reflexivity.
Qed.

(** X23. [Pad.pad_boxes] on an array of any number of columns, after
    [pad_img] has set the offsets [x] and [y]: the result is a new array of
    the same shape and format in which every entry of an even column has [x]
    added and every entry of an odd column has [y] added, in the array's
    format; the array passed in is not touched. *)
Theorem Pad_pad_boxes_shift (self : Pad.t) (x y : Z) (s : store)
    (boxes : loc) (a : ndarray) (n k : nat) :
  Pad.x self = Some x ->
  Pad.y self = Some y ->
  s !! boxes = Some a ->
  has_shape a n k ->
  exists (new : loc) (a' : ndarray),
    Pad_pad_boxes self boxes s = (Ok new, <[new := a']> s)
    /\ s !! new = None
    /\ has_shape a' n k
    /\ dtype_of a' = dtype_of a
    /\ forall i j v,
         entry a i j = Some v ->
         entry a' i j
         = Some (fadd (dtype_of a) v
                   (scalar (dtype_of a)
                      (PyInt (if Nat.even j then x else y)))).
Proof.
  intros Hx Hy Hl Hshape. pose proof Hshape as (Hn & Hk & Hrect).
  eexists _, _. split; [exact (Pad_pad_boxes_run self x y s boxes a Hx Hy Hl) |].
  split; [apply fresh_unbound |].
  split.
  { apply has_shape_rowwise; [exact Hshape |].
    intros r Hr. now rewrite !length_assign_at. }
  split; [reflexivity |].
  intros i j v Hv. rewrite entry_rowwise.
  unfold entry in Hv.
  destruct (rows a !! i) as [r |] eqn:Hr; [| discriminate]. simpl in *.
  assert (Hlen : length r = k).
  { rewrite <- Hk. unfold rectangular in Hrect.
    rewrite Forall_lookup in Hrect. exact (Hrect i r Hr). }
  assert (Hj : (j < length r)%nat) by (apply lookup_lt_is_Some; eauto).
  rewrite assign_at_lookup by (now rewrite length_assign_at).
  rewrite Hk.
  destruct (decide (j ∈ stride_cols 1 2 k)) as [Hodd | Hnodd].
  - apply elem_of_stride_cols in Hodd as (_ & H1 & Hmod).
    assert (Hev : Nat.even j = false).
    { rewrite <- Nat.negb_odd. apply negb_false_iff.
      apply Nat.odd_spec. exists ((j - 1) / 2)%nat.
      pose proof (Nat.div_mod (j - 1) 2 ltac:(lia)). lia. }
    rewrite Hev. do 2 f_equal.
    rewrite (nth_lookup _ j). rewrite assign_at_lookup by exact Hj.
    destruct (decide (j ∈ stride_cols 0 2 k)) as [Hin | _].
    + apply elem_of_stride_cols in Hin as (_ & _ & Hmod0).
      rewrite Nat.sub_0_r in Hmod0.
      pose proof (Nat.div_mod (j - 1) 2 ltac:(lia)).
      pose proof (Nat.div_mod j 2 ltac:(lia)). lia.
    + now rewrite Hv.
  - rewrite assign_at_lookup by exact Hj.
    destruct (decide (j ∈ stride_cols 0 2 k)) as [Hin | Hnin].
    + apply elem_of_stride_cols in Hin as (_ & _ & Hmod0).
      rewrite Nat.sub_0_r in Hmod0.
      assert (Hev : Nat.even j = true).
      { apply Nat.even_spec. exists (j / 2)%nat.
        pose proof (Nat.div_mod j 2 ltac:(lia)). lia. }
      rewrite Hev. do 2 f_equal.
      rewrite (nth_lookup _ j). now rewrite Hv.
    + exfalso.
      pose proof (Nat.mod_upper_bound j 2 ltac:(lia)).
      pose proof (Nat.div_mod j 2 ltac:(lia)).
      destruct (decide (j mod 2 = 0)%nat) as [Hm0 | Hm1].
      * apply Hnin. apply elem_of_stride_cols.
        rewrite Nat.sub_0_r. lia.
      * apply Hnodd. apply elem_of_stride_cols.
        split; [lia |]. split; [lia |].
        pose proof (Nat.div_mod (j - 1) 2 ltac:(lia)).
        pose proof (Nat.mod_upper_bound (j - 1) 2 ltac:(lia)).
        lia.
Qed.

End PadBoxes.

(** *** Slices and windows *)

Lemma in_slice_nat (len start stop : Z) (k : nat) :
  in_slice len start stop k
  = (Z.to_nat (slice_bound len start) <=? k)%nat
    && (k <? Z.to_nat (slice_bound len stop))%nat.
Proof.
  unfold in_slice. f_equal.
  - destruct (Z.leb_spec (slice_bound len start) (Z.of_nat k));
      symmetry; [apply Nat.leb_le | apply Nat.leb_gt]; lia.
  - destruct (Z.ltb_spec (Z.of_nat k) (slice_bound len stop));
      symmetry; [apply Nat.ltb_lt | apply Nat.ltb_ge]; lia.
Qed.

Lemma length_filter_range (lo hi n : nat) :
  length (filter (fun k => (lo <=? k)%nat && (k <? hi)%nat) (seq 0 n))
  = (Nat.min hi n - lo)%nat.
Proof.
  induction n as [| n IH]; [simpl; lia |].
  rewrite seq_S, filter_app, length_app, IH. simpl.
  destruct (Nat.leb_spec lo n), (Nat.ltb_spec n hi).
  - rewrite filter_cons_True by (simpl; rewrite andb_True, !Is_true_true;
      split; [now apply Nat.leb_le | now apply Nat.ltb_lt]).
    simpl. lia.
  - rewrite filter_cons_False
      by (rewrite andb_True, !Is_true_true, Nat.ltb_lt; lia).
    simpl. lia.
  - rewrite filter_cons_False
      by (rewrite andb_True, !Is_true_true, Nat.leb_le; lia).
    simpl. lia.
  - rewrite filter_cons_False
      by (rewrite andb_True, !Is_true_true, Nat.leb_le; lia).
    simpl. lia.
Qed.

Lemma length_slice_positions (len : nat) (start stop : Z) :
  length (slice_positions len start stop)
  = (Nat.min (Z.to_nat (slice_bound (Z.of_nat len) stop)) len
     - Z.to_nat (slice_bound (Z.of_nat len) start))%nat.
Proof.
  unfold slice_positions. rewrite <- length_filter_range.
  f_equal. apply list_filter_iff. intros k. now rewrite in_slice_nat.
Qed.

Lemma slice_bound_inside (len i : Z) :
  0 <= i <= len -> slice_bound len i = i.
Proof.
  intros Hi. unfold slice_bound.
  destruct (Z.ltb_spec i 0); [lia |]. lia.
Qed.

(** A window that lies in the canvas has the size its bounds say. *)
Lemma length_slice_positions_inside (len : nat) (start size : Z) :
  0 <= start -> 0 <= size -> start + size <= Z.of_nat len ->
  length (slice_positions len start (start + size)) = Z.to_nat size.
Proof.
  intros Hs Hz Hin. rewrite length_slice_positions.
  rewrite !slice_bound_inside by lia. lia.
Qed.

Lemma in_slice_window (len start size : Z) (k : nat) :
  0 <= start -> 0 <= size -> start + size <= len ->
  in_slice len start (start + size) k
  = (start <=? Z.of_nat k) && (Z.of_nat k <? start + size).
Proof.
  intros Hs Hz Hin. unfold in_slice.
  now rewrite !slice_bound_inside by lia.
Qed.

(** *** Images *)

Lemma image_shape_dims (img : image) (H W C : nat) :
  image_shape img H W C -> (0 < H)%nat -> (0 < W)%nat ->
  img_H img = H /\ img_W img = W /\ img_C img = C.
Proof.
  intros (HH & Hrows) HH0 HW0. split; [exact HH |].
  destruct img as [| row img]; [simpl in HH; lia |].
  apply Forall_cons in Hrows as [(HW & Hpx) _]. split; [exact HW |].
  destruct row as [| px row]; [simpl in HW; lia |].
  apply Forall_cons in Hpx as [HC _]. exact HC.
Qed.

Lemma image_shape_pixel (img : image) (H W C i j : nat) :
  image_shape img H W C -> (i < H)%nat -> (j < W)%nat ->
  exists px, pixel img i j = Some px /\ length px = C.
Proof.
  intros (HH & Hrows) Hi Hj. unfold pixel, image in *.
  destruct (lookup_lt_is_Some_2 img i ltac:(lia)) as [row Hrow].
  rewrite Forall_lookup in Hrows.
  destruct (Hrows i row Hrow) as (HW & Hpx).
  destruct (lookup_lt_is_Some_2 row j ltac:(lia)) as [px Hp].
  rewrite Forall_lookup in Hpx.
  exists px. rewrite Hrow. simpl. split; [exact Hp | exact (Hpx j px Hp)].
Qed.

Lemma pixel_bounds (img : image) (H W C i j : nat) (px : list Z) :
  image_shape img H W C -> pixel img i j = Some px ->
  (i < H)%nat /\ (j < W)%nat /\ length px = C.
Proof.
  intros (HH & Hrows) Hpx. unfold pixel, image in *.
  destruct (img !! i) as [row |] eqn:Hrow; [| discriminate]. simpl in Hpx.
  rewrite Forall_lookup in Hrows.
  destruct (Hrows i row Hrow) as (HW & Hp).
  rewrite Forall_lookup in Hp.
  split; [rewrite <- HH; apply lookup_lt_is_Some; eauto |].
  split; [rewrite <- HW; apply lookup_lt_is_Some; eauto |].
  exact (Hp j px Hpx).
Qed.

Lemma image_shape_full (h w : Z) (c : nat) (v : Z) :
  image_shape (full h w c v) (Z.to_nat h) (Z.to_nat w) c.
Proof.
  unfold image_shape, full. split; [apply length_replicate |].
  apply Forall_replicate. split; [apply length_replicate |].
  apply Forall_replicate. apply length_replicate.
Qed.

Lemma pixel_full (h w : Z) (c : nat) (v : Z) (i j : nat) :
  (i < Z.to_nat h)%nat -> (j < Z.to_nat w)%nat ->
  pixel (full h w c v) i j = Some (replicate c v).
Proof.
  intros Hi Hj. unfold pixel, full, image.
  rewrite lookup_replicate_2 by exact Hi. simpl.
  now rewrite lookup_replicate_2 by exact Hj.
Qed.

(** What a slice assignment that succeeds makes of the pixel at
    [(i, j)]. *)
Lemma paste_pixel (H W C : nat) (canvas canvas' : image) (ys xs : Z * Z)
    (value : image) (i j : nat) :
  paste H W C canvas ys xs value = Ok canvas' ->
  pixel canvas' i j
  = (fun px =>
       if in_slice (Z.of_nat H) ys.1 ys.2 i
          && in_slice (Z.of_nat W) xs.1 xs.2 j
       then imap (fun k v =>
              default v
                (channel value
                   (source_index (img_H value)
                      (i - Z.to_nat (slice_bound (Z.of_nat H) ys.1)))
                   (source_index (img_W value)
                      (j - Z.to_nat (slice_bound (Z.of_nat W) xs.1)))
                   (source_index (img_C value) k))) px
       else px) <$> pixel canvas i j.
Proof.
  unfold paste. destruct (_ && _ && _); [| discriminate].
  intros [= <-]. unfold pixel, image in *. rewrite list_lookup_imap.
  destruct (canvas !! i) as [row |]; simpl; [| reflexivity].
  destruct (in_slice _ ys.1 _ i); simpl.
  - rewrite list_lookup_imap. now destruct (row !! j).
  - now destruct (row !! j).
Qed.

Lemma paste_shape (H W C : nat) (canvas canvas' : image) (ys xs : Z * Z)
    (value : image) :
  paste H W C canvas ys xs value = Ok canvas' ->
  image_shape canvas H W C -> image_shape canvas' H W C.
Proof.
  unfold paste. destruct (_ && _ && _); [| discriminate].
  intros [= <-] (HH & Hrows). unfold image_shape, image in *.
  split; [now rewrite length_imap |].
  apply Forall_lookup. intros i row Hrow.
  rewrite list_lookup_imap in Hrow.
  destruct (canvas !! i) as [row0 |] eqn:Hrow0; [| discriminate].
  simpl in Hrow. injection Hrow as <-.
  rewrite Forall_lookup in Hrows.
  destruct (Hrows i row0 Hrow0) as (HW & Hpx).
  destruct (in_slice _ ys.1 _ i); [| now split].
  split; [now rewrite length_imap |].
  apply Forall_lookup. intros j px Hp.
  rewrite list_lookup_imap in Hp.
  destruct (row0 !! j) as [px0 |] eqn:Hp0; [| discriminate].
  simpl in Hp. injection Hp as <-.
  rewrite Forall_lookup in Hpx. pose proof (Hpx j px0 Hp0) as HC.
  destruct (in_slice _ xs.1 _ j); [| exact HC].
  now rewrite length_imap.
Qed.

(** A pixel of a value with as many channels as the canvas replaces the
    pixel of the canvas. *)
Lemma imap_channels (value : image) (i j : nat) (px px0 : list Z) :
  pixel value i j = Some px ->
  length px0 = length px ->
  imap (fun k v => default v (channel value i j k)) px0 = px.
Proof.
  intros Hpx Hlen. apply list_eq. intros k.
  rewrite list_lookup_imap. unfold channel. rewrite Hpx. simpl.
  destruct (px0 !! k) as [v |] eqn:Hv; simpl.
  - destruct (lookup_lt_is_Some_2 px k) as [c Hc].
    { rewrite <- Hlen. apply lookup_lt_is_Some; eauto. }
    now rewrite Hc.
  - symmetry. apply lookup_ge_None. rewrite <- Hlen.
    now apply lookup_ge_None.
Qed.

(** The assignment of an image of three channels to a window of its size
    that lies in a canvas of one value: it succeeds, the window holds the
    image and the rest of the canvas is as before. *)
Lemma paste_full_window (value : image) (h w : nat) (oh ow : Z) (v : Z)
    (x y : Z) :
  image_shape value h w 3 ->
  (0 < h)%nat -> (0 < w)%nat ->
  0 <= x -> x + Z.of_nat w <= ow ->
  0 <= y -> y + Z.of_nat h <= oh ->
  exists canvas : image,
    paste (Z.to_nat oh) (Z.to_nat ow) 3 (full oh ow 3 v)
      (y, y + Z.of_nat h) (x, x + Z.of_nat w) value
    = Ok canvas
    /\ image_shape canvas (Z.to_nat oh) (Z.to_nat ow) 3
    /\ (forall i j px,
          pixel value i j = Some px ->
          pixel canvas (Z.to_nat y + i) (Z.to_nat x + j) = Some px)
    /\ (forall i j,
          Z.of_nat i < oh -> Z.of_nat j < ow ->
          ~ (y <= Z.of_nat i < y + Z.of_nat h
             /\ x <= Z.of_nat j < x + Z.of_nat w) ->
          pixel canvas i j = Some [v; v; v]).
Proof.
  intros Hshape Hh0 Hw0 Hx0 Hx1 Hy0 Hy1.
  destruct (image_shape_dims value h w 3 Hshape Hh0 Hw0) as (HH & HW & HC).
  destruct (paste _ _ _ _ _ _ value) as [canvas | e] eqn:Hpaste.
  2: { exfalso. unfold paste in Hpaste. cbn [fst snd] in Hpaste.
       rewrite HH, HW, HC in Hpaste.
       rewrite (length_slice_positions_inside (Z.to_nat oh) y (Z.of_nat h))
         in Hpaste by lia.
       rewrite (length_slice_positions_inside (Z.to_nat ow) x (Z.of_nat w))
         in Hpaste by lia.
       unfold broadcasts in Hpaste. rewrite !Nat2Z.id in Hpaste.
       rewrite !Nat.eqb_refl in Hpaste. discriminate. }
  exists canvas. split; [reflexivity |].
  split.
  { eapply paste_shape; [exact Hpaste | apply image_shape_full]. }
  assert (Hsrc : forall n k : nat, (0 < n)%nat -> (k < n)%nat ->
                   source_index n k = k).
  { intros n k Hn Hk. unfold source_index.
    destruct (Nat.eqb_spec n 1); [lia | reflexivity]. }
  split.
  - intros i j px Hpx.
    destruct (pixel_bounds value h w 3 i j px Hshape Hpx)
      as (Hi & Hj & Hlen).
    rewrite (paste_pixel _ _ _ _ _ _ _ _ _ _ Hpaste). cbn [fst snd].
    rewrite pixel_full by lia. simpl fmap.
    rewrite !Z2Nat.id by lia.
    rewrite (in_slice_window oh y (Z.of_nat h)) by lia.
    rewrite (in_slice_window ow x (Z.of_nat w)) by lia.
    replace ((y <=? Z.of_nat (Z.to_nat y + i))
             && (Z.of_nat (Z.to_nat y + i) <? y + Z.of_nat h)
             && ((x <=? Z.of_nat (Z.to_nat x + j))
                 && (Z.of_nat (Z.to_nat x + j) <? x + Z.of_nat w)))
      with true
      by (symmetry; rewrite !andb_true_iff; repeat split;
          [apply Z.leb_le | apply Z.ltb_lt | apply Z.leb_le
           | apply Z.ltb_lt]; lia).
    rewrite !slice_bound_inside by lia.
    replace (Z.to_nat y + i - Z.to_nat y)%nat with i by lia.
    replace (Z.to_nat x + j - Z.to_nat x)%nat with j by lia.
    rewrite HH, HW, HC. rewrite !Hsrc by lia. f_equal.
    apply (imap_channels value i j px (replicate 3 v) Hpx).
    now rewrite Hlen.
  - intros i j Hi Hj Hout'.
    rewrite (paste_pixel _ _ _ _ _ _ _ _ _ _ Hpaste). cbn [fst snd].
    rewrite pixel_full by lia. simpl fmap.
    rewrite !Z2Nat.id by lia.
    rewrite (in_slice_window oh y (Z.of_nat h)) by lia.
    rewrite (in_slice_window ow x (Z.of_nat w)) by lia.
    replace ((y <=? Z.of_nat i) && (Z.of_nat i <? y + Z.of_nat h)
             && ((x <=? Z.of_nat j) && (Z.of_nat j <? x + Z.of_nat w)))
      with false; [reflexivity |].
    symmetry. apply not_true_is_false. intros Ht. apply Hout'.
    rewrite !andb_true_iff in Ht.
    destruct Ht as ((H1 & H2) & (H3 & H4)).
    apply Z.leb_le in H1, H3. apply Z.ltb_lt in H2, H4. lia.
Qed.

Section PadImage.
Import Pad.

Lemma Pad_pad_img_window (h w : nat) (ow oh : Z) :
  Z.of_nat w <= ow -> Z.of_nat h <= oh ->
  let x := (ow - Z.of_nat w) / 2 in
  let y := (oh - Z.of_nat h) / 2 in
  (0 <= x /\ x + Z.of_nat w <= ow) /\ (0 <= y /\ y + Z.of_nat h <= oh).
Proof.
  intros Hw Hh x y.
  pose proof (Z.div_mod (ow - Z.of_nat w) 2 ltac:(lia)).
  pose proof (Z.mod_pos_bound (ow - Z.of_nat w) 2 ltac:(lia)).
  pose proof (Z.div_mod (oh - Z.of_nat h) 2 ltac:(lia)).
  pose proof (Z.mod_pos_bound (oh - Z.of_nat h) 2 ltac:(lia)).
  unfold x, y. lia.
Qed.

(** X24. [Pad.pad_img] on an image of three channels that fits into the
    target size [(ow, oh)]: the result is a canvas of shape [(oh, ow, 3)]
    that holds the image with its top left corner at [(x, y) = ((ow - w) //
    2, (oh - h) // 2)] and the padding value in every channel of every other
    pixel; the offsets are kept in the object, and the margins on opposite
    sides differ by one pixel at most. *)
Theorem Pad_pad_img_centred (self : Pad.t) (img : image) (h w : nat)
    (ow oh : Z) :
  out_size self = (ow, oh) ->
  image_shape img h w 3 ->
  (0 < h)%nat -> (0 < w)%nat ->
  Z.of_nat w <= ow -> Z.of_nat h <= oh ->
  let x := (ow - Z.of_nat w) / 2 in
  let y := (oh - Z.of_nat h) / 2 in
  exists canvas : image,
    Pad_pad_img self img
    = Ok ({| out_size := out_size self; pad_val := pad_val self;
             x := Some x; y := Some y |}, canvas)
    /\ image_shape canvas (Z.to_nat oh) (Z.to_nat ow) 3
    /\ (forall i j px,
          pixel img i j = Some px ->
          pixel canvas (Z.to_nat y + i) (Z.to_nat x + j) = Some px)
    /\ (forall i j,
          Z.of_nat i < oh -> Z.of_nat j < ow ->
          ~ (y <= Z.of_nat i < y + Z.of_nat h
             /\ x <= Z.of_nat j < x + Z.of_nat w) ->
          pixel canvas i j
          = Some [pad_val self; pad_val self; pad_val self])
    /\ (0 <= x /\ x <= ow - Z.of_nat w - x <= x + 1)
    /\ (0 <= y /\ y <= oh - Z.of_nat h - y <= y + 1).
Proof.
  intros Hout Hshape Hh0 Hw0 Hw Hh x y.
  destruct (image_shape_dims img h w 3 Hshape Hh0 Hw0) as (HH & HW & HC).
  destruct (Pad_pad_img_window h w ow oh Hw Hh) as ((Hx0 & Hx1) & (Hy0 & Hy1)).
  fold x in Hx0, Hx1. fold y in Hy0, Hy1.
  destruct (paste_full_window img h w oh ow (pad_val self) x y Hshape
              Hh0 Hw0 Hx0 Hx1 Hy0 Hy1)
    as (canvas & Hpaste & Hcanvas & Hin & Hrest).
  exists canvas. split.
  { unfold Pad_pad_img. rewrite Hout, HH, HW.
    replace ((ow >=? Z.of_nat w) && (oh >=? Z.of_nat h)) with true
      by (symmetry; rewrite !Z.geb_leb; apply andb_true_iff;
          split; apply Z.leb_le; lia).
    fold x y. now rewrite Hpaste. }
  split; [exact Hcanvas |]. split; [exact Hin |]. split; [exact Hrest |].
  pose proof (Z.div_mod (ow - Z.of_nat w) 2 ltac:(lia)).
  pose proof (Z.mod_pos_bound (ow - Z.of_nat w) 2 ltac:(lia)).
  pose proof (Z.div_mod (oh - Z.of_nat h) 2 ltac:(lia)).
  pose proof (Z.mod_pos_bound (oh - Z.of_nat h) 2 ltac:(lia)).
  unfold x, y. lia.
Qed.

(** X25. [Pad.pad_img] on an image that fits but has neither one nor three
    channels, four as with an alpha channel for instance: the canvas has
    three, the assignment of the image to its window raises [ValueError]. *)
Theorem Pad_pad_img_channels (self : Pad.t) (img : image) (h w c : nat)
    (ow oh : Z) :
  out_size self = (ow, oh) ->
  image_shape img h w c ->
  (0 < h)%nat -> (0 < w)%nat ->
  Z.of_nat w <= ow -> Z.of_nat h <= oh ->
  c <> 1%nat -> c <> 3%nat ->
  Pad_pad_img self img = Raise ValueError.
Proof.
  intros Hout Hshape Hh0 Hw0 Hw Hh Hc1 Hc3.
  destruct (image_shape_dims img h w c Hshape Hh0 Hw0) as (HH & HW & HC).
  unfold Pad_pad_img. rewrite Hout, HH, HW.
  replace ((ow >=? Z.of_nat w) && (oh >=? Z.of_nat h)) with true
    by (symmetry; rewrite !Z.geb_leb; apply andb_true_iff;
        split; apply Z.leb_le; lia).
  unfold paste. rewrite HC.
  replace (broadcasts c 3) with false; [now rewrite andb_false_r |].
  symmetry. unfold broadcasts. apply orb_false_iff.
  split; apply Nat.eqb_neq; congruence.
Qed.

End PadImage.

(** ** resize.py: the size of the resized image and the scale of the
    boxes *)

Lemma Ztrunc_between (x : R) (lo hi : Z) :
  (0 <= x)%R -> (IZR lo <= x)%R -> (x < IZR hi + 1)%R ->
  0 <= Ztrunc x /\ lo <= Ztrunc x <= hi.
Proof.
  intros H0 Hlo Hhi. unfold Ztrunc.
  destruct (Rlt_dec x 0) as [Hneg | _]; [lra |].
  split; [apply (Zfloor_lub 0); exact H0 |].
  split; [now apply Zfloor_lub |].
  pose proof (Zfloor_bound x) as [Hfl _].
  assert (Hlt : (IZR (Zfloor x) < IZR (hi + 1))%R)
    by (rewrite plus_IZR; lra).
  apply lt_IZR in Hlt. lia.
Qed.

Section ResizeSizes.
Context `{StandardModel}.
Local Open Scope R_scope.

(** A value within three roundings of a whole number [t] that is not too
    large lies between [t - 1] and [t + 1]. *)
Lemma three_roundings_window (t x : R) :
  0 <= t -> t * ((1 + u) ^ 3 - 1) < 1 -> near u 3 t x ->
  0 <= x /\ t - 1 <= x /\ x < t + 1.
Proof.
  intros Ht Hsmall (f & -> & Hlo & Hhi).
  pose proof (pow_one_plus_u 3) as Hp.
  pose proof (inv_pow_bounds 3) as [Hq0 Hq1].
  assert (Hpq : (1 + u) ^ 3 * / (1 + u) ^ 3 = 1) by (apply Rinv_r; lra).
  set (p := (1 + u) ^ 3) in *. set (q := / p) in *.
  assert (Hup : t * f <= t * p) by (apply Rmult_le_compat_l; lra).
  assert (Hdown : t * q <= t * f) by (apply Rmult_le_compat_l; lra).
  assert (Hq : 1 - q <= p - 1) by nra.
  assert (Htq : t * (1 - q) <= t * (p - 1))
    by (apply Rmult_le_compat_l; lra).
  split; [apply Rmult_le_pos; lra |]. split; lra.
Qed.

(** The sizes that [resize_img] computes from the scale of one dimension,
    when that scale is not the larger one: the size in that dimension
    misses the target by less than a pixel, the size in the other
    dimension does not exceed it. *)
Lemma resize_sizes (t1 n1 t2 n2 : Z) :
  (0 <= t1)%Z -> (0 < n1)%Z -> (0 <= t2)%Z -> (0 < n2)%Z ->
  IZR t1 * ((1 + u) ^ 3 - 1) < 1 ->
  IZR t2 * ((1 + u) ^ 3 - 1) < 1 ->
  let s1 := rnd float64 (IZR t1 / IZR n1) in
  let s2 := rnd float64 (IZR t2 / IZR n2) in
  s1 <= s2 ->
  ((0 <= Ztrunc (py_mul s1 (of_int n1)))%Z
   /\ (t1 - 1 <= Ztrunc (py_mul s1 (of_int n1)) <= t1)%Z)
  /\ (0 <= Ztrunc (py_mul s1 (of_int n2)) <= t2)%Z.
Proof.
  intros Ht1 Hn1 Ht2 Hn2 Hsmall1 Hsmall2 s1 s2 Hle.
  assert (HT1 : 0 <= IZR t1) by now apply IZR_le.
  assert (HT2 : 0 <= IZR t2) by now apply IZR_le.
  assert (HN1 : 0 < IZR n1) by now apply IZR_lt.
  assert (HN2 : 0 < IZR n2) by now apply IZR_lt.
  assert (Hs1 : near u 1 (IZR t1 / IZR n1) s1)
    by (apply near_rnd, near_refl).
  assert (Hs2 : near u 1 (IZR t2 / IZR n2) s2)
    by (apply near_rnd, near_refl).
  split.
  - assert (Hx : near u 3 (IZR t1) (py_mul s1 (of_int n1))).
    { replace (IZR t1) with (IZR t1 / IZR n1 * IZR n1) by (field; lra).
      unfold py_mul. apply near_rnd.
      apply (near_mul 1 1); [exact Hs1 | apply near_of_int]. }
    destruct (three_roundings_window _ _ HT1 Hsmall1 Hx)
      as (Hx0 & Hxlo & Hxhi).
    apply Ztrunc_between; [exact Hx0 | rewrite minus_IZR; exact Hxlo
                          | exact Hxhi].
  - unfold py_mul.
    destruct (rnd_factor float64 (s1 * of_int n2)) as (f3 & Hx & Hf3).
    rewrite Hx.
    pose proof (near_of_int n2) as (g2 & Hg2 & Hg2lo & _).
    pose proof (inv_pow_bounds 1) as [Hq0 _].
    pose proof one_plus_u_pos as Hpos.
    assert (Hf3pos : 0 < f3).
    { apply Rlt_le_trans with (/ (1 + u)); [| apply Hf3].
      now apply Rinv_0_lt_compat. }
    assert (Hint : 0 <= of_int n2).
    { rewrite Hg2. apply Rmult_le_pos; lra. }
    assert (Hs1pos : 0 <= s1).
    { destruct Hs1 as (f1 & Hf1 & Hf1lo & _). rewrite Hf1.
      apply Rmult_le_pos; [| lra].
      apply Rmult_le_pos; [lra |].
      apply Rlt_le. now apply Rinv_0_lt_compat. }
    assert (Hy : near u 3 (IZR t2) (s2 * of_int n2 * f3)).
    { replace (IZR t2) with (IZR t2 / IZR n2 * IZR n2 * 1) by (field; lra).
      apply (near_mul 2 1).
      - apply (near_mul 1 1); [exact Hs2 | apply near_of_int].
      - exists f3. split; [ring |]. simpl. now rewrite Rmult_1_r. }
    destruct (three_roundings_window _ _ HT2 Hsmall2 Hy) as (_ & _ & Hyhi).
    assert (Hcmp : s1 * of_int n2 * f3 <= s2 * of_int n2 * f3).
    { apply Rmult_le_compat_r; [lra |].
      apply Rmult_le_compat_r; [exact Hint | exact Hle]. }
    assert (Hx0 : 0 <= s1 * of_int n2 * f3).
    { apply Rmult_le_pos; [| lra]. now apply Rmult_le_pos. }
    destruct (Ztrunc_between (s1 * of_int n2 * f3) 0 t2 Hx0 Hx0
                ltac:(lra)) as (Hres0 & _ & Hreshi).
    split; [exact Hres0 | exact Hreshi].
Qed.

End ResizeSizes.

Section Resize.
Context `{MoreImageOps}.
Import Resize.

(** X26. [Resize.resize_img] with [keep_ratio] on an image of width [w]
    and height [h] and for a target [(tw, th)], under the standard model
    of rounding and for targets small enough that three roundings move
    them by less than one: the scale stored is the smaller one of the
    rounded quotients [tw / w] and [th / h], the size asked of
    [cv2.resize] fits into the target, and it misses the target by less
    than one pixel in the width or in the height. It can miss by one
    pixel, since [int] drops the fraction of a product that rounding has
    left just below the target. *)
Theorem Resize_resize_img_fits `{StandardModel} (self : Resize.t)
    (img : image) (tw th : Z) :
  img_scale self = (tw, th) ->
  keep_ratio self = true ->
  (0 < img_H img)%nat -> (0 < img_W img)%nat ->
  0 <= tw -> 0 <= th ->
  (IZR tw * ((1 + u) ^ 3 - 1) < 1)%R ->
  (IZR th * ((1 + u) ^ 3 - 1) < 1)%R ->
  let w := Z.of_nat (img_W img) in
  let h := Z.of_nat (img_H img) in
  exists (ow oh : Z),
    Resize_resize_img self img
    = Ok ({| img_scale := img_scale self; keep_ratio := keep_ratio self;
             scale_factor :=
               Some (PyFloat (py_min (rnd float64 (IZR tw / IZR w))
                                (rnd float64 (IZR th / IZR h)))) |},
          cv2_resize img (ow, oh) cv2.INTER_LINEAR)
    /\ 0 <= ow <= tw /\ 0 <= oh <= th
    /\ (tw - 1 <= ow \/ th - 1 <= oh).
Proof.
  intros Hscale Hkeep HH HW Htw Hth Hsw Hsh w h.
  assert (Hw : 0 < w) by (unfold w; lia).
  assert (Hh : 0 < h) by (unfold h; lia).
  unfold Resize_resize_img. rewrite Hscale, Hkeep. fold w h.
  unfold py_truediv_int.
  destruct (Z.eqb_spec w 0) as [E | _]; [lia |].
  destruct (Z.eqb_spec h 0) as [E | _]; [lia |].
  eexists _, _. split; [reflexivity |].
  unfold py_min.
  destruct (Rlt_dec (rnd float64 (IZR th / IZR h))
              (rnd float64 (IZR tw / IZR w))) as [Hlt | Hge].
  - destruct (resize_sizes th h tw w Hth Hh Htw Hw Hsh Hsw
                (Rlt_le _ _ Hlt)) as ((Hh0 & Hhlo & Hhhi) & Hw0 & Hwhi).
    repeat split; try assumption. now right.
  - destruct (resize_sizes tw w th h Htw Hw Hth Hh Hsw Hsh
                (Rnot_lt_le _ _ Hge)) as ((Hw0 & Hwlo & Hwhi) & Hh0 & Hhhi).
    repeat split; try assumption. now left.
Qed.

(** X27. Without [keep_ratio], [Resize.resize_img] asks [cv2.resize] for the
    target size as it is and sets the scale factor to 1, so that in exact
    arithmetic [resize_boxes] returns a new array equal to the boxes it was
    given: the boxes do not follow the image. *)
Theorem Resize_resize_boxes_unscaled (self : Resize.t) (img : image)
    (s : store) (boxes : loc) (a : ndarray) :
  keep_ratio self = false ->
  s !! boxes = Some a ->
  let self' := {| img_scale := img_scale self;
                  keep_ratio := keep_ratio self;
                  scale_factor := Some (PyInt 1) |} in
  exists new : loc,
    @Resize_resize_img exact _ self img
    = Ok (self', cv2_resize img (img_scale self) cv2.INTER_LINEAR)
    /\ @Resize_resize_boxes exact self' boxes s = (Ok new, <[new := a]> s)
    /\ s !! new = None.
Proof.
  intros Hkeep Hl self'. exists (fresh (dom s)). split.
  { unfold Resize_resize_img, self'. destruct (img_scale self) as [tw th].
    rewrite Hkeep. reflexivity. }
  split; [| apply fresh_unbound].
  unfold Resize_resize_boxes.
  rewrite (bind_run _ _ _ _ _ (load_run _ _ _ Hl)).
  cbn [scale_factor getattr]. unfold lift at 1. unfold bind at 1.
  unfold alloc. do 2 f_equal.
  apply ndarray_eq; [reflexivity | reflexivity |]. simpl.
  rewrite <- (map_id (rows a)) at 2. apply map_ext. intros r.
  rewrite <- (map_id r) at 2. apply map_ext. intros v.
  unfold fmul. simpl. ring.
Qed.



End Resize.

(** ** LetterboxTransform.apply_image *)

Section LetterboxImage.
Context `{Rounding} `{MoreImageOps}.
Import LetterboxTransform.

(** X29. [LetterboxTransform.apply_image] when [cv2.resize] returns an image
    of three channels of the size [(sw, sh)] asked for, and the window of
    that size at [(dx, dy)] lies in the target: the result has the target
    size, holds the resized image with its top left corner at [(dx, dy)],
    and the value 114 in every channel of every other pixel. *)
Theorem LetterboxTransform_apply_image_window (self : LetterboxTransform.t)
    (img : image) (out_w out_h : Z) (sh sw : nat) :
  target_size self = (out_w, out_h) ->
  Ztrunc (py_mul (scale self) (of_int (Z.of_nat (img_W img))))
  = Z.of_nat sw ->
  Ztrunc (py_mul (scale self) (of_int (Z.of_nat (img_H img))))
  = Z.of_nat sh ->
  let resized :=
    cv2_resize img (Z.of_nat sw, Z.of_nat sh) cv2.INTER_LINEAR in
  image_shape resized sh sw 3 ->
  (0 < sh)%nat -> (0 < sw)%nat ->
  0 <= dx self -> dx self + Z.of_nat sw <= out_w ->
  0 <= dy self -> dy self + Z.of_nat sh <= out_h ->
  exists out : image,
    LetterboxTransform_apply_image self img = Ok out
    /\ image_shape out (Z.to_nat out_h) (Z.to_nat out_w) 3
    /\ (forall i j px,
          pixel resized i j = Some px ->
          pixel out (Z.to_nat (dy self) + i) (Z.to_nat (dx self) + j)
          = Some px)
    /\ (forall i j,
          Z.of_nat i < out_h -> Z.of_nat j < out_w ->
          ~ (dy self <= Z.of_nat i < dy self + Z.of_nat sh
             /\ dx self <= Z.of_nat j < dx self + Z.of_nat sw) ->
          pixel out i j = Some [114; 114; 114]).
Proof.
  intros Htarget Hsw Hsh resized Hshape Hh0 Hw0 Hx0 Hx1 Hy0 Hy1.
  destruct (paste_full_window resized sh sw out_h out_w 114
              (dx self) (dy self) Hshape Hh0 Hw0 Hx0 Hx1 Hy0 Hy1)
    as (out & Hpaste & Hout & Hin & Hrest).
  exists out. split; [| split; [exact Hout | split; [exact Hin | exact Hrest]]].
  unfold LetterboxTransform_apply_image. rewrite Htarget, Hsw, Hsh.
  destruct (Z.ltb_spec out_h 0) as [Hneg | _]; [lia |].
  destruct (Z.ltb_spec out_w 0) as [Hneg | _]; [lia |].
  exact Hpaste.
Qed.

(** X30. [LetterboxTransform.apply_image] when the resized image, of at
    least two columns, starts in the target but reaches beyond its right
    edge: the window is cut at the edge, the resized image does not fit it,
    and the assignment raises [ValueError]. *)
Theorem LetterboxTransform_apply_image_overflow
    (self : LetterboxTransform.t) (img : image) (out_w out_h : Z)
    (sh sw : nat) :
  target_size self = (out_w, out_h) ->
  Ztrunc (py_mul (scale self) (of_int (Z.of_nat (img_W img))))
  = Z.of_nat sw ->
  Ztrunc (py_mul (scale self) (of_int (Z.of_nat (img_H img))))
  = Z.of_nat sh ->
  image_shape (cv2_resize img (Z.of_nat sw, Z.of_nat sh) cv2.INTER_LINEAR)
    sh sw 3 ->
  (0 < sh)%nat -> (2 <= sw)%nat ->
  0 <= out_h ->
  0 <= dx self <= out_w ->
  out_w < dx self + Z.of_nat sw ->
  LetterboxTransform_apply_image self img = Raise ValueError.
Proof.
  intros Htarget Hsw Hsh Hshape Hh0 Hw2 Hout_h Hdx Hover.
  destruct (image_shape_dims _ sh sw 3 Hshape Hh0 ltac:(lia))
    as (HH & HW & HC).
  unfold LetterboxTransform_apply_image. rewrite Htarget, Hsw, Hsh.
  destruct (Z.ltb_spec out_h 0) as [Hneg | _]; [lia |].
  destruct (Z.ltb_spec out_w 0) as [Hneg | _]; [lia |].
  simpl orb. cbv iota. unfold paste. cbn [fst snd].
  rewrite HW.
  replace (broadcasts sw _) with false;
    [now rewrite andb_false_r |].
  symmetry. rewrite length_slice_positions. rewrite Z2Nat.id by lia.
  unfold slice_bound.
  destruct (Z.ltb_spec (dx self + Z.of_nat sw) 0); [lia |].
  destruct (Z.ltb_spec (dx self) 0); [lia |].
  unfold broadcasts. apply orb_false_iff.
  split; apply Nat.eqb_neq; lia.
Qed.

End LetterboxImage.

(** ** The further theorems at sample inputs *)

Lemma has_shape_centre_point : has_shape centre_point 1 2.
Proof. repeat split. repeat constructor. Qed.

Lemma has_shape_two_points : has_shape two_points 2 2.
Proof. repeat split. repeat constructor. Qed.

Lemma has_shape_one_corner_box : has_shape one_corner_box 1 4.
Proof. repeat split. repeat constructor. Qed.

Lemma quarter_turn_no_full_turn (k : Z) : 90%R <> (360 * IZR k)%R.
Proof.
  intros Hk. rewrite <- mult_IZR in Hk. apply eq_IZR in Hk. lia.
Qed.

Lemma LetterboxTransform_apply_coords_points_witness :
  exists (new : loc) (b : ndarray),
    @LetterboxTransform_apply_coords exact letterbox_twice 1%positive
      (store_of one_point)
    = (Ok new, <[new := b]> (store_of one_point))
    /\ has_shape b 1 2
    /\ rows b !! 0%nat = Some [(20 * 2 + 3)%R; (10 * 2 + 4)%R].
Proof.
  destruct (@LetterboxTransform_apply_coords_points exact letterbox_twice
              (store_of one_point) 1%positive one_point 1%nat
              (store_of_lookup one_point) has_shape_one_point)
    as (new & b & Hrun & _ & Hshape & Hrows).
  exists new, b. split; [exact Hrun |]. split; [exact Hshape |].
  exact (Hrows 0%nat 20%R 10%R eq_refl).
Defined.

Lemma ExtentTransform_apply_coords_exact_witness :
  exists (new : loc) (b : ndarray),
    @ExtentTransform_apply_coords exact extent_sample 1%positive
      (store_of one_point)
    = (Ok new, <[new := b]> (store_of one_point))
    /\ rows b !! 0%nat
       = Some [((20 - 10) * (200 / (50 - 10)))%R;
               ((10 - 20) * (100 / (40 - 20)))%R].
Proof.
  destruct (@ExtentTransform_apply_coords_exact extent_sample
              (store_of one_point) 1%positive one_point 1%nat
              10%R 20%R 50%R 40%R 100 200 eq_refl eq_refl
              ltac:(lra) ltac:(lra)
              (store_of_lookup one_point) has_shape_one_point)
    as (new & b & Hrun & _ & Hrows & _).
  exists new, b. split; [exact Hrun |].
  exact (Hrows 0%nat 20%R 10%R eq_refl).
Defined.

Lemma ResizeTransform_apply_coords_twice_witness :
  exists (s1 s2 : store) (a2 : ndarray),
    @ResizeTransform_apply_coords exact halving 1%positive
      (store_of one_point) = (Ok 1%positive, s1)
    /\ @ResizeTransform_apply_coords exact shrinking_further 1%positive s1
       = (Ok 1%positive, s2)
    /\ s2 !! 1%positive = Some a2
    /\ has_shape a2 1 2.
Proof.
  destruct (@ResizeTransform_apply_coords_twice exact _ exact_standard_model
              halving shrinking_further (store_of one_point) 1%positive
              one_point 1%nat
              ltac:(simpl; lia) ltac:(simpl; lia) ltac:(simpl; lia)
              ltac:(simpl; lia) eq_refl eq_refl
              (store_of_lookup one_point) has_shape_one_point)
    as (s1 & s2 & a2 & H1 & H2 & H3 & H4 & _).
  now exists s1, s2, a2.
Defined.

Lemma HFlip_rotated_box_involution_witness :
  exists s1 : store,
    @HFlip_rotated_box exact flip_100 1%positive (store_of one_box)
    = (Ok 1%positive, s1)
    /\ @HFlip_rotated_box exact flip_100 1%positive s1
       = (Ok 1%positive, store_of one_box).
Proof.
  exact (HFlip_rotated_box_involution flip_100 (store_of one_box)
           1%positive one_box 1%nat (store_of_lookup one_box)
           has_shape_one_box).
Defined.

Lemma Resize_rotated_box_uniform_witness :
  exists a' : ndarray,
    @Resize_rotated_box exact halving 1%positive (store_of one_box)
    = (Ok 1%positive, <[1%positive := a']> (store_of one_box))
    /\ exists ang' : R,
         rows a' !! 0%nat
         = Some [(30 * (50 / 100))%R; (50 * (50 / 100))%R;
                 (20 * (50 / 100))%R; (10 * (50 / 100))%R; ang']
         /\ ang' = 0%R.
Proof.
  destruct (Resize_rotated_box_uniform halving (store_of one_box)
              1%positive one_box 1%nat
              ltac:(simpl; lia) ltac:(simpl; lia) ltac:(simpl; lia)
              ltac:(reflexivity)
              (store_of_lookup one_box) has_shape_one_box)
    as (a' & Hrun & Hrows).
  exists a'. split; [exact Hrun |].
  destruct (Hrows 0%nat 30%R 50%R 20%R 10%R 0%R eq_refl)
    as (ang' & Hrow & Hang).
  exists ang'. split; [exact Hrow |]. apply Hang. lra.
Defined.

Lemma Resize_rotated_box_axis_aligned_witness :
  exists a' : ndarray,
    @Resize_rotated_box exact halving 1%positive (store_of one_box)
    = (Ok 1%positive, <[1%positive := a']> (store_of one_box))
    /\ rows a' !! 0%nat
       = Some [(30 * (50 / 100))%R; (50 * (25 / 50))%R;
               (20 * (50 / 100))%R; (10 * (25 / 50))%R; 0%R].
Proof.
  destruct (Resize_rotated_box_axis_aligned halving (store_of one_box)
              1%positive one_box 1%nat
              ltac:(simpl; lia) ltac:(simpl; lia) ltac:(simpl; lia)
              ltac:(simpl; lia)
              (store_of_lookup one_box) has_shape_one_box)
    as (a' & Hrun & Hrows).
  exists a'. split; [exact Hrun |].
  exact (Hrows 0%nat 30%R 50%R 20%R 10%R eq_refl).
Defined.

Lemma RotationTransform_centre_to_canvas_centre_witness :
  exists (new : loc) (s' : store) (b : ndarray),
    @RotationTransform_apply_coords exact quarter_turn_expanded 1%positive
      (store_of centre_point) = (Ok new, s')
    /\ s' !! new = Some b
    /\ rows b !! 0%nat
       = Some [(IZR (RotationTransform.bound_w quarter_turn_expanded) / 2)%R;
               (IZR (RotationTransform.bound_h quarter_turn_expanded) / 2)%R].
Proof.
  destruct (RotationTransform_centre_to_canvas_centre 4 6 90 None None
              (store_of centre_point) 1%positive centre_point 1%nat
              quarter_turn_no_full_turn (store_of_lookup centre_point)
              has_shape_centre_point ltac:(lia))
    as (new & s' & b & Hrun & Hb & Hrow).
  exists new, s', b. split; [exact Hrun |]. split; [exact Hb |].
  apply Hrow. simpl. do 2 f_equal; [lra | f_equal; lra].
Defined.

Lemma RotationTransform_centre_fixed_witness :
  exists (new : loc) (s' : store) (b : ndarray),
    @RotationTransform_apply_coords exact quarter_turn_cropped 1%positive
      (store_of centre_point) = (Ok new, s')
    /\ s' !! new = Some b
    /\ rows b !! 0%nat
       = Some [(RotationTransform.center quarter_turn_cropped).1;
               (RotationTransform.center quarter_turn_cropped).2].
Proof.
  destruct (RotationTransform_centre_fixed 4 6 90 None None
              (store_of centre_point) 1%positive centre_point 1%nat
              quarter_turn_no_full_turn (store_of_lookup centre_point)
              has_shape_centre_point ltac:(lia))
    as (new & s' & b & Hrun & Hb & Hrow).
  exists new, s', b. split; [exact Hrun |]. split; [exact Hb |].
  apply Hrow. simpl. do 2 f_equal; [lra | f_equal; lra].
Defined.

Lemma RotationTransform_apply_coords_isometry_witness :
  exists (new : loc) (s' : store) (b : ndarray),
    @RotationTransform_apply_coords exact quarter_turn_expanded 1%positive
      (store_of two_points) = (Ok new, s')
    /\ s' !! new = Some b
    /\ exists x1' y1' x2' y2' : R,
         rows b !! 0%nat = Some [x1'; y1']
         /\ rows b !! 1%nat = Some [x2'; y2']
         /\ ((x1' - x2') * (x1' - x2') + (y1' - y2') * (y1' - y2')
             = (0 - 3) * (0 - 3) + (0 - 4) * (0 - 4))%R.
Proof.
  destruct (RotationTransform_apply_coords_isometry 4 6 90 true None None
              (store_of two_points) 1%positive two_points 2%nat
              quarter_turn_no_full_turn (store_of_lookup two_points)
              has_shape_two_points ltac:(lia))
    as (new & s' & b & Hrun & Hb & Hrow).
  exists new, s', b. split; [exact Hrun |]. split; [exact Hb |].
  exact (Hrow 0%nat 1%nat 0%R 0%R 3%R 4%R eq_refl eq_refl).
Defined.

Lemma convert_value_brightness_saturates_witness :
  @convert_value exact (PyInt 1) (PyFloat (IZR 100)) 200
  = Z.max 0 (Z.min 255 (200 + 100)).
Proof.
  exact (convert_value_brightness_saturates 100 200 ltac:(lia)).
Defined.

Lemma distort_hsv_hue_shifts_add_witness :
  @distort_hsv exact hue_plus_160 (@distort_hsv exact hue_plus_200 sevens)
  = @distort_hsv exact hue_plus_360 sevens
  /\ channel (@distort_hsv exact hue_plus_360 sevens) 0 0 0 = Some 7.
Proof.
  split.
  - exact (proj1 (@distort_hsv_hue_shifts_add exact hue_plus_200 hue_plus_160
                    hue_plus_360 200 160 sevens eq_refl eq_refl eq_refl
                    eq_refl eq_refl eq_refl)).
  - exact (proj2 (@distort_hsv_hue_shifts_add exact hue_plus_360 hue_plus_360
                    {| ColorDistortTransform.alpha := None;
                       ColorDistortTransform.beta := None;
                       ColorDistortTransform.h_delta := Some (360 + 360);
                       ColorDistortTransform.s_alpha := None |}
                    360 360 sevens eq_refl eq_refl eq_refl
                    eq_refl eq_refl eq_refl)
             2 0%nat 0%nat 7 eq_refl ltac:(lia) eq_refl).
Defined.

Lemma CutoutTransform_apply_image_never_last_witness :
  pixel (CutoutTransform_apply_image cutout_1155 sevens) 2 2 = Some [7].
Proof.
  exact (CutoutTransform_apply_image_never_last cutout_1155 sevens
           2%nat 2%nat [7] eq_refl (or_introl eq_refl)).
Defined.

Lemma CutoutTransform_apply_image_inside_witness :
  pixel (CutoutTransform_apply_image cutout_0011 sevens) 0 0 = Some [0]
  /\ pixel (CutoutTransform_apply_image cutout_0011 sevens) 1 1 = Some [7].
Proof.
  split.
  - exact (CutoutTransform_apply_image_inside cutout_0011 sevens 0 0 1 1
             0%nat 0%nat [7] eq_refl ltac:(lia) ltac:(lia) ltac:(lia)
             ltac:(lia) ltac:(simpl; lia) ltac:(simpl; lia) eq_refl).
  - exact (CutoutTransform_apply_image_inside cutout_0011 sevens 0 0 1 1
             1%nat 1%nat [7] eq_refl ltac:(lia) ltac:(lia) ltac:(lia)
             ltac:(lia) ltac:(simpl; lia) ltac:(simpl; lia) eq_refl).
Defined.

Lemma PerspectiveTransform_apply_coords_points_witness :
  exists (new : loc) (b : ndarray),
    @PerspectiveTransform_apply_coords exact perspective_identity 1%positive
      (store_of one_point)
    = (Ok new, <[new := b]> (store_of one_point))
    /\ store_of one_point !! new = None
    /\ has_shape b 1 2.
Proof.
  destruct (@PerspectiveTransform_apply_coords_points exact
              perspective_identity (store_of one_point) 1%positive
              one_point 1%nat 1 0 0 0 1 0 0 0 1 eq_refl
              (store_of_lookup one_point) has_shape_one_point ltac:(lia))
    as (new & b & Hrun & Hnew & _ & Hshape & _).
  now exists new, b.
Defined.

Lemma PerspectiveTransform_affine_matrix_witness :
  exists (new : loc) (b : ndarray),
    @PerspectiveTransform_apply_coords exact perspective_identity 1%positive
      (store_of one_point)
    = (Ok new, <[new := b]> (store_of one_point))
    /\ rows b !! 0%nat
       = Some [(1 * 20 + 0 * 10 + 0)%R; (0 * 20 + 1 * 10 + 0)%R].
Proof.
  destruct (PerspectiveTransform_affine_matrix perspective_identity
              (store_of one_point) 1%positive one_point 1%nat
              1 0 0 0 1 0 eq_refl
              (store_of_lookup one_point) has_shape_one_point ltac:(lia))
    as (new & b & Hrun & Hrows).
  exists new, b. split; [exact Hrun |].
  exact (Hrows 0%nat 20%R 10%R eq_refl).
Defined.

Lemma image_shape_two_pixels : image_shape two_pixels 1 2 3.
Proof. split; [reflexivity |]. repeat constructor. Qed.

Lemma image_shape_rgba_pixel : image_shape rgba_pixel 1 1 4.
Proof. split; [reflexivity |]. repeat constructor. Qed.

Lemma letterbox_twice_width :
  Ztrunc (@py_mul exact 2 (@of_int exact (Z.of_nat (img_W two_pixels))))
  = Z.of_nat 4.
Proof.
  change (Ztrunc (IZR 2 * IZR 2) = 4). rewrite <- mult_IZR.
  apply (Ztrunc_IZR (2 * 2)).
Qed.

Lemma letterbox_twice_height :
  Ztrunc (@py_mul exact 2 (@of_int exact (Z.of_nat (img_H two_pixels))))
  = Z.of_nat 2.
Proof.
  change (Ztrunc (IZR 2 * IZR 1) = 2). rewrite <- mult_IZR.
  apply (Ztrunc_IZR (2 * 1)).
Qed.

Lemma RandomFlip_flip_boxes_boxes_witness :
  exists (new : loc) (a' : ndarray),
    @RandomFlip_flip_boxes exact flip_seen_100 1%positive
      (store_of one_corner_box)
    = (Ok new, <[new := a']> (store_of one_corner_box))
    /\ rows a' !! 0%nat = Some [(100 - 30)%R; 20%R; (100 - 10)%R; 40%R].
Proof.
  destruct (@RandomFlip_flip_boxes_boxes exact flip_seen_100 100
              (store_of one_corner_box) 1%positive one_corner_box 1%nat
              eq_refl (store_of_lookup one_corner_box)
              has_shape_one_corner_box)
    as (new & a' & Hrun & _ & _ & _ & Hrows).
  exists new, a'. split; [exact Hrun |].
  exact (Hrows 0%nat 10%R 20%R 30%R 40%R eq_refl).
Defined.

Lemma RandomFlip_flip_boxes_points_witness :
  @RandomFlip_flip_boxes exact flip_seen_100 1%positive (store_of one_point)
  = (Raise ValueError,
     <[fresh (dom (store_of one_point)) := one_point]> (store_of one_point)).
Proof.
  exact (@RandomFlip_flip_boxes_points exact flip_seen_100 100
           (store_of one_point) 1%positive one_point eq_refl
           (store_of_lookup one_point) (or_intror eq_refl)).
Defined.

Lemma RandomFlip_flip_boxes_involution_witness :
  exists (new1 new2 : loc) (s1 : store),
    @RandomFlip_flip_boxes exact flip_seen_100 1%positive
      (store_of one_corner_box) = (Ok new1, s1)
    /\ @RandomFlip_flip_boxes exact flip_seen_100 new1 s1
       = (Ok new2, <[new2 := one_corner_box]> s1).
Proof.
  exact (RandomFlip_flip_boxes_involution flip_seen_100 100
           (store_of one_corner_box) 1%positive one_corner_box 1%nat
           eq_refl (store_of_lookup one_corner_box)
           has_shape_one_corner_box).
Defined.

Lemma RandomFlip_call_batch_last_width_witness :
  exists (self' : RandomFlip.t) (news : list loc) (s' : store),
    @RandomFlip_call exact sample_image_ops 0 (RandomFlip_init (1 / 2))
      (Batch [sevens; two_pixels] (Some [1%positive]))
      (store_of one_corner_box)
    = (Ok (self',
           Batch (map (fun x => @cv2_flip sample_image_ops x 1)
                    [sevens; two_pixels]) (Some news)), s')
    /\ RandomFlip.w self' = Some 2
    /\ exists (new : loc) (a' : ndarray),
         news !! 0%nat = Some new /\ s' !! new = Some a'
         /\ rows a' !! 0%nat = Some [(2 - 30)%R; 20%R; (2 - 10)%R; 40%R].
Proof.
  destruct (@RandomFlip_call_batch_last_width exact sample_image_ops 0
              (RandomFlip_init (1 / 2)) [sevens; two_pixels] two_pixels
              [1%positive] (store_of one_corner_box)
              ltac:(simpl; lra) eq_refl ltac:(discriminate)
              ltac:(repeat constructor; exists one_corner_box;
                    split; [apply store_of_lookup | reflexivity]))
    as (self' & news & s' & Hrun & Hw & _ & Hboxes).
  exists self', news, s'. split; [exact Hrun |]. split; [exact Hw |].
  destruct (Hboxes 0%nat 1%positive one_corner_box eq_refl
              (store_of_lookup one_corner_box))
    as (new & a' & Hnew & _ & Ha' & _ & Hrows).
  exists new, a'. split; [exact Hnew |]. split; [exact Ha' |].
  exact (Hrows 0%nat 10%R 20%R 30%R 40%R eq_refl).
Defined.

Lemma Pad_pad_boxes_shift_witness :
  exists (new : loc) (a' : ndarray),
    @Pad_pad_boxes exact pad_4x3_seen 1%positive (store_of one_corner_box)
    = (Ok new, <[new := a']> (store_of one_corner_box))
    /\ entry a' 0 0 = Some (10 + 1)%R
    /\ entry a' 0 3 = Some (40 + 1)%R.
Proof.
  destruct (@Pad_pad_boxes_shift exact pad_4x3_seen 1 1
              (store_of one_corner_box) 1%positive one_corner_box
              1%nat 4%nat eq_refl eq_refl
              (store_of_lookup one_corner_box) has_shape_one_corner_box)
    as (new & a' & Hrun & _ & _ & _ & Hentry).
  exists new, a'. split; [exact Hrun |].
  split; [exact (Hentry 0%nat 0%nat 10%R eq_refl)
         | exact (Hentry 0%nat 3%nat 40%R eq_refl)].
Defined.

Lemma Pad_pad_img_centred_witness :
  exists canvas : image,
    Pad_pad_img pad_4x3 two_pixels = Ok (pad_4x3_seen, canvas)
    /\ image_shape canvas 3 4 3
    /\ pixel canvas 1 1 = Some [1; 2; 3]
    /\ pixel canvas 0 0 = Some [0; 0; 0].
Proof.
  destruct (Pad_pad_img_centred pad_4x3 two_pixels 1%nat 2%nat 4 3
              eq_refl image_shape_two_pixels ltac:(lia) ltac:(lia)
              ltac:(lia) ltac:(lia))
    as (canvas & Hrun & Hshape & Hin & Hrest & _).
  exists canvas. split; [exact Hrun |]. split; [exact Hshape |].
  split.
  - exact (Hin 0%nat 0%nat [1; 2; 3] eq_refl).
  - exact (Hrest 0%nat 0%nat ltac:(lia) ltac:(lia)
             ltac:(change (~ (1 <= 0 < 1 + 1 /\ 1 <= 0 < 1 + 2)); lia)).
Defined.

Lemma Pad_pad_img_channels_witness :
  Pad_pad_img pad_4x3 rgba_pixel = Raise ValueError.
Proof.
  exact (Pad_pad_img_channels pad_4x3 rgba_pixel 1%nat 1%nat 4%nat 4 3
           eq_refl image_shape_rgba_pixel ltac:(lia) ltac:(lia)
           ltac:(lia) ltac:(lia) ltac:(lia) ltac:(lia)).
Defined.

Lemma small_target_4 : (IZR 4 * ((1 + / 16777216) ^ 3 - 1) < 1)%R.
Proof. simpl. lra. Qed.

Lemma Resize_resize_img_fits_witness :
  exists (self' : Resize.t) (ow oh : Z),
    @Resize_resize_img exact sample_image_ops resize_4x4 two_pixels
    = Ok (self', @cv2_resize sample_image_ops two_pixels (ow, oh)
                   cv2.INTER_LINEAR)
    /\ 0 <= ow <= 4 /\ 0 <= oh <= 4 /\ (4 - 1 <= ow \/ 4 - 1 <= oh).
Proof.
  destruct (@Resize_resize_img_fits sample_image_ops exact (/ 16777216)
              exact_standard_model resize_4x4 two_pixels
              4 4 eq_refl eq_refl ltac:(simpl; lia) ltac:(simpl; lia)
              ltac:(lia) ltac:(lia) small_target_4 small_target_4)
    as (ow & oh & Hrun & Hw & Hh & Hmeet).
  eexists _, ow, oh. split; [exact Hrun |]. now repeat split.
Defined.

Lemma Resize_resize_boxes_unscaled_witness :
  exists (self' : Resize.t) (new : loc),
    @Resize_resize_img exact sample_image_ops stretch_4x4 two_pixels
    = Ok (self', @cv2_resize sample_image_ops two_pixels (4, 4)
                   cv2.INTER_LINEAR)
    /\ @Resize_resize_boxes exact self' 1%positive (store_of one_corner_box)
       = (Ok new, <[new := one_corner_box]> (store_of one_corner_box)).
Proof.
  destruct (@Resize_resize_boxes_unscaled sample_image_ops stretch_4x4
              two_pixels (store_of one_corner_box) 1%positive
              one_corner_box eq_refl (store_of_lookup one_corner_box))
    as (new & Himg & Hboxes & _).
  eexists _, new. split; [exact Himg | exact Hboxes].
Defined.


Lemma LetterboxTransform_apply_image_window_witness :
  exists out : image,
    @LetterboxTransform_apply_image exact sample_image_ops letterbox_twice
      two_pixels = Ok out
    /\ pixel out 4 3 = Some [0; 0; 0]
    /\ pixel out 0 0 = Some [114; 114; 114].
Proof.
  destruct (@LetterboxTransform_apply_image_window exact sample_image_ops
              letterbox_twice two_pixels 640 640 2%nat 4%nat eq_refl
              letterbox_twice_width letterbox_twice_height
              (image_shape_full 2 4 3 0) ltac:(lia) ltac:(lia)
              ltac:(simpl; lia) ltac:(simpl; lia) ltac:(simpl; lia)
              ltac:(simpl; lia))
    as (out & Hrun & _ & Hin & Hrest).
  exists out. split; [exact Hrun |]. split.
  - exact (Hin 0%nat 0%nat [0; 0; 0] eq_refl).
  - exact (Hrest 0%nat 0%nat ltac:(lia) ltac:(lia) ltac:(simpl; lia)).
Defined.

Lemma LetterboxTransform_apply_image_overflow_witness :
  @LetterboxTransform_apply_image exact sample_image_ops letterbox_narrow
    two_pixels = Raise ValueError.
Proof.
  exact (@LetterboxTransform_apply_image_overflow exact sample_image_ops
           letterbox_narrow two_pixels 5 640 2%nat 4%nat eq_refl
           letterbox_twice_width letterbox_twice_height
           (image_shape_full 2 4 3 0) ltac:(lia) ltac:(lia) ltac:(lia)
           ltac:(simpl; lia) ltac:(simpl; lia)).
Defined.
